(** * djongo.sql2mongo: the SQL to MongoDB compiler, embedded in Rocq

    A shallow embedding of [djongo/sql2mongo/__init__.py] (the token
    accessor [SQLToken] and the statement cursor [SQLStatement]) and of
    [djongo/sql2mongo/converters.py] (the clause converters), followed by the
    properties of the specification that concern them.

    Conventions.
    - A Python exception is a value of [Error]; a computation that may raise
      returns a [result].
    - A Python [dict] with [str] keys is an association list in insertion
      order; assigning to a key that is present replaces its value in place.
    - The parse tree comes from the [sqlparse] library; its nodes are the
      inductive type [Token], with the accessors the compiler calls. *)

From stdpp Require Import base option list functions gmap strings.
From Stdlib Require Import ZArith Ascii String Lia.

Open Scope string_scope.
Open Scope Z_scope.

(** ** Exceptions and results *)

Inductive Error : Set :=
| SQLDecodeError
| AttributeError
| IndexError
| KeyError
| TypeError
| ValueError
| RecursionError.

Inductive result (A : Type) : Type :=
| Ok (a : A)
| Err (e : Error).
Arguments Ok {A} a.
Arguments Err {A} e.

#[global] Instance result_ret : MRet result := fun A a => Ok a.

#[global] Instance result_bind : MBind result := fun A B f m =>
  match m with
  | Ok a => f a
  | Err e => Err e
  end.

Definition is_ok {A : Type} (m : result A) : bool :=
  match m with Ok _ => true | Err _ => false end.

(** [for x in l: ...] over a body that may raise, threading an accumulator. *)
Fixpoint foldM {A S : Type} (f : S -> A -> result S) (l : list A) (s : S)
  : result S :=
  match l with
  | [] => Ok s
  | x :: l' => s' ← f s x; foldM f l' s'
  end.

(** [[g(x) for x in l]] over a body that may raise. *)
Fixpoint mapM {A B : Type} (f : A -> result B) (l : list A) : result (list B) :=
  match l with
  | [] => Ok []
  | x :: l' => y ← f x; ys ← mapM f l'; Ok (y :: ys)
  end.

(** ** Python values and documents *)

Inductive Value : Type :=
| VNone
| VBool (b : bool)
| VInt (z : Z)
| VStr (s : string)
| VList (l : list Value)
| VDict (d : list (string * Value)).

(** A [dict] with [str] keys. *)
Abbreviation Dict := (list (string * Value)).

(** [d[k]] as an [option]: [None] stands for [KeyError]. *)
Fixpoint dict_get {V : Type} (k : string) (d : list (string * V)) : option V :=
  match d with
  | [] => None
  | (k', v) :: d' => if String.eqb k' k then Some v else dict_get k d'
  end.

(** [d[k] = v]: the value of a present key is replaced where it stands, a new
    key goes to the end. *)
Fixpoint dict_set {V : Type} (k : string) (v : V) (d : list (string * V))
  : list (string * V) :=
  match d with
  | [] => [(k, v)]
  | (k', v') :: d' =>
      if String.eqb k' k then (k', v) :: d' else (k', v') :: dict_set k v d'
  end.

Definition dict_keys {V : Type} (d : list (string * V)) : list string :=
  map fst d.

(** [l[i]] for a list and an index that is not negative. *)
Definition list_index {A : Type} (l : list A) (i : nat) : result A :=
  match l !! i with
  | Some x => Ok x
  | None => Err IndexError
  end.

(** [l[-1]]. *)
Definition list_last {A : Type} (l : list A) : result A :=
  match last l with
  | Some x => Ok x
  | None => Err IndexError
  end.

(** ** The parse tree of [sqlparse] *)

(** The token types the compiler tests for, and the others. *)
Inductive TType : Set :=
| T_Keyword
| T_Keyword_DML
| T_Keyword_Order
| T_Name
| T_Name_Placeholder
| T_Punctuation
| T_Whitespace
| T_Newline
| T_Wildcard
| T_Number_Integer
| T_Operator
| T_Operator_Comparison
| T_Literal_String
| T_Other.

Definition TType_eqb (a b : TType) : bool :=
  match a, b with
  | T_Keyword, T_Keyword | T_Keyword_DML, T_Keyword_DML
  | T_Keyword_Order, T_Keyword_Order | T_Name, T_Name
  | T_Name_Placeholder, T_Name_Placeholder | T_Punctuation, T_Punctuation
  | T_Whitespace, T_Whitespace | T_Newline, T_Newline
  | T_Wildcard, T_Wildcard | T_Number_Integer, T_Number_Integer
  | T_Operator, T_Operator | T_Operator_Comparison, T_Operator_Comparison
  | T_Literal_String, T_Literal_String | T_Other, T_Other => true
  | _, _ => false
  end.

(** [ttype in T.Keyword]: the type or one of its subtypes. *)
Definition ttype_in_Keyword (t : TType) : bool :=
  match t with
  | T_Keyword | T_Keyword_DML | T_Keyword_Order => true
  | _ => false
  end.

(** [ttype in T.Whitespace]. *)
Definition ttype_in_Whitespace (t : TType) : bool :=
  match t with
  | T_Whitespace | T_Newline => true
  | _ => false
  end.

(** The classes of grouped nodes ([sqlparse.sql]); none is a subclass of
    another. *)
Inductive GroupClass : Set :=
| Identifier
| IdentifierList
| Comparison
| Parenthesis
| Function
| Where
| Statement
| TokenList.

Definition GroupClass_eqb (a b : GroupClass) : bool :=
  match a, b with
  | Identifier, Identifier | IdentifierList, IdentifierList
  | Comparison, Comparison | Parenthesis, Parenthesis
  | Function, Function | Where, Where | Statement, Statement
  | TokenList, TokenList => true
  | _, _ => false
  end.

(** What the parser answers for a grouped node: [get_parent_name()],
    [get_real_name()], [get_alias()] and [get_ordering()]. *)
Record Names : Set := mkNames {
  parent_name : option string;
  real_name : option string;
  alias_name : option string;
  ordering : option string
}.

Definition no_names : Names := mkNames None None None None.

(** A node is a leaf with a type and its text, or a group of a class with its
    children. *)
Inductive Token : Type :=
| Leaf (ttype : TType) (value : string)
| Group (cls : GroupClass) (names : Names) (tokens : list Token).

(** [str(tok)] and [tok.value]: the text of a leaf, the texts of the leaves of
    a group joined in order. *)
Fixpoint token_value (tok : Token) : string :=
  match tok with
  | Leaf _ v => v
  | Group _ _ toks =>
      (fix join (l : list Token) : string :=
         match l with
         | [] => ""
         | t :: l' => token_value t ++ join l'
         end) toks
  end.

Definition join_values (toks : list Token) : string :=
  fold_right (fun t acc => token_value t ++ acc) "" toks.

Definition isinstance (tok : Token) (c : GroupClass) : bool :=
  match tok with
  | Leaf _ _ => false
  | Group c' _ _ => GroupClass_eqb c' c
  end.

(** [tok.ttype], [None] for a group. *)
Definition token_ttype (tok : Token) : option TType :=
  match tok with
  | Leaf t _ => Some t
  | Group _ _ _ => None
  end.

Definition is_whitespace (tok : Token) : bool :=
  match tok with
  | Leaf t _ => ttype_in_Whitespace t
  | Group _ _ _ => false
  end.

(** [str.upper()] on the ASCII letters. *)
Definition upper_ascii (c : ascii) : ascii :=
  let n := nat_of_ascii c in
  if ((97 <=? n) && (n <=? 122))%nat then ascii_of_nat (n - 32) else c.

Fixpoint upper (s : string) : string :=
  match s with
  | EmptyString => EmptyString
  | String c s' => String (upper_ascii c) (upper s')
  end.

(** [tok.match(ttype, value)]: the type must be the very type asked for; the
    text of a keyword is compared in upper case, other text as it is. *)
Definition token_match (tok : Token) (t : TType) (v : string) : bool :=
  match tok with
  | Leaf t' s =>
      TType_eqb t' t
      && (if ttype_in_Keyword t' then String.eqb (upper s) (upper v)
          else String.eqb s v)
  | Group _ _ _ => false
  end.

(** [tok.ttype == tokens.Name.Placeholder]. *)
Definition is_placeholder (tok : Token) : bool :=
  match tok with
  | Leaf T_Name_Placeholder _ => true
  | _ => false
  end.

(** [tok[i]]: a leaf is not subscriptable. *)
Definition token_getitem (tok : Token) (i : nat) : result Token :=
  match tok with
  | Leaf _ _ => Err TypeError
  | Group _ _ toks => list_index toks i
  end.

Definition token_children (tok : Token) : list Token :=
  match tok with
  | Leaf _ _ => []
  | Group _ _ toks => toks
  end.

Definition token_names (tok : Token) : Names :=
  match tok with
  | Leaf _ _ => no_names
  | Group _ n _ => n
  end.

(** [IdentifierList.get_identifiers()]: the children that are neither
    whitespace nor a comma; only an identifier list has the method. *)
Definition get_identifiers (tok : Token) : result (list Token) :=
  match tok with
  | Group IdentifierList _ toks =>
      Ok (filter (fun t => negb (is_whitespace t
                                 || token_match t T_Punctuation ",")) toks)
  | _ => Err AttributeError
  end.

(** [Comparison.left] and [Comparison.right]: the first and the last child. *)
Definition comparison_left (tok : Token) : result Token :=
  list_index (token_children tok) 0.

Definition comparison_right (tok : Token) : result Token :=
  list_last (token_children tok).

(** ** [re.match(r'%\(([0-9]+)\)s', text, flags=re.IGNORECASE)]

    Strings are sequences of bytes (UTF-8). The pattern is matched at the
    start of the text and nothing is asked of what follows it. With
    [re.IGNORECASE] the literal [s] also matches [S] and, for a [str]
    pattern, the long s U+017F, whose UTF-8 bytes are 197, 191. *)

Definition is_digit (c : ascii) : bool :=
  let n := nat_of_ascii c in ((48 <=? n) && (n <=? 57))%nat.

(** The longest run of digits at the start of [s], and the rest. *)
Fixpoint span_digits (s : string) : list ascii * string :=
  match s with
  | String c s' =>
      if is_digit c
      then let '(ds, rest) := span_digits s' in (c :: ds, rest)
      else ([], s)
  | EmptyString => ([], s)
  end.

Definition matches_s (s : string) : bool :=
  match s with
  | String c s' =>
      (Ascii.eqb c "s" || Ascii.eqb c "S")%char
      || match s' with
         | String c' _ =>
             (nat_of_ascii c =? 197)%nat && (nat_of_ascii c' =? 191)%nat
         | EmptyString => false
         end
  | EmptyString => false
  end.

(** The digits of group 1 when the pattern matches. *)
Definition re_match_placeholder (s : string) : option (list ascii) :=
  match s with
  | String c0 (String c1 s1) =>
      if (Ascii.eqb c0 "%" && Ascii.eqb c1 "(")%char then
        match span_digits s1 with
        | (d :: ds, String c2 s2) =>
            if (Ascii.eqb c2 ")")%char && matches_s s2
            then Some (d :: ds) else None
        | _ => None
        end
      else None
  | _ => None
  end.

(** [int(digits)] for a run of decimal digits. *)
Definition int_of_digits (ds : list ascii) : nat :=
  fold_left (fun acc c => (10 * acc + (nat_of_ascii c - 48))%nat) ds 0%nat.

(** ** [SQLToken] *)

(** A token accessor is an object: [sql_id] is its identity. [token_alias]
    says whether the alias registry of the query is attached; the registry is
    one mutable object shared by all the tokens of a query, so the properties
    that read it take its current contents as an argument. *)
Record SQLToken : Type := mkSQLToken {
  sql_id : nat;
  _token : Token;
  token_alias : bool
}.

(** Modelled from the spec: the class [TokenAlias] of [query.py], the alias
    registry of section 3: two mappings, from an alias to the token it names
    and from a token to its alias. [token2alias] is a [dict] keyed by
    [SQLToken] objects, kept in insertion order. *)
Record TokenAlias : Type := mkTokenAlias {
  alias2token : gmap string SQLToken;
  token2alias : list (SQLToken * string)
}.

Definition empty_TokenAlias : TokenAlias := mkTokenAlias ∅ [].

(** Modelled from the spec: the class [SQLFunc] of [functions.py], the
    function translator of section 4.5, by what the converters read from a
    selected function: its alias, its accumulator document [to_mongo()], and
    the table and column of its argument. *)
Record SQLFunc : Type := mkSQLFunc {
  func_alias : string;
  func_to_mongo : result Value;
  func_table : result string;
  func_column : result string
}.

(** An entry of [selected_columns.sql_tokens]. *)
Inductive Selected : Type :=
| SelToken (s : SQLToken)
| SelFunc (f : SQLFunc).

(** A generator run to its end: what it yielded, and the exception that
    ended it, if one did. *)
Record Generated (A : Type) : Type := mkGenerated {
  yielded : list A;
  raised : option Error
}.
Arguments mkGenerated {A} yielded raised.
Arguments yielded {A} g.
Arguments raised {A} g.

Definition yield_first {A : Type} (x : A) (g : Generated A) : Generated A :=
  mkGenerated (x :: yielded g) (raised g).

Section Sql2Mongo.

(** Python's built-in [hash] on [str]. *)
Variable py_hash : string -> Z.

(** [sqlparse.parse]: the statements of a text. *)
Variable sqlparse : string -> list Token.

(** The stack frames left to a property call before [RecursionError]. *)
Variable recursion_limit : nat.

(** [SQLToken.__hash__]. *)
Definition SQLToken_hash (s : SQLToken) : Z := py_hash (token_value (_token s)).

(** [a is b]. *)
Definition same_object (a b : SQLToken) : bool := Nat.eqb (sql_id a) (sql_id b).

(** [SQLToken] defines no [__eq__]: [a == b] is [a is b]. *)
Definition SQLToken_eq (a b : SQLToken) : bool := same_object a b.

(** The test a [dict] makes between a stored key and the key looked up: equal
    hashes, and then the same object or equal objects. *)
Definition key_match (stored k : SQLToken) : bool :=
  (SQLToken_hash stored =? SQLToken_hash k)
  && (same_object stored k || SQLToken_eq stored k).

Fixpoint token2alias_get (k : SQLToken) (d : list (SQLToken * string))
  : option string :=
  match d with
  | [] => None
  | (k', v) :: d' => if key_match k' k then Some v else token2alias_get k d'
  end.

Fixpoint token2alias_set (k : SQLToken) (v : string)
  (d : list (SQLToken * string)) : list (SQLToken * string) :=
  match d with
  | [] => [(k, v)]
  | (k', v') :: d' =>
      if key_match k' k then (k', v) :: d'
      else (k', v') :: token2alias_set k v d'
  end.

(** The two assignments of a registration:
    [alias2token[alias] = sql; token2alias[sql] = alias]. *)
Definition register (alias : string) (sql : SQLToken) (ta : TokenAlias)
  : TokenAlias :=
  mkTokenAlias (<[alias := sql]> (alias2token ta))
               (token2alias_set sql alias (token2alias ta)).

(** The name [SQLToken.table] starts from: [get_parent_name()], else
    [get_real_name()]. *)
Definition table_name (tok : Token) : option string :=
  match parent_name (token_names tok) with
  | Some n => Some n
  | None => real_name (token_names tok)
  end.

(** [SQLToken.table]. [alias2token[name].table] is a call of the property on
    the token bound to [name]; [KeyError] (no such alias) and [TypeError] (no
    registry attached) give the name back, any other exception of the inner
    call goes on. *)
Fixpoint table_rec (depth : nat) (ta : TokenAlias) (s : SQLToken)
  : result string :=
  match depth with
  | O => Err RecursionError
  | S depth' =>
      if negb (isinstance (_token s) Identifier) then Err SQLDecodeError
      else
        match table_name (_token s) with
        | None => Err SQLDecodeError
        | Some name =>
            if token_alias s then
              match alias2token ta !! name with
              | Some bound => table_rec depth' ta bound
              | None => Ok name
              end
            else Ok name
        end
  end.

Definition table (ta : TokenAlias) (s : SQLToken) : result string :=
  table_rec recursion_limit ta s.

(** [SQLToken.column]. *)
Definition column (s : SQLToken) : result string :=
  if negb (isinstance (_token s) Identifier) then Err SQLDecodeError
  else
    match real_name (token_names (_token s)) with
    | None => Err SQLDecodeError
    | Some name => Ok name
    end.

(** [SQLToken.alias]. *)
Definition alias (s : SQLToken) : result (option string) :=
  if negb (isinstance (_token s) Identifier) then Err SQLDecodeError
  else Ok (alias_name (token_names (_token s))).

(** [pymongo.ASCENDING] and [pymongo.DESCENDING]. *)
Definition ASCENDING : Z := 1.
Definition DESCENDING : Z := -1.

Definition ORDER_BY_MAP : list (string * Z) :=
  [("ASC", ASCENDING); ("DESC", DESCENDING)].

(** [SQLToken.order]. *)
Definition order (s : SQLToken) : result Z :=
  if negb (isinstance (_token s) Identifier) then Err SQLDecodeError
  else
    match ordering (token_names (_token s)) with
    | None => Err SQLDecodeError
    | Some _ord =>
        match dict_get _ord ORDER_BY_MAP with
        | Some o => Ok o
        | None => Err KeyError
        end
    end.

(** The accessor built on a child, [SQLToken(child, self.token_alias)]: a
    temporary that is never stored, so that its identity is not observed; it
    is given the parent's. *)
Definition sub_token (s : SQLToken) (child : Token) : SQLToken :=
  mkSQLToken (sql_id s) child (token_alias s).

(** [SQLToken.left_table], [left_column], [right_table], [right_column] and
    [lhs_column]. *)
Definition left_table (ta : TokenAlias) (s : SQLToken) : result string :=
  if negb (isinstance (_token s) Comparison) then Err SQLDecodeError
  else lhs ← comparison_left (_token s); table ta (sub_token s lhs).

Definition left_column (s : SQLToken) : result string :=
  if negb (isinstance (_token s) Comparison) then Err SQLDecodeError
  else lhs ← comparison_left (_token s); column (sub_token s lhs).

Definition right_table (ta : TokenAlias) (s : SQLToken) : result string :=
  if negb (isinstance (_token s) Comparison) then Err SQLDecodeError
  else rhs ← comparison_right (_token s); table ta (sub_token s rhs).

Definition right_column (s : SQLToken) : result string :=
  if negb (isinstance (_token s) Comparison) then Err SQLDecodeError
  else rhs ← comparison_right (_token s); column (sub_token s rhs).

Definition lhs_column (s : SQLToken) : result string :=
  if negb (isinstance (_token s) Comparison) then Err SQLDecodeError
  else lhs ← comparison_left (_token s); column (sub_token s lhs).

(** [SQLToken.placeholder_index]: [.group(1)] of a failed match is an
    attribute of [None]. *)
Definition placeholder_index (tok : Token) : result nat :=
  match re_match_placeholder (token_value tok) with
  | Some ds => Ok (int_of_digits ds)
  | None => Err AttributeError
  end.

(** [self._token.right]: an attribute of a [Comparison] only. *)
Definition token_right (tok : Token) : result Token :=
  if isinstance tok Comparison then comparison_right tok
  else Err AttributeError.

(** [SQLToken.rhs_indexes]: the index of the placeholder on the right, or
    [None] for [NULL]. *)
Definition rhs_indexes (s : SQLToken) : result (option nat) :=
  right ← token_right (_token s);
  if negb (is_placeholder right) then
    if token_match right T_Keyword "NULL" then Ok None
    else Err SQLDecodeError
  else
    index ← placeholder_index right;
    Ok (Some index).

(** [l[start:stop]] for a list. *)
Definition slice_bound (len default : Z) (b : option Z) : Z :=
  match b with
  | None => default
  | Some i => if i <? 0 then Z.max (len + i) 0 else Z.min i len
  end.

Definition py_slice {A : Type} (l : list A) (start stop : option Z) : list A :=
  let len := Z.of_nat (List.length l) in
  let lo := slice_bound len 0 start in
  let hi := slice_bound len len stop in
  take (Z.to_nat (hi - lo)) (drop (Z.to_nat lo) l).

(** The loop of [SQLToken.__iter__] over the identifiers of a list. *)
Fixpoint iter_identifiers (aids : list Token) : Generated (option nat) :=
  match aids with
  | [] => mkGenerated [] None
  | aid :: rest =>
      if is_placeholder aid then
        match placeholder_index aid with
        | Ok i => yield_first (Some i) (iter_identifiers rest)
        | Err e => mkGenerated [] (Some e)
        end
      else if token_match aid T_Keyword "NULL" then
        yield_first None (iter_identifiers rest)
      else mkGenerated [] (Some SQLDecodeError)
  end.

(** [SQLToken.__iter__]: the indexes of a parenthesised list of placeholders,
    [None] for [NULL]. *)
Definition SQLToken_iter (s : SQLToken) : Generated (option nat) :=
  if negb (isinstance (_token s) Parenthesis)
  then mkGenerated [] (Some SQLDecodeError)
  else
    match list_index (py_slice (token_children (_token s))
                               (Some 1) (Some (-1))) 0 with
    | Err e => mkGenerated [] (Some e)
    | Ok tok =>
        if is_placeholder tok then
          match placeholder_index tok with
          | Ok i => mkGenerated [Some i] None
          | Err e => mkGenerated [] (Some e)
          end
        else if token_match tok T_Keyword "NULL" then mkGenerated [None] None
        else if isinstance tok IdentifierList then
          match get_identifiers tok with
          | Ok aids => iter_identifiers aids
          | Err e => mkGenerated [] (Some e)
          end
        else mkGenerated [] (Some SQLDecodeError)
    end.

(** ** [SQLStatement] *)

(** The cursor: the node it walks and its position, [None] once
    [token_next] has found nothing. Positions start at 0 and only grow. *)
Record SQLStatement : Type := mkSQLStatement {
  _statement : Token;
  _tok_id : option nat
}.

(** [SQLStatement(statement)]. *)
Definition new_SQLStatement (statement : Token) : SQLStatement :=
  mkSQLStatement statement (Some 0%nat).

(** The first token at position [i] or later that is not whitespace, with its
    position; [toks] is what is left of the list from position [i] on. *)
Fixpoint token_matching (toks : list Token) (i : nat) : option (nat * Token) :=
  match toks with
  | [] => None
  | t :: toks' =>
      if is_whitespace t then token_matching toks' (S i) else Some (i, t)
  end.

(** [TokenList.token_next(idx)] of [sqlparse]: the position and the token
    after [idx], whitespace skipped; [(None, None)] when [idx] is [None] or
    nothing is left. A leaf has no such method. *)
Definition token_next (statement : Token) (idx : option nat)
  : result (option (nat * Token)) :=
  match statement with
  | Leaf _ _ => Err AttributeError
  | Group _ _ toks =>
      match idx with
      | None => Ok None
      | Some i => Ok (token_matching (drop (S i) toks) (S i))
      end
  end.

(** [SQLStatement.current_token]. *)
Definition current_token (c : SQLStatement) : result Token :=
  match _tok_id c with
  | None => Err TypeError
  | Some i => token_getitem (_statement c) i
  end.

(** [SQLStatement.next]: the token returned is [None] at the end. *)
Definition SQLStatement_next (c : SQLStatement)
  : result (option Token * SQLStatement) :=
  r ← token_next (_statement c) (_tok_id c);
  Ok (snd <$> r, mkSQLStatement (_statement c) (fst <$> r)).

(** [SQLStatement.skip]. *)
Definition SQLStatement_skip (num : nat) (c : SQLStatement)
  : result SQLStatement :=
  match _tok_id c with
  | None => Err TypeError
  | Some i => Ok (mkSQLStatement (_statement c) (Some (i + num)%nat))
  end.

(** [x or 0] on an optional integer. *)
Definition or_zero (x : option Z) : Z :=
  match x with
  | None => 0
  | Some z => z
  end.

(** [(item.start or 0) + self._tok_id]. *)
Definition slice_start (tok_id : nat) (item_start : option Z) : option Z :=
  Some (or_zero item_start + Z.of_nat tok_id).

(** [item.stop and self._tok_id + item.stop]. *)
Definition slice_stop (tok_id : nat) (item_stop : option Z) : option Z :=
  match item_stop with
  | None => None
  | Some 0 => Some 0
  | Some z => Some (Z.of_nat tok_id + z)
  end.

(** The text [SQLStatement.__getitem__] builds for [statement[start:stop]]:
    adding an integer to the position [None] is a [TypeError], and so is
    slicing a leaf. *)
Definition getitem_sql (c : SQLStatement) (item_start item_stop : option Z)
  : result string :=
  match _tok_id c with
  | None => Err TypeError
  | Some tok_id =>
      match _statement c with
      | Leaf _ _ => Err TypeError
      | Group _ _ toks =>
          Ok (join_values (py_slice toks (slice_start tok_id item_start)
                                         (slice_stop tok_id item_stop)))
      end
  end.

(** [SQLStatement.__getitem__]: the text is parsed again and the first
    statement of the result is wrapped in a new cursor. *)
Definition SQLStatement_getitem (c : SQLStatement)
  (item_start item_stop : option Z) : result SQLStatement :=
  sql ← getitem_sql c item_start item_stop;
  sql ← list_index (sqlparse sql) 0;
  Ok (new_SQLStatement sql).

(** *** Cursors as objects

    A cursor is an object that [next] and [skip] change in place. The heap
    maps a reference to the object it names; the references below [next_ref]
    are the ones in use. *)
Record Heap : Type := mkHeap {
  objects : nat -> SQLStatement;
  next_ref : nat
}.

Definition heap_store (r : nat) (c : SQLStatement) (h : Heap) : Heap :=
  mkHeap (<[r := c]> (objects h)) (next_ref h).

(** [statement[start:stop]] on the cursor at [r]: the new cursor is a new
    object. *)
Definition getitem_at (r : nat) (item_start item_stop : option Z) (h : Heap)
  : result (nat * Heap) :=
  child ← SQLStatement_getitem (objects h r) item_start item_stop;
  Ok (next_ref h,
      mkHeap (<[next_ref h := child]> (objects h)) (S (next_ref h))).

(** [statement.next()] on the cursor at [r]. *)
Definition next_at (r : nat) (h : Heap) : result (option Token * Heap) :=
  '(tok, c) ← SQLStatement_next (objects h r);
  Ok (tok, heap_store r c h).

(** [statement.skip(num)] on the cursor at [r]. *)
Definition skip_at (r : nat) (num : nat) (h : Heap) : result Heap :=
  c ← SQLStatement_skip num (objects h r);
  Ok (heap_store r c h).

(** ** The query being compiled *)

(** Modelled from the spec: the query context of [query.py] (section 3), by
    the attributes the converters read and write: [left_table] ([None] until
    FROM is parsed), [params], [token_alias] and
    [selected_columns.sql_tokens]. *)
Record Query : Type := mkQuery {
  query_left_table : option string;
  query_params : list Value;
  query_token_alias : TokenAlias;
  query_selected_columns : list Selected
}.

(** [name == self.query.left_table]. *)
Definition is_left_table (q : Query) (name : string) : bool :=
  match query_left_table q with
  | Some t => String.eqb name t
  | None => false
  end.

(** What a converter's [parse] works on: the query, the cursor it shares with
    the other converters, and the identity of the next object created. *)
Record CompileState : Type := mkCompileState {
  cs_query : Query;
  cs_statement : SQLStatement;
  cs_next_id : nat
}.

Definition M (A : Type) : Type := CompileState -> result (A * CompileState).

#[local] Instance M_ret : MRet M := fun A a st => Ok (a, st).

#[local] Instance M_bind : MBind M := fun A B f m st =>
  match m st with
  | Ok (a, st') => f a st'
  | Err e => Err e
  end.

Definition raise {A : Type} (e : Error) : M A := fun _ => Err e.

Definition lift {A : Type} (r : result A) : M A := fun st =>
  match r with
  | Ok a => Ok (a, st)
  | Err e => Err e
  end.

Definition get_query : M Query := fun st => Ok (cs_query st, st).

Definition set_query (q : Query) : M unit := fun st =>
  Ok (tt, mkCompileState q (cs_statement st) (cs_next_id st)).

(** [self.statement.next()]. *)
Definition statement_next : M (option Token) := fun st =>
  match SQLStatement_next (cs_statement st) with
  | Ok (tok, c) => Ok (tok, mkCompileState (cs_query st) c (cs_next_id st))
  | Err e => Err e
  end.

(** [SQLToken(tok, self.query.token_alias)]: a new object. *)
Definition new_SQLToken (tok : Token) : M SQLToken := fun st =>
  Ok (mkSQLToken (cs_next_id st) tok true,
      mkCompileState (cs_query st) (cs_statement st) (S (cs_next_id st))).

(** [for x in l] over a body that works on the state. *)
Fixpoint forM {A B : Type} (f : A -> M B) (l : list A) : M (list B) :=
  match l with
  | [] => mret []
  | x :: l' => y ← f x; ys ← forM f l'; mret (y :: ys)
  end.

(** The truth value of an optional string: [None] and [''] are false. *)
Definition truthy (a : option string) : option string :=
  match a with
  | Some "" => None
  | _ => a
  end.

(** The registration every clause makes for an aliased token:
    [if sql.alias: alias2token[sql.alias] = sql; token2alias[sql] = sql.alias]. *)
Definition register_alias (sql : SQLToken) : M unit :=
  a ← lift (alias sql);
  match truthy a with
  | Some a =>
      q ← get_query;
      set_query (mkQuery (query_left_table q) (query_params q)
                         (register a sql (query_token_alias q))
                         (query_selected_columns q))
  | None => mret tt
  end.

(** A method or attribute of the token [next()] returned: of [None] at the
    end of the statement. *)
Definition attribute_of (tok : option Token) : M Token :=
  match tok with
  | Some t => mret t
  | None => raise AttributeError
  end.

(** ** [FromConverter] *)

(** [FromConverter.parse]. A cursor at its end returns [None], which is not
    an [Identifier]. *)
Definition FromConverter_parse : M unit :=
  tok ← statement_next;
  match tok with
  | None => raise SQLDecodeError
  | Some tok =>
      sql ← new_SQLToken tok;
      q ← get_query;
      t ← lift (table (query_token_alias q) sql);
      set_query (mkQuery (Some t) (query_params q) (query_token_alias q)
                         (query_selected_columns q));;
      register_alias sql
  end.

(** ** [ColumnSelectConverter] *)

(** Python's [int] on [str], for the constant of [SELECT (1)]. *)
Variable py_int : string -> result Z.

(** [SQLFunc(tok, query, token_alias)], of [functions.py]. *)
Variable new_SQLFunc : Token -> result SQLFunc.

Record ColumnSelectConverter : Type := mkColumnSelectConverter {
  select_all : bool;
  return_const : option Z;
  has_func : bool;
  sql_tokens : list Selected
}.

(** [ColumnSelectConverter._identifier]. *)
Definition ColumnSelectConverter__identifier (self : ColumnSelectConverter)
  (tok : Token) : M ColumnSelectConverter :=
  tok0 ← lift (token_getitem tok 0);
  if isinstance tok0 Parenthesis then
    tok01 ← lift (token_getitem tok0 1);
    c ← lift (py_int (token_value tok01));
    mret (mkColumnSelectConverter (select_all self) (Some c) (has_func self)
                                  (sql_tokens self))
  else if isinstance tok0 Function then
    func ← lift (new_SQLFunc tok);
    mret (mkColumnSelectConverter (select_all self) (return_const self) true
                                  (sql_tokens self ++ [SelFunc func]))
  else
    sql ← new_SQLToken tok;
    register_alias sql;;
    mret (mkColumnSelectConverter (select_all self) (return_const self)
                                  (has_func self)
                                  (sql_tokens self ++ [SelToken sql])).

(** ** [JoinConverter], [InnerJoinConverter], [OuterJoinConverter] *)

(** The attributes of a join once [parse] has returned. *)
Record JoinConverter : Type := mkJoinConverter {
  join_left_table : string;
  join_right_table : string;
  join_left_column : string;
  join_right_column : string
}.

(** [JoinConverter.parse]. *)
Definition JoinConverter_parse : M JoinConverter :=
  tok ← statement_next;
  match tok with
  | None => raise SQLDecodeError
  | Some tok =>
      sql ← new_SQLToken tok;
      q ← get_query;
      right_table_ ← lift (table (query_token_alias q) sql);
      register_alias sql;;
      tok ← statement_next;
      tok ← attribute_of tok;
      if negb (token_match tok T_Keyword "ON") then raise SQLDecodeError
      else
        tok ← statement_next;
        match tok with
        | None => raise SQLDecodeError
        | Some tok =>
            tok ← (if isinstance tok Parenthesis
                   then lift (token_getitem tok 1) else mret tok);
            sql ← new_SQLToken tok;
            q ← get_query;
            let ta := query_token_alias q in
            rt ← lift (right_table ta sql);
            if String.eqb right_table_ rt then
              lt ← lift (left_table ta sql);
              lc ← lift (left_column sql);
              rc ← lift (right_column sql);
              mret (mkJoinConverter lt right_table_ lc rc)
            else
              lt ← lift (right_table ta sql);
              lc ← lift (right_column sql);
              rc ← lift (left_column sql);
              mret (mkJoinConverter lt right_table_ lc rc)
        end
  end.

(** The field a join reads on the left: the column, qualified by its table
    when the table is not the primary one. *)
Definition join_local_field (q : Query) (self : JoinConverter) : string :=
  if is_left_table q (join_left_table self) then join_left_column self
  else join_left_table self ++ "." ++ join_left_column self.

(** [JoinConverter._lookup]. *)
Definition JoinConverter__lookup (q : Query) (self : JoinConverter) : Value :=
  let local_field := join_local_field q self in
  VDict [("$lookup",
          VDict [("from", VStr (join_right_table self));
                 ("localField", VStr local_field);
                 ("foreignField", VStr (join_right_column self));
                 ("as", VStr (join_right_table self))])].

(** [InnerJoinConverter.to_mongo]. *)
Definition InnerJoinConverter_to_mongo (q : Query) (self : JoinConverter)
  : list Value :=
  let match_field := join_local_field q self in
  let lookup := JoinConverter__lookup q self in
  [ VDict [("$match",
            VDict [(match_field,
                    VDict [("$ne", VNone); ("$exists", VBool true)])])];
    lookup;
    VDict [("$unwind", VStr ("$" ++ join_right_table self))] ].

(** [selected.table] and [selected.column] on an entry of the SELECT list. *)
Definition selected_table (ta : TokenAlias) (sel : Selected) : result string :=
  match sel with
  | SelToken s => table ta s
  | SelFunc f => func_table f
  end.

Definition selected_column (sel : Selected) : result string :=
  match sel with
  | SelToken s => column s
  | SelFunc f => func_column f
  end.

(** One turn of the loop of [OuterJoinConverter._null_fields]. *)
Definition null_fields_step (ta : TokenAlias) (table_ : string)
  (fields : Dict) (tok : Selected) : result Dict :=
  t ← selected_table ta tok;
  if String.eqb t table_ then
    c ← selected_column tok;
    Ok (dict_set c VNone fields)
  else Ok fields.

(** [OuterJoinConverter._null_fields]. *)
Definition OuterJoinConverter__null_fields (q : Query) (table_ : string)
  : result Dict :=
  foldM (null_fields_step (query_token_alias q) table_)
        (query_selected_columns q) [].

(** [OuterJoinConverter.to_mongo]. *)
Definition OuterJoinConverter_to_mongo (q : Query) (self : JoinConverter)
  : result (list Value) :=
  let lookup := JoinConverter__lookup q self in
  null_fields ← OuterJoinConverter__null_fields q (join_right_table self);
  Ok [ lookup;
       VDict [("$unwind",
               VDict [("path", VStr ("$" ++ join_right_table self));
                      ("preserveNullAndEmptyArrays", VBool true)])];
       VDict [("$addFields",
               VDict [(join_right_table self,
                       VDict [("$ifNull",
                               VList [VStr ("$" ++ join_right_table self);
                                      VDict null_fields])])])] ].

(** ** [OrderConverter] *)

(** [OrderConverter.parse]: the list of [(column, ordering)] accessors. *)
Definition OrderConverter_parse : M (list (SQLToken * SQLToken)) :=
  tok ← statement_next;
  tok ← attribute_of tok;
  if negb (token_match tok T_Keyword "BY") then raise SQLDecodeError
  else
    tok ← statement_next;
    match tok with
    | None => mret []
    | Some tok =>
        if isinstance tok Identifier then
          tok0 ← lift (token_getitem tok 0);
          a ← new_SQLToken tok0;
          b ← new_SQLToken tok;
          mret [(a, b)]
        else if isinstance tok IdentifierList then
          ids ← lift (get_identifiers tok);
          forM (fun _id =>
                  id0 ← lift (token_getitem _id 0);
                  a ← new_SQLToken id0;
                  b ← new_SQLToken _id;
                  mret (a, b)) ids
        else mret []
    end.

(** [OrderConverter.to_mongo]. *)
Definition OrderConverter_to_mongo (columns : list (SQLToken * SQLToken))
  : result (list (string * Z)) :=
  mapM (fun '(tok, tok_ord) =>
          c ← column tok; o ← order tok_ord; Ok (c, o)) columns.

(** ** [SetConverter] *)

(** [SetConverter.parse]. *)
Definition SetConverter_parse : M (list SQLToken) :=
  tok ← statement_next;
  match tok with
  | None => raise SQLDecodeError
  | Some tok =>
      if isinstance tok Comparison then
        sql ← new_SQLToken tok; mret [sql]
      else if isinstance tok IdentifierList then
        ids ← lift (get_identifiers tok);
        forM new_SQLToken ids
      else raise SQLDecodeError
  end.

(** The value of one assignment:
    [params[sql.rhs_indexes] if sql.rhs_indexes is not None else None]. *)
Definition set_value (params : list Value) (sql : SQLToken) : result Value :=
  i ← rhs_indexes sql;
  match i with
  | Some i => list_index params i
  | None => Ok VNone
  end.

(** One turn of the dict comprehension of [SetConverter.to_mongo]: the key
    [sql.lhs_column], then its value. *)
Definition set_step (params : list Value) (doc : Dict) (sql : SQLToken)
  : result Dict :=
  k ← lhs_column sql; v ← set_value params sql; Ok (dict_set k v doc).

Definition set_document (params : list Value) (sqls : list SQLToken)
  : result Dict :=
  foldM (set_step params) sqls [].

(** [SetConverter.to_mongo]. *)
Definition SetConverter_to_mongo (q : Query) (sqls : list SQLToken)
  : result Value :=
  doc ← set_document (query_params q) sqls;
  Ok (VDict [("update", VDict [("$set", VDict doc)])]).

(** ** [_Tokens2Id] and [GroupbyConverter] *)

(** [GroupbyConverter.parse]. *)
Definition GroupbyConverter_parse : M (list SQLToken) :=
  tok ← statement_next;
  tok ← attribute_of tok;
  if negb (token_match tok T_Keyword "BY") then raise SQLDecodeError
  else
    tok ← statement_next;
    tok ← attribute_of tok;
    if isinstance tok Identifier then
      sql ← new_SQLToken tok; mret [sql]
    else
      ids ← lift (get_identifiers tok);
      forM new_SQLToken ids.

(** One turn of the loop of [_Tokens2Id.to_id]. Under a table that is not the
    primary one the column goes into the document stored at the table's name;
    [KeyError] starts that document, and a string stored there does not take
    an item. *)
Definition to_id_step (q : Query) (_id : Dict) (iden : SQLToken)
  : result Dict :=
  let ta := query_token_alias q in
  t ← table ta iden;
  if is_left_table q t then
    c ← column iden;
    Ok (dict_set c (VStr ("$" ++ c)) _id)
  else
    c ← column iden;
    let mongo_field := VStr ("$" ++ t ++ "." ++ c) in
    match dict_get t _id with
    | Some (VDict sub) => Ok (dict_set t (VDict (dict_set c mongo_field sub)) _id)
    | Some _ => Err TypeError
    | None => Ok (dict_set t (VDict [(c, mongo_field)]) _id)
    end.

(** [_Tokens2Id.to_id]. *)
Definition to_id (q : Query) (sqls : list SQLToken) : result Dict :=
  foldM (to_id_step q) sqls [].

(** One turn of the loop of [GroupbyConverter.to_mongo], on the pair of the
    [$group] and [$project] documents. *)
Definition groupby_step (q : Query) (gp : Dict * Dict) (selected : Selected)
  : result (Dict * Dict) :=
  let '(group, project) := gp in
  match selected with
  | SelToken s =>
      t ← table (query_token_alias q) s;
      if is_left_table q t then
        c ← column s;
        Ok (group, dict_set c (VStr ("$_id." ++ c)) project)
      else
        c ← column s;
        Ok (group,
            dict_set (t ++ "." ++ c) (VStr ("_id." ++ t ++ "." ++ c)) project)
  | SelFunc f =>
      let project := dict_set (func_alias f) (VBool true) project in
      acc ← func_to_mongo f;
      Ok (dict_set (func_alias f) acc group, project)
  end.

(** [GroupbyConverter.to_mongo]. *)
Definition GroupbyConverter_to_mongo (q : Query) (sqls : list SQLToken)
  : result (list Value) :=
  _id ← to_id q sqls;
  '(group, project) ←
    foldM (groupby_step q) (query_selected_columns q)
          ([("_id", VDict _id)], [("_id", VBool false)]);
  Ok [ VDict [("$group", VDict group)]; VDict [("$project", VDict project)] ].

(** ** What the specification says of a placeholder *)

(** The long s, as the bytes of its UTF-8 encoding. *)
Definition long_s : string :=
  String (ascii_of_nat 197) (String (ascii_of_nat 191) EmptyString).

(** [text] starts with [%(N)s] where [N] is the run of digits [ds]; the
    closing letter may be in either case. *)
Definition is_placeholder_text (text : string) (ds : list ascii) : Prop :=
  ds <> [] /\ forallb is_digit ds = true /\
  exists sfx rest, In sfx ["s"; "S"; long_s] /\
    text = "%(" ++ string_of_list_ascii ds ++ ")" ++ sfx ++ rest.

(** The key [GroupbyConverter.to_mongo] writes in [$project] for an entry of
    the SELECT list: the column, [table.column] under another table than the
    primary one, the alias of a function. *)
Definition project_key (q : Query) (sel : Selected) : result string :=
  match sel with
  | SelToken s =>
      t ← table (query_token_alias q) s;
      c ← column s;
      Ok (if is_left_table q t then c else t ++ "." ++ c)
  | SelFunc f => Ok (func_alias f)
  end.

(** The token [s] is the column [c] of the table [t]. *)
Definition resolves (q : Query) (s : SQLToken) (t c : string) : Prop :=
  table (query_token_alias q) s = Ok t /\ column s = Ok c.

(** A value of [_id] is a document, or the string of a primary column of
    [sqls] under the name of that column. *)
Definition id_values (q : Query) (sqls : list SQLToken) (_id : Dict) : Prop :=
  forall k v, dict_get k _id = Some v ->
    (exists sub, v = VDict sub)
    \/ (exists iden t, In iden sqls /\ resolves q iden t k
                       /\ is_left_table q t = true /\ v = VStr ("$" ++ k)).

(** No grouped column of the primary table has the name of the table of
    another grouped column. *)
Definition no_clash (q : Query) (sqls : list SQLToken) : Prop :=
  forall i1 i2 t1 c1 t2 c2,
    In i1 sqls -> In i2 sqls -> resolves q i1 t1 c1 -> resolves q i2 t2 c2 ->
    is_left_table q t1 = true -> is_left_table q t2 = false -> c1 <> t2.

(** ** More of [SQLToken] and [SQLStatement] *)

(** [SQLToken.has_parent]: [get_parent_name()], a method of grouped nodes. *)
Definition has_parent (s : SQLToken) : result (option string) :=
  match _token s with
  | Leaf _ _ => Err AttributeError
  | Group _ names _ => Ok (parent_name names)
  end.


(** The scan of [TokenList.token_prev(idx)] of [sqlparse]: the positions
    [n - 1] down to 0, up to the first token that is not whitespace; reading
    a position past the end of the list is an [IndexError]. *)
Fixpoint token_matching_down (toks : list Token) (n : nat)
  : result (option (nat * Token)) :=
  match n with
  | O => Ok None
  | S j =>
      match toks !! j with
      | None => Err IndexError
      | Some t =>
          if is_whitespace t then token_matching_down toks j
          else Ok (Some (j, t))
      end
  end.

(** [TokenList.token_prev(idx)]. *)
Definition token_prev (statement : Token) (idx : option nat)
  : result (option (nat * Token)) :=
  match statement with
  | Leaf _ _ => Err AttributeError
  | Group _ _ toks =>
      match idx with
      | None => Ok None
      | Some i => token_matching_down toks i
      end
  end.

(** [SQLStatement.prev_token]. *)
Definition prev_token (c : SQLStatement) : result (option Token) :=
  match token_prev (_statement c) (_tok_id c) with
  | Ok r => Ok (snd <$> r)
  | Err e => Err e
  end.

(** [SQLStatement.next_token]. *)
Definition next_token (c : SQLStatement) : result (option Token) :=
  match token_next (_statement c) (_tok_id c) with
  | Ok r => Ok (snd <$> r)
  | Err e => Err e
  end.

(** The loop of [SQLStatement.__iter__]:
    [while self._tok_id is not None: yield token; self._tok_id, token = ...].
    The loop is run for at most [fuel] turns: [None] when that is not enough.
    The result is what was yielded and the cursor as the loop leaves it. *)
Fixpoint iter_loop (fuel : nat) (c : SQLStatement) (token : Token)
  : option (Generated Token * SQLStatement) :=
  match fuel with
  | O => None
  | S fuel' =>
      match _tok_id c with
      | None => Some (mkGenerated [] None, c)
      | Some _ =>
          match SQLStatement_next c with
          | Err e => Some (mkGenerated [token] (Some e), c)
          | Ok (None, c') => Some (mkGenerated [token] None, c')
          | Ok (Some token', c') =>
              match iter_loop fuel' c' token' with
              | Some (g, c'') => Some (yield_first token g, c'')
              | None => None
              end
          end
      end
  end.

(** [SQLStatement.__iter__]: the first token is the one at the position of
    the cursor. *)
Definition SQLStatement_iter (fuel : nat) (c : SQLStatement)
  : option (Generated Token * SQLStatement) :=
  match current_token c with
  | Err e => Some (mkGenerated [] (Some e), c)
  | Ok token => iter_loop fuel c token
  end.

(** ** [print_warn] *)

(** The module's set [_printed_features] and what was printed so far. A
    feature is a string or [None]. *)
Record WarnState : Type := mkWarnState {
  _printed_features : gset (option string);
  printed_lines : list string
}.

Definition djongo_access_url : string := "https://www.patreon.com/nesdis".

(** [f'{feature}']. *)
Definition format_feature (feature : option string) : string :=
  match feature with
  | Some f => f
  | None => "None"
  end.

(** [print_warn]. *)
Definition print_warn (feature message : option string) (w : WarnState)
  : WarnState :=
  if decide (feature ∈ _printed_features w) then w
  else
    let message :=
      (match truthy message with
       | Some m => m
       | None => "This version of djongo does not support "
                 ++ format_feature feature ++ " fully. "
       end) ++ "Visit " ++ djongo_access_url in
    mkWarnState ({[feature]} ∪ _printed_features w)
                (printed_lines w ++ [message])%list.

(** A run of calls of [print_warn]. *)
Definition print_warns (calls : list (option string * option string))
  (w : WarnState) : WarnState :=
  fold_left (fun w '(feature, message) => print_warn feature message w)
            calls w.

(** ** Projections and sorts of the aggregation mode *)

(** The key an entry of the SELECT list has in the [$project] of
    [AggColumnSelectConverter]: the column, [table.column] under another
    table than the primary one. *)
Definition select_key (q : Query) (sel : Selected) : result string :=
  t ← selected_table (query_token_alias q) sel;
  if is_left_table q t then selected_column sel
  else c ← selected_column sel; Ok (t ++ "." ++ c).

(** One turn of the loop of [AggColumnSelectConverter.to_mongo]. *)
Definition agg_project_step (q : Query) (project : Dict) (selected : Selected)
  : result Dict :=
  k ← select_key q selected;
  Ok (dict_set k (VBool true) project).

(** One turn of the loop of [AggColumnSelectConverter._using_group_by]. *)
Definition using_group_by_step (q : Query) (gp : Dict * Dict)
  (selected : Selected) : result (Dict * Dict) :=
  let '(group, project) := gp in
  match selected with
  | SelFunc f =>
      acc ← func_to_mongo f;
      Ok (dict_set (func_alias f) acc group,
          dict_set (func_alias f) (VBool true) project)
  | SelToken s =>
      project ← agg_project_step q project selected;
      Ok (group, project)
  end.

(** [AggColumnSelectConverter._using_group_by]. *)
Definition AggColumnSelectConverter__using_group_by (q : Query)
  (self : ColumnSelectConverter) : result (list Value) :=
  '(group, project) ←
    foldM (using_group_by_step q) (sql_tokens self)
          ([("_id", VNone)], [("_id", VBool false)]);
  Ok [ VDict [("$group", VDict group)]; VDict [("$project", VDict project)] ].

(** [AggColumnSelectConverter.to_mongo]. *)
Definition AggColumnSelectConverter_to_mongo (q : Query)
  (self : ColumnSelectConverter) : result (list Value) :=
  match return_const self with
  | Some c =>
      Ok [ VDict [("$project",
                   VDict [("_const", VDict [("$literal", VInt c)])])] ]
  | None =>
      if has_func self then AggColumnSelectConverter__using_group_by q self
      else
        project ← foldM (agg_project_step q) (sql_tokens self) [];
        Ok [ VDict [("$project", VDict project)] ]
  end.

(** The field [AggOrderConverter.to_mongo] sorts on for a column. *)
Definition agg_order_field (q : Query) (tok : SQLToken) : result string :=
  p ← has_parent tok;
  match truthy p with
  | Some _ =>
      t ← table (query_token_alias q) tok;
      if is_left_table q t then column tok
      else c ← column tok; Ok (t ++ "." ++ c)
  | None => table (query_token_alias q) tok
  end.

(** One turn of the loop of [AggOrderConverter.to_mongo], on the ordered
    dictionary [sort]. *)
Definition agg_order_step (q : Query) (sort : list (string * Z))
  (col : SQLToken * SQLToken) : result (list (string * Z)) :=
  let '(tok, tok_ord) := col in
  field ← agg_order_field q tok;
  o ← order tok_ord;
  Ok (dict_set field o sort).

(** [AggOrderConverter.to_mongo]: the ordered dictionary of [$sort]. *)
Definition AggOrderConverter_to_mongo (q : Query)
  (columns : list (SQLToken * SQLToken)) : result (list (string * Z)) :=
  foldM (agg_order_step q) columns [].

(** ** The registry as the clauses keep it *)

(** Every alias of the registry is bound to an accessor that has the registry
    attached, on an identifier with that alias. *)
Definition registry_ok (ta : TokenAlias) : Prop :=
  forall a b, alias2token ta !! a = Some b ->
    token_alias b = true /\ alias b = Ok (Some a).

Definition state_registry_ok (st : CompileState) : Prop :=
  registry_ok (query_token_alias (cs_query st)).

(** The state [st] with the registry [ta] in the place of its registry. *)
Definition with_registry (st : CompileState) (ta : TokenAlias)
  : CompileState :=
  mkCompileState
    (mkQuery (query_left_table (cs_query st)) (query_params (cs_query st)) ta
             (query_selected_columns (cs_query st)))
    (cs_statement st) (cs_next_id st).

(** The registry after the registration of [sql]: with the alias of [sql]
    bound to it, when it has one. *)
Definition registry_after (ta : TokenAlias) (sql : SQLToken) : TokenAlias :=
  match alias sql with
  | Ok a =>
      match truthy a with
      | Some a => register a sql ta
      | None => ta
      end
  | Err _ => ta
  end.

(** The cursor of [st] reads, with three calls of [next], the tokens of a
    join: the joined table [tj], the keyword ON and the comparison [cmp], out
    of its parentheses if it has them; the cursor is then [c]. *)
Definition reads_join (st : CompileState) (tj cmp : Token) (c : SQLStatement)
  : Prop :=
  exists c1 on c2 cmp0,
    SQLStatement_next (cs_statement st) = Ok (Some tj, c1)
    /\ SQLStatement_next c1 = Ok (Some on, c2)
    /\ token_match on T_Keyword "ON" = true
    /\ SQLStatement_next c2 = Ok (Some cmp0, c)
    /\ (if isinstance cmp0 Parenthesis then token_getitem cmp0 1
        else Ok cmp0) = Ok cmp.

(** What a value list holds at an element that is in order: the number
    written in a placeholder, [None] for the keyword NULL. *)
Definition value_entry (aid : Token) (y : option nat) : Prop :=
  (is_placeholder aid = true
   /\ exists ds, is_placeholder_text (token_value aid) ds
                 /\ y = Some (int_of_digits ds))
  \/ (is_placeholder aid = false
      /\ token_match aid T_Keyword "NULL" = true /\ y = None).

(** A turn of a loop that writes one key of a dictionary: [kv] gives, for an
    element, the key and the value, or raises. *)
Definition keyed_step {A V : Type} (kv : A -> result (string * V))
  (acc : list (string * V)) (x : A) : result (list (string * V)) :=
  p ← kv x; Ok (dict_set p.1 p.2 acc).

(** The key and the value [AggColumnSelectConverter.to_mongo] writes for an
    entry of the SELECT list. *)
Definition agg_project_entry (q : Query) (sel : Selected)
  : result (string * Value) :=
  k ← select_key q sel; Ok (k, VBool true).

(** The key and the value [AggOrderConverter.to_mongo] writes for a column. *)
Definition agg_order_entry (q : Query) (col : SQLToken * SQLToken)
  : result (string * Z) :=
  field ← agg_order_field q col.1; o ← order col.2; Ok (field, o).

(** The key an entry of the SELECT list has in the [$project] of
    [AggColumnSelectConverter._using_group_by]: the alias of a function, and
    for a column the key of [select_key]. *)
Definition group_by_project_key (q : Query) (sel : Selected) : result string :=
  match sel with
  | SelFunc f => Ok (func_alias f)
  | SelToken _ => select_key q sel
  end.

(** Whether a turn of the loop of [_using_group_by] raises on an entry. *)
Definition group_by_entry_ok (q : Query) (sel : Selected) : bool :=
  match sel with
  | SelFunc f => is_ok (func_to_mongo f)
  | SelToken _ => is_ok (select_key q sel)
  end.

(** ** How the store reads the guard of an inner join

    MongoDB evaluates a condition [{op: arg, ...}] on the value found at a
    field of a row, [None] when the row has no such field. [$exists: b]
    holds when the presence of the field is [b]; [$ne: None] holds when the
    field is present with a value that is not null. All the operators of a
    condition must hold. Other operators are not needed here. *)

Definition is_null (found : option Value) : bool :=
  match found with
  | None | Some VNone => true
  | Some _ => false
  end.

Definition eval_operator (op : string) (arg : Value) (found : option Value)
  : option bool :=
  if String.eqb op "$exists" then
    match arg with
    | VBool b => Some (Bool.eqb b (bool_decide (is_Some found)))
    | _ => None
    end
  else if String.eqb op "$ne" then
    match arg with
    | VNone => Some (negb (is_null found))
    | _ => None
    end
  else None.

Fixpoint eval_condition (cond : Dict) (found : option Value) : option bool :=
  match cond with
  | [] => Some true
  | (op, arg) :: cond' =>
      b ← eval_operator op arg found;
      bs ← eval_condition cond' found;
      Some (b && bs)
  end.

(** A row passes a [$match] stage on one field when the condition on that
    field holds of what the row has there. *)
Definition match_stage_keeps (stage : Value) (field : string)
  (found : option Value) : option bool :=
  match stage with
  | VDict [("$match", VDict [(f, VDict cond)])] =>
      if String.eqb f field then eval_condition cond found else None
  | _ => None
  end.

(** ** Sample statements

    Parse trees as [sqlparse] builds them, and stand-ins for the
    collaborators, on which the definitions above can be run. *)

Definition ws : Token := Leaf T_Whitespace " ".

(** [name]: an unqualified identifier. *)
Definition ident (name : string) : Token :=
  Group Identifier (mkNames None (Some name) None None) [Leaf T_Name name].

(** [parent.name]. *)
Definition qualified (parent name : string) : Token :=
  Group Identifier (mkNames (Some parent) (Some name) None None)
        [Leaf T_Name parent; Leaf T_Punctuation "."; Leaf T_Name name].

(** [name AS a]. *)
Definition ident_as (name a : string) : Token :=
  Group Identifier (mkNames None (Some name) (Some a) None)
        [Leaf T_Name name; ws; Leaf T_Keyword "AS"; ws; ident a].

(** [parent.name AS a]. *)
Definition qualified_as (parent name a : string) : Token :=
  Group Identifier (mkNames (Some parent) (Some name) (Some a) None)
        [Leaf T_Name parent; Leaf T_Punctuation "."; Leaf T_Name name; ws;
         Leaf T_Keyword "AS"; ws; ident a].

(** [lhs = rhs]. *)
Definition comparison (lhs rhs : Token) : Token :=
  Group Comparison no_names
        [lhs; ws; Leaf T_Operator_Comparison "="; ws; rhs].

Definition placeholder (text : string) : Token := Leaf T_Name_Placeholder text.

Definition keyword (text : string) : Token := Leaf T_Keyword text.

(** A statement and a cursor at its first token. *)
Definition statement_of (toks : list Token) : SQLStatement :=
  mkSQLStatement (Group Statement no_names toks) (Some 0%nat).

Definition empty_query (params : list Value) : Query :=
  mkQuery None params empty_TokenAlias [].

Definition sample_hash (s : string) : Z := Z.of_nat (String.length s).

Definition sample_sqlparse (s : string) : list Token :=
  [Group Statement no_names [Leaf T_Other s]].

Definition sample_int (s : string) : result Z := Err ValueError.

Definition sample_SQLFunc (tok : Token) : result SQLFunc := Err ValueError.

(** [SELECT y.c AS x FROM x AS t]: the column alias is the name of the
    table. *)
Definition select_alias_from : CompileState :=
  mkCompileState
    (empty_query [])
    (statement_of [Leaf T_Keyword_DML "SELECT"; ws; qualified_as "y" "c" "x";
                   ws; keyword "FROM"; ws; ident_as "x" "t"])
    0.

(** [x AS t] after [FROM], with [t] bound already. *)
Definition bound_twice : CompileState :=
  mkCompileState
    (mkQuery None []
             (mkTokenAlias {[ "t" := mkSQLToken 0 (ident_as "w" "t") true ]}
                           [(mkSQLToken 0 (ident_as "w" "t") true, "t")])
             [])
    (statement_of [keyword "FROM"; ws; ident_as "x" "t"])
    1.

(** [ORDER BY 1]. *)
Definition order_by_number : CompileState :=
  mkCompileState
    (empty_query [])
    (statement_of [keyword "ORDER"; ws; keyword "BY"; ws;
                   Leaf T_Number_Integer "1"])
    0.

(** [SET y = %(0)s, z = NULL] with the parameters [7, 5]. *)
Definition update_query : Query := empty_query [VInt 7; VInt 5].

Definition set_tokens : list SQLToken :=
  [ mkSQLToken 0 (comparison (ident "y") (placeholder "%(0)s")) true;
    mkSQLToken 1 (comparison (ident "z") (keyword "NULL")) true ].

(** [SELECT x.a, y.b FROM x LEFT JOIN y ON x.id = y.x_id GROUP BY x.a, y.b]
    once SELECT and FROM are parsed. *)
Definition joined_query : Query :=
  mkQuery (Some "x") [] empty_TokenAlias
          [ SelToken (mkSQLToken 0 (qualified "x" "a") true);
            SelToken (mkSQLToken 1 (qualified "y" "b") true) ].

Definition joined_groupby : list SQLToken :=
  [ mkSQLToken 2 (qualified "x" "a") true;
    mkSQLToken 3 (qualified "y" "b") true ].

Definition join_y : JoinConverter := mkJoinConverter "x" "y" "id" "x_id".

(** [JOIN y ON x.id = y.x_id] after [FROM x]. *)
Definition join_clause : CompileState :=
  mkCompileState
    (mkQuery (Some "x") [] empty_TokenAlias
             [SelToken (mkSQLToken 0 (qualified "x" "a") true)])
    (statement_of [keyword "JOIN"; ws; ident "y"; ws; keyword "ON"; ws;
                   comparison (qualified "x" "id") (qualified "y" "x_id")])
    1.

(** [SELECT a, COUNT(b) AS cnt FROM x GROUP BY a] once SELECT and FROM are
    parsed; [{$sum: 1}] stands for the accumulator of the function. *)
Definition count_b : SQLFunc :=
  mkSQLFunc "cnt" (Ok (VDict [("$sum", VInt 1)])) (Ok "x") (Ok "b").

Definition counted_query : Query :=
  mkQuery (Some "x") [] empty_TokenAlias
          [ SelToken (mkSQLToken 0 (ident "a") true); SelFunc count_b ].

Definition counted_groupby : list SQLToken :=
  [ mkSQLToken 1 (ident "a") true ].

(** [SELECT x.a, COUNT(x.b) AS cnt FROM x GROUP BY x.a], likewise. *)
Definition qualified_counted_query : Query :=
  mkQuery (Some "x") [] empty_TokenAlias
          [ SelToken (mkSQLToken 0 (qualified "x" "a") true); SelFunc count_b ].

Definition qualified_counted_groupby : list SQLToken :=
  [ mkSQLToken 1 (qualified "x" "a") true ].

(** The parse of [SELECT <identifier> FROM <identifier>] from the keyword
    SELECT on: the SELECT list, the keyword FROM, the FROM clause. *)
Definition parse_select_from : M ColumnSelectConverter :=
  tok ← statement_next;
  tok ← attribute_of tok;
  conv ← ColumnSelectConverter__identifier
           (mkColumnSelectConverter false None false []) tok;
  statement_next;;
  FromConverter_parse;;
  mret conv.

(** The value list [(%(0)s, a, NULL)]: its second element is an identifier. *)
Definition value_list : SQLToken :=
  mkSQLToken 0
    (Group Parenthesis no_names
       [ Leaf T_Punctuation "(";
         Group IdentifierList no_names
           [ placeholder "%(0)s"; Leaf T_Punctuation ","; ws; ident "a";
             Leaf T_Punctuation ","; ws; keyword "NULL" ];
         Leaf T_Punctuation ")" ])
    true.

(** A heap with one cursor, over [GROUP BY a HAVING a = %(0)s ORDER],
    standing on HAVING. *)
Definition one_cursor : Heap :=
  mkHeap (fun _ =>
            mkSQLStatement
              (Group Statement no_names
                 [keyword "GROUP"; ws; keyword "BY"; ws; ident "a"; ws;
                  keyword "HAVING"; ws;
                  comparison (ident "a") (placeholder "%(0)s");
                  ws; keyword "ORDER"])
              (Some 6%nat))
         1.

(** [tok ASC] or [tok DESC]: the identifier with its direction. *)
Definition ordered (tok : Token) (direction : string) : Token :=
  Group Identifier
        (mkNames (parent_name (token_names tok)) (real_name (token_names tok))
                 None (Some direction))
        [tok; ws; Leaf T_Keyword_Order direction].

(** [ORDER BY], cut short after BY. *)
Definition order_by_nothing : CompileState :=
  mkCompileState (empty_query [])
                 (statement_of [keyword "ORDER"; ws; keyword "BY"]) 0.

(** [GROUP BY 1]. *)
Definition group_by_number : CompileState :=
  mkCompileState
    (empty_query [])
    (statement_of [keyword "GROUP"; ws; keyword "BY"; ws;
                   Leaf T_Number_Integer "1"])
    0.

(** [SET y = %(0)s, z = NULL] from the keyword SET on. *)
Definition set_clause : CompileState :=
  mkCompileState
    update_query
    (statement_of
       [keyword "SET"; ws;
        Group IdentifierList no_names
          [comparison (ident "y") (placeholder "%(0)s");
           Leaf T_Punctuation ","; ws;
           comparison (ident "z") (keyword "NULL")]])
    0.

(** [JOIN y ON y.x_id = x.id] after [FROM x]: the joined table on the left
    of the comparison. *)
Definition join_clause_reversed : CompileState :=
  mkCompileState
    (mkQuery (Some "x") [] empty_TokenAlias
             [SelToken (mkSQLToken 0 (qualified "x" "a") true)])
    (statement_of [keyword "JOIN"; ws; ident "y"; ws; keyword "ON"; ws;
                   comparison (qualified "y" "x_id") (qualified "x" "id")])
    1.

(** The registry after [FROM x AS x]. *)
Definition self_alias : TokenAlias :=
  mkTokenAlias {[ "x" := mkSQLToken 0 (ident_as "x" "x") true ]}
               [(mkSQLToken 0 (ident_as "x" "x") true, "x")].

(** [()]: a value list with nothing between the brackets. *)
Definition empty_value_list : SQLToken :=
  mkSQLToken 0
    (Group Parenthesis no_names
       [Leaf T_Punctuation "("; Leaf T_Punctuation ")"])
    true.

(** * Properties *)

(** ** Results and dictionaries *)

Lemma dict_get_set_eq {V : Type} (k : string) (v : V) (d : list (string * V)) :
  dict_get k (dict_set k v d) = Some v.
Proof.
  induction d as [|[k' v'] d IH]; simpl.
  - by rewrite String.eqb_refl.
  - destruct (String.eqb k' k) eqn:E; simpl; rewrite E; [done | exact IH].
Qed.

Lemma dict_get_set_ne {V : Type} (k k2 : string) (v : V)
  (d : list (string * V)) :
  k <> k2 -> dict_get k2 (dict_set k v d) = dict_get k2 d.
Proof.
  intros Hne. induction d as [|[k' v'] d IH]; simpl.
  - destruct (String.eqb k k2) eqn:E; [|done].
    apply String.eqb_eq in E. contradiction.
  - destruct (String.eqb k' k) eqn:E; simpl.
    + apply String.eqb_eq in E. subst k'.
      destruct (String.eqb k k2) eqn:E2; [|done].
      apply String.eqb_eq in E2. contradiction.
    + by rewrite IH.
Qed.

Lemma dict_get_set {V : Type} (k k2 : string) (v : V) (d : list (string * V)) :
  dict_get k2 (dict_set k v d)
  = if String.eqb k k2 then Some v else dict_get k2 d.
Proof.
  destruct (String.eqb k k2) eqn:E.
  - apply String.eqb_eq in E. subst. apply dict_get_set_eq.
  - apply String.eqb_neq in E. by apply dict_get_set_ne.
Qed.

Lemma foldM_cons {A S : Type} (f : S -> A -> result S) (x : A) (l : list A)
  (s : S) :
  foldM f (x :: l) s = (s' ← f s x; foldM f l s').
Proof. reflexivity. Qed.

Lemma foldM_app {A S : Type} (f : S -> A -> result S) (l1 l2 : list A) (s : S) :
  foldM f (l1 ++ l2) s = (s' ← foldM f l1 s; foldM f l2 s').
Proof.
  revert s. induction l1 as [|x l1 IH]; intros s; simpl; [done|].
  destruct (f s x) as [s'|e]; simpl; [apply IH | done].
Qed.

(** ** The placeholder pattern *)

Lemma append_cons (c : ascii) (s t : string) :
  String c s ++ t = String c (s ++ t).
Proof. reflexivity. Qed.

Lemma append_nil (t : string) : "" ++ t = t.
Proof. reflexivity. Qed.

Lemma span_digits_spec (s : string) :
  s = string_of_list_ascii (span_digits s).1 ++ (span_digits s).2
  /\ forallb is_digit (span_digits s).1 = true.
Proof.
  induction s as [|c s [IH1 IH2]]; simpl; [done|].
  destruct (is_digit c) eqn:E; simpl; [|done].
  destruct (span_digits s) as [ds rest]; simpl in *.
  split; [by rewrite append_cons, <- IH1 | by rewrite E].
Qed.

Lemma span_digits_app (ds : list ascii) (c : ascii) (rest : string) :
  forallb is_digit ds = true -> is_digit c = false ->
  span_digits (string_of_list_ascii ds ++ String c rest) = (ds, String c rest).
Proof.
  intros Hds Hc. induction ds as [|d ds IH]; simpl in *.
  - by rewrite Hc.
  - apply andb_true_iff in Hds as [Hd Hds]. rewrite Hd, (IH Hds). done.
Qed.

Lemma matches_s_spec (s : string) :
  matches_s s = true <->
  exists sfx rest, In sfx ["s"; "S"; long_s] /\ s = sfx ++ rest.
Proof.
  split.
  - destruct s as [|c s]; simpl; [done|]. intros H.
    apply orb_true_iff in H as [H|H].
    + apply orb_true_iff in H as [H|H]; apply Ascii.eqb_eq in H; subst c.
      * exists "s", s. simpl. auto.
      * exists "S", s. simpl. auto.
    + destruct s as [|c' s]; [done|].
      apply andb_true_iff in H as [H1 H2].
      apply Nat.eqb_eq in H1, H2.
      exists long_s, s. split; [simpl; auto|].
      unfold long_s. simpl. rewrite <- H1, <- H2.
      by rewrite !ascii_nat_embedding.
  - intros (sfx & rest & Hin & ->). simpl in Hin.
    destruct Hin as [<-|[<-|[<-|[]]]]; done.
Qed.

Lemma re_match_placeholder_spec (text : string) (ds : list ascii) :
  re_match_placeholder text = Some ds <-> is_placeholder_text text ds.
Proof.
  unfold is_placeholder_text. split.
  - unfold re_match_placeholder. intros H.
    destruct text as [|c0 [|c1 s1]]; try done.
    destruct (Ascii.eqb c0 "%") eqn:E0; [|done].
    destruct (Ascii.eqb c1 "(") eqn:E1; [|done].
    apply Ascii.eqb_eq in E0, E1. subst c0 c1. simpl in H.
    destruct (span_digits_spec s1) as [Hs Hd].
    destruct (span_digits s1) as [[|d ds'] rest]; simpl in *; [done|].
    destruct rest as [|c2 s2]; [done|].
    destruct (Ascii.eqb c2 ")") eqn:E2; [|done].
    apply Ascii.eqb_eq in E2. subst c2.
    destruct (matches_s s2) eqn:Em; [|done].
    injection H as <-. split; [done|]. split; [done|].
    apply matches_s_spec in Em as (sfx & rest & Hin & ->).
    exists sfx, rest. split; [done|].
    by rewrite Hs, !append_cons, !append_nil.
  - intros (Hne & Hd & sfx & rest & Hin & ->).
    unfold re_match_placeholder.
    rewrite !append_cons, append_nil. simpl.
    rewrite span_digits_app by done.
    destruct ds as [|d ds]; [done|]. simpl. rewrite !append_nil.
    assert (matches_s (sfx ++ rest) = true) as ->; [|done].
    apply matches_s_spec. eauto.
Qed.

Lemma int_of_digits_snoc (ds : list ascii) (d : ascii) :
  int_of_digits (ds ++ [d])
  = (10 * int_of_digits ds + (nat_of_ascii d - 48))%nat.
Proof. unfold int_of_digits. by rewrite fold_left_app. Qed.

Lemma placeholder_index_matches (tok : Token) (ds : list ascii) :
  is_placeholder_text (token_value tok) ds ->
  placeholder_index tok = Ok (int_of_digits ds).
Proof.
  intros H. unfold placeholder_index.
  apply re_match_placeholder_spec in H. by rewrite H.
Qed.

(** C6, as amended. The index of a placeholder is the number written between
    [%(] and [)s] at the start of its text; on a text that does not start
    that way [placeholder_index] fails, and the exception is the
    [AttributeError] of [None.group], not a decode error. *)
Theorem placeholder_index_pattern (tok : Token) :
  (forall ds, is_placeholder_text (token_value tok) ds ->
     placeholder_index tok = Ok (int_of_digits ds))
  /\ ((forall ds, ~ is_placeholder_text (token_value tok) ds) ->
     placeholder_index tok = Err AttributeError).
Proof.
  split; [apply placeholder_index_matches|]. unfold placeholder_index.
  intros H. destruct (re_match_placeholder (token_value tok)) as [ds|] eqn:E;
      [|done].
  apply re_match_placeholder_spec in E. by destruct (H ds).
Qed.

(** ** The alias registry *)

Lemma key_match_same_object (a b : SQLToken) :
  key_match a b = true -> sql_id a = sql_id b.
Proof.
  unfold key_match, SQLToken_eq, same_object. intros H.
  apply andb_true_iff in H as [_ H]. rewrite orb_diag in H.
  by apply Nat.eqb_eq.
Qed.

Lemma key_match_refl (a : SQLToken) : key_match a a = true.
Proof.
  unfold key_match, SQLToken_eq, same_object.
  by rewrite Z.eqb_refl, Nat.eqb_refl.
Qed.

Lemma token2alias_get_set_eq (k : SQLToken) (v : string)
  (d : list (SQLToken * string)) :
  token2alias_get k (token2alias_set k v d) = Some v.
Proof.
  induction d as [|[k' v'] d IH]; simpl.
  - by rewrite key_match_refl.
  - destruct (key_match k' k) eqn:E; simpl; rewrite E; [done | exact IH].
Qed.

Lemma token2alias_get_set_ne (k1 k2 : SQLToken) (v : string)
  (d : list (SQLToken * string)) :
  sql_id k1 <> sql_id k2 ->
  token2alias_get k1 (token2alias_set k2 v d) = token2alias_get k1 d.
Proof.
  intros Hne. induction d as [|[k' v'] d IH]; simpl.
  - destruct (key_match k2 k1) eqn:E; [|done].
    apply key_match_same_object in E. congruence.
  - destruct (key_match k' k2) eqn:E2; simpl.
    + destruct (key_match k' k1) eqn:E1; [|done].
      apply key_match_same_object in E1, E2. congruence.
    + by rewrite IH.
Qed.

(** C10, as amended. Two accessors whose tokens have the same text have the
    same hash. The mapping from tokens to aliases still tells them apart:
    [SQLToken] defines no [__eq__], so two distinct objects are two keys and
    each keeps its own entry. *)
Theorem equal_text_equal_hash (s1 s2 : SQLToken) :
  token_value (_token s1) = token_value (_token s2) ->
  SQLToken_hash s1 = SQLToken_hash s2
  /\ (sql_id s1 <> sql_id s2 ->
      forall (a1 a2 : string) (d : list (SQLToken * string)),
        let d' := token2alias_set s2 a2 (token2alias_set s1 a1 d) in
        token2alias_get s1 d' = Some a1 /\ token2alias_get s2 d' = Some a2).
Proof.
  intros Hv. split.
  - unfold SQLToken_hash. by rewrite Hv.
  - intros Hne a1 a2 d d'. subst d'. split.
    + rewrite token2alias_get_set_ne by done. apply token2alias_get_set_eq.
    + apply token2alias_get_set_eq.
Qed.

Lemma table_rec_unfold (depth : nat) (ta : TokenAlias) (s : SQLToken)
  (name : string) :
  isinstance (_token s) Identifier = true ->
  table_name (_token s) = Some name ->
  table_rec (S depth) ta s
  = if token_alias s then
      match alias2token ta !! name with
      | Some bound => table_rec depth ta bound
      | None => Ok name
      end
    else Ok name.
Proof. intros Hi Hn. simpl. by rewrite Hi, Hn. Qed.

Lemma register_lookup_eq (a : string) (sql : SQLToken) (ta : TokenAlias) :
  alias2token (register a sql ta) !! a = Some sql.
Proof. unfold register. simpl. apply lookup_insert_eq. Qed.

Lemma register_lookup_ne (a b : string) (sql : SQLToken) (ta : TokenAlias) :
  a <> b -> alias2token (register a sql ta) !! b = alias2token ta !! b.
Proof. intros H. unfold register. simpl. by apply lookup_insert_ne. Qed.

(** What [register_alias] does for an identifier that has an alias. *)
Lemma register_alias_aliased (sql : SQLToken) (a : string) (st : CompileState) :
  alias sql = Ok (Some a) -> a <> "" ->
  register_alias sql st
  = Ok (tt, mkCompileState
              (mkQuery (query_left_table (cs_query st))
                       (query_params (cs_query st))
                       (register a sql (query_token_alias (cs_query st)))
                       (query_selected_columns (cs_query st)))
              (cs_statement st) (cs_next_id st)).
Proof.
  intros Ha Hne. unfold register_alias, mbind, M_bind, lift. rewrite Ha.
  destruct a as [|c a]; [done|]. reflexivity.
Qed.

(** [FromConverter.parse] on [table AS a]: the table becomes the primary
    table of the query and [a] is bound to the accessor of the token. *)
Lemma FromConverter_parse_registers (st : CompileState) (tok : Token)
  (c : SQLStatement) (t a : string) :
  SQLStatement_next (cs_statement st) = Ok (Some tok, c) ->
  table (query_token_alias (cs_query st))
        (mkSQLToken (cs_next_id st) tok true) = Ok t ->
  alias_name (token_names tok) = Some a -> a <> "" ->
  FromConverter_parse st
  = Ok (tt, mkCompileState
              (mkQuery (Some t) (query_params (cs_query st))
                       (register a (mkSQLToken (cs_next_id st) tok true)
                                 (query_token_alias (cs_query st)))
                       (query_selected_columns (cs_query st)))
              c (S (cs_next_id st))).
Proof.
  intros Hnext Ht Ha Hne.
  assert (isinstance tok Identifier = true) as Hi.
  { unfold table in Ht. destruct recursion_limit; [done|]. simpl in Ht.
    by destruct (isinstance tok Identifier). }
  unfold FromConverter_parse, mbind, M_bind, statement_next. rewrite Hnext.
  cbn [new_SQLToken get_query lift cs_query cs_statement cs_next_id].
  rewrite Ht. cbn [lift set_query cs_query cs_statement cs_next_id].
  rewrite register_alias_aliased with (a := a); [done | | done].
  unfold alias. cbn [_token]. by rewrite Hi, Ha.
Qed.

(** C9. Registering an alias that is already bound does not raise: the new
    token replaces the old one under the alias, every other alias keeps its
    token, and a reference through the alias is resolved on the new token
    from then on. *)
Theorem register_alias_overwrites (sql old : SQLToken) (a : string)
  (st : CompileState) :
  alias sql = Ok (Some a) -> a <> "" ->
  alias2token (query_token_alias (cs_query st)) !! a = Some old ->
  exists st',
    register_alias sql st = Ok (tt, st')
    /\ alias2token (query_token_alias (cs_query st')) !! a = Some sql
    /\ token2alias_get sql (token2alias (query_token_alias (cs_query st')))
       = Some a
    /\ (forall b, b <> a ->
          alias2token (query_token_alias (cs_query st')) !! b
          = alias2token (query_token_alias (cs_query st)) !! b)
    /\ (forall depth ref,
          isinstance (_token ref) Identifier = true ->
          table_name (_token ref) = Some a ->
          token_alias ref = true ->
          table_rec (S depth) (query_token_alias (cs_query st')) ref
          = table_rec depth (query_token_alias (cs_query st')) sql).
Proof.
  intros Ha Hne _. eexists. split; [by apply register_alias_aliased|].
  cbn [cs_query query_token_alias]. split; [apply register_lookup_eq|].
  split; [apply token2alias_get_set_eq|].
  split; [intros b Hb; by apply register_lookup_ne|].
  intros depth ref Hi Hn Ht.
  rewrite (table_rec_unfold _ _ _ a) by done.
  by rewrite Ht, register_lookup_eq.
Qed.

(** C5, as amended. [table] starts from the qualifying prefix of an
    identifier, else from its real name. Without a registry, or when the name
    is not an alias, that name is the table; when the name is an alias the
    table is the [table] of the token bound to it. So a reference through
    [t], once [table AS t] is registered, resolves to [table] provided
    [table] is not itself an alias in the registry. *)
Theorem table_resolution (depth : nat) (ta : TokenAlias) (s : SQLToken)
  (name : string) :
  isinstance (_token s) Identifier = true ->
  table_name (_token s) = Some name ->
  (token_alias s = false -> table_rec (S depth) ta s = Ok name)
  /\ (alias2token ta !! name = None -> table_rec (S depth) ta s = Ok name)
  /\ (forall bound, token_alias s = true ->
        alias2token ta !! name = Some bound ->
        table_rec (S depth) ta s = table_rec depth ta bound)
  /\ (forall bound tbl, token_alias s = true ->
        alias2token ta !! name = Some bound ->
        isinstance (_token bound) Identifier = true ->
        table_name (_token bound) = Some tbl ->
        alias2token ta !! tbl = None ->
        table_rec (S (S depth)) ta s = Ok tbl).
Proof.
  intros Hi Hn.
  split; [intros Ht; rewrite (table_rec_unfold _ _ _ name) by done;
          by rewrite Ht|].
  split; [intros Hl; rewrite (table_rec_unfold _ _ _ name) by done;
          rewrite Hl; by destruct (token_alias s)|].
  split.
  - intros bound Ht Hl. rewrite (table_rec_unfold _ _ _ name) by done.
    by rewrite Ht, Hl.
  - intros bound tbl Ht Hl Hbi Hbn Hnone.
    rewrite (table_rec_unfold _ _ _ name) by done. rewrite Ht, Hl.
    rewrite (table_rec_unfold _ _ _ tbl) by done. rewrite Hnone.
    by destruct (token_alias bound).
Qed.

(** ** The statement cursor *)

Lemma py_slice_nat (A : Type) (l : list A) (a b : nat) :
  py_slice l (Some (Z.of_nat a)) (Some (Z.of_nat b)) = take (b - a) (drop a l).
Proof.
  unfold py_slice, slice_bound.
  rewrite (proj2 (Z.ltb_ge (Z.of_nat a) 0)) by lia.
  rewrite (proj2 (Z.ltb_ge (Z.of_nat b) 0)) by lia.
  destruct (decide (a <= List.length l)%nat) as [Ha|Ha].
  - rewrite (Z.min_l (Z.of_nat a)) by lia. rewrite Nat2Z.id.
    destruct (decide (b <= List.length l)%nat) as [Hb|Hb].
    + rewrite Z.min_l by lia. f_equal. lia.
    + rewrite Z.min_r by lia.
      rewrite !take_ge; [done | rewrite length_drop; lia
                         | rewrite length_drop; lia].
  - rewrite (Z.min_r (Z.of_nat a)) by lia. rewrite Nat2Z.id.
    rewrite !drop_ge by lia. by rewrite !take_nil.
Qed.

Lemma py_slice_nat_end (A : Type) (l : list A) (a : nat) :
  py_slice l (Some (Z.of_nat a)) None = drop a l.
Proof.
  unfold py_slice, slice_bound.
  rewrite (proj2 (Z.ltb_ge (Z.of_nat a) 0)) by lia.
  destruct (decide (a <= List.length l)%nat) as [Ha|Ha].
  - rewrite Z.min_l by lia. rewrite Nat2Z.id.
    apply take_ge. rewrite length_drop. lia.
  - rewrite Z.min_r by lia. rewrite Nat2Z.id.
    rewrite !drop_ge by lia. by rewrite take_nil.
Qed.

(** The slice of [__getitem__] for bounds that are not negative: the tokens
    from the position [i + start] on, up to the position [i + stop]. *)
Lemma getitem_range (A : Type) (l : list A) (i : nat) (start stop : option nat) :
  py_slice l (slice_start i (Z.of_nat <$> start))
             (slice_stop i (Z.of_nat <$> stop))
  = match stop with
    | None => drop (i + default 0%nat start) l
    | Some e => take (e - default 0%nat start) (drop (i + default 0%nat start) l)
    end.
Proof.
  assert (slice_start i (Z.of_nat <$> start)
          = Some (Z.of_nat (i + default 0%nat start))) as ->.
  { unfold slice_start. f_equal. destruct start as [n|]; simpl; lia. }
  destruct stop as [[|e]|]; simpl.
  - change (Some 0) with (Some (Z.of_nat 0)). rewrite py_slice_nat.
    by rewrite !take_0.
  - rewrite <- Nat2Z.inj_add, py_slice_nat. f_equal. lia.
  - apply py_slice_nat_end.
Qed.

Lemma getitem_at_ok (h : Heap) (p : nat) (item_start item_stop : option Z)
  (i : nat) (cls : GroupClass) (names : Names) (toks : list Token)
  (sql : Token) (rest : list Token) :
  objects h p = mkSQLStatement (Group cls names toks) (Some i) ->
  sqlparse (join_values (py_slice toks (slice_start i item_start)
                                       (slice_stop i item_stop)))
  = sql :: rest ->
  getitem_at p item_start item_stop h
  = Ok (next_ref h,
        mkHeap (<[next_ref h := new_SQLStatement sql]> (objects h))
               (S (next_ref h))).
Proof.
  intros Hp Hparse.
  unfold getitem_at, SQLStatement_getitem, getitem_sql. rewrite Hp. simpl.
  rewrite Hparse. reflexivity.
Qed.

Lemma next_at_frame (h h2 : Heap) (r r' : nat) (tok : option Token) :
  r <> r' -> next_at r h = Ok (tok, h2) -> objects h2 r' = objects h r'.
Proof.
  intros Hne. unfold next_at.
  destruct (SQLStatement_next (objects h r)) as [[t c]|e]; simpl; [|done].
  intros [= _ <-]. simpl. by apply fn_lookup_insert_ne.
Qed.

Lemma skip_at_frame (h h2 : Heap) (r r' : nat) (num : nat) :
  r <> r' -> skip_at r num h = Ok h2 -> objects h2 r' = objects h r'.
Proof.
  intros Hne. unfold skip_at.
  destruct (SQLStatement_skip num (objects h r)) as [c|e]; simpl; [|done].
  intros [= <-]. simpl. by apply fn_lookup_insert_ne.
Qed.

(** C8. [statement[start:stop]], with bounds that are not negative, on
    the cursor [p] standing at token [i]: the text of the tokens from the
    position [i + start] on, [stop - start] of them or all that are left when
    there is no [stop], is parsed again and its first statement is wrapped in
    a new cursor that stands at its first token. The cursor [p] is as it was,
    and [next] or [skip] on one of the two cursors leaves the other as it
    was, position and tokens. *)
Theorem getitem_new_cursor (h : Heap) (p : nat) (start stop : option nat)
  (i : nat) (cls : GroupClass) (names : Names) (toks : list Token)
  (sql : Token) (rest : list Token) :
  (p < next_ref h)%nat ->
  objects h p = mkSQLStatement (Group cls names toks) (Some i) ->
  sqlparse (join_values
              (match stop with
               | None => drop (i + default 0%nat start) toks
               | Some e => take (e - default 0%nat start)
                                (drop (i + default 0%nat start) toks)
               end))
  = sql :: rest ->
  exists child h',
    getitem_at p (Z.of_nat <$> start) (Z.of_nat <$> stop) h = Ok (child, h')
    /\ child <> p
    /\ objects h' child = mkSQLStatement sql (Some 0%nat)
    /\ objects h' p = objects h p
    /\ (forall tok h2, next_at child h' = Ok (tok, h2) ->
          objects h2 p = objects h p)
    /\ (forall num h2, skip_at child num h' = Ok h2 ->
          objects h2 p = objects h p)
    /\ (forall tok h2, next_at p h' = Ok (tok, h2) ->
          objects h2 child = objects h' child)
    /\ (forall num h2, skip_at p num h' = Ok h2 ->
          objects h2 child = objects h' child).
Proof.
  intros Hlive Hp Hparse. rewrite <- getitem_range in Hparse.
  exists (next_ref h). eexists.
  split; [by eapply getitem_at_ok|].
  assert (next_ref h <> p) as Hne by lia.
  split; [done|]. simpl.
  split; [apply fn_lookup_insert|].
  assert (<[next_ref h:=new_SQLStatement sql]> (objects h) p = objects h p)
    as Hframe by (by apply fn_lookup_insert_ne).
  split; [done|].
  split; [intros tok h2 H; rewrite <- Hframe;
          by apply (next_at_frame _ _ _ _ _ Hne H)|].
  split; [intros num h2 H; rewrite <- Hframe;
          by apply (skip_at_frame _ _ _ _ _ Hne H)|].
  split; [intros tok h2 H;
          by apply (next_at_frame _ _ _ _ _ (not_eq_sym Hne) H)|].
  intros num h2 H. by apply (skip_at_frame _ _ _ _ _ (not_eq_sym Hne) H).
Qed.

(** ** UPDATE SET *)

Lemma rhs_indexes_placeholder (sql : SQLToken) (right : Token)
  (ds : list ascii) :
  token_right (_token sql) = Ok right ->
  is_placeholder right = true ->
  is_placeholder_text (token_value right) ds ->
  rhs_indexes sql = Ok (Some (int_of_digits ds)).
Proof.
  intros Hr Hp Ht. unfold rhs_indexes. rewrite Hr. simpl. rewrite Hp. simpl.
  by rewrite (placeholder_index_matches right ds Ht).
Qed.

Lemma rhs_indexes_null (sql : SQLToken) (right : Token) :
  token_right (_token sql) = Ok right ->
  token_match right T_Keyword "NULL" = true ->
  rhs_indexes sql = Ok None.
Proof.
  intros Hr Hm. unfold rhs_indexes. rewrite Hr. simpl.
  destruct right as [t v|]; [|done].
  destruct t; try done. simpl in *. by rewrite Hm.
Qed.

Lemma set_step_ok (params : list Value) (doc : Dict) (sql : SQLToken)
  (k : string) (v : Value) :
  lhs_column sql = Ok k -> set_value params sql = Ok v ->
  set_step params doc sql = Ok (dict_set k v doc).
Proof. intros Hk Hv. unfold set_step. by rewrite Hk, Hv. Qed.

Lemma set_step_inv (params : list Value) (doc doc' : Dict) (sql : SQLToken) :
  set_step params doc sql = Ok doc' ->
  exists k v, lhs_column sql = Ok k /\ set_value params sql = Ok v
              /\ doc' = dict_set k v doc.
Proof.
  unfold set_step. destruct (lhs_column sql) as [k|]; [|done].
  destruct (set_value params sql) as [v|]; [|done].
  intros [= <-]. eauto.
Qed.

Lemma set_fold_ok (params : list Value) (sqls : list SQLToken) (acc : Dict) :
  (forall sql, In sql sqls ->
     is_ok (lhs_column sql) = true /\ is_ok (set_value params sql) = true) ->
  exists doc, foldM (set_step params) sqls acc = Ok doc.
Proof.
  revert acc. induction sqls as [|sql sqls IH]; intros acc H.
  - by exists acc.
  - destruct (H sql) as [Hk Hv]; [by left|].
    destruct (lhs_column sql) as [k|] eqn:Ek; [|done].
    destruct (set_value params sql) as [v|] eqn:Ev; [|done].
    rewrite foldM_cons, (set_step_ok _ _ _ _ _ Ek Ev).
    apply IH. intros s' Hin. apply H. by right.
Qed.

Lemma set_fold_keeps (params : list Value) (sqls : list SQLToken)
  (acc doc : Dict) (c : string) :
  foldM (set_step params) sqls acc = Ok doc ->
  (forall s', In s' sqls -> lhs_column s' <> Ok c) ->
  dict_get c doc = dict_get c acc.
Proof.
  revert acc. induction sqls as [|sql sqls IH]; intros acc Hf Hne.
  - by injection Hf as <-.
  - rewrite foldM_cons in Hf.
    destruct (set_step params acc sql) as [d1|] eqn:E1; [|done].
    apply set_step_inv in E1 as (k & v & Ek & Ev & ->).
    rewrite (IH _ Hf); [|intros s' Hin; apply Hne; by right].
    apply dict_get_set_ne. intros ->. by apply (Hne sql); [left|].
Qed.

Lemma set_fold_last (params : list Value) (pre post : list SQLToken)
  (sql : SQLToken) (acc doc : Dict) (c : string) (v : Value) :
  foldM (set_step params) (pre ++ sql :: post) acc = Ok doc ->
  lhs_column sql = Ok c ->
  set_value params sql = Ok v ->
  (forall s', In s' post -> lhs_column s' <> Ok c) ->
  dict_get c doc = Some v.
Proof.
  intros Hf Hc Hv Hne. rewrite foldM_app in Hf.
  destruct (foldM (set_step params) pre acc) as [d1|]; [|done].
  change (foldM (set_step params) (sql :: post) d1 = Ok doc) in Hf.
  rewrite foldM_cons, (set_step_ok _ _ _ _ _ Hc Hv) in Hf.
  rewrite (set_fold_keeps _ _ _ _ _ Hf Hne). apply dict_get_set_eq.
Qed.

(** C4. [SetConverter.to_mongo] returns [{update: {$set: doc}}]. The index
    of an assignment is the number in the placeholder on its right, and is
    [None] for [NULL], for which no parameter is read. In [doc] a column has
    the value of its assignment (of the last one, when a column is assigned
    more than once): the parameter at that index, or null. *)
Theorem SetConverter_to_mongo_assigns (q : Query) (sqls : list SQLToken) :
  (forall sql, In sql sqls ->
     is_ok (lhs_column sql) = true
     /\ is_ok (set_value (query_params q) sql) = true) ->
  (forall sql right ds,
     token_right (_token sql) = Ok right -> is_placeholder right = true ->
     is_placeholder_text (token_value right) ds ->
     rhs_indexes sql = Ok (Some (int_of_digits ds)))
  /\ (forall sql right params,
        token_right (_token sql) = Ok right ->
        token_match right T_Keyword "NULL" = true ->
        rhs_indexes sql = Ok None /\ set_value params sql = Ok VNone)
  /\ exists doc,
       SetConverter_to_mongo q sqls
       = Ok (VDict [("update", VDict [("$set", VDict doc)])])
       /\ forall (pre : list SQLToken) (sql : SQLToken)
                 (post : list SQLToken) (c : string),
            sqls = (pre ++ sql :: post)%list ->
            lhs_column sql = Ok c ->
            (forall s', In s' post -> lhs_column s' <> Ok c) ->
            (forall i, rhs_indexes sql = Ok (Some i) ->
               exists v, query_params q !! i = Some v
                         /\ dict_get c doc = Some v)
            /\ (rhs_indexes sql = Ok None -> dict_get c doc = Some VNone).
Proof.
  intros Hok.
  split; [intros sql right ds; apply rhs_indexes_placeholder|].
  split.
  { intros sql right params Hr Hm.
    pose proof (rhs_indexes_null _ _ Hr Hm) as Hn.
    split; [done|]. unfold set_value. by rewrite Hn. }
  destruct (set_fold_ok (query_params q) sqls [] Hok) as [doc Hdoc].
  exists doc. split.
  { unfold SetConverter_to_mongo, set_document. by rewrite Hdoc. }
  intros pre sql post c -> Hc Hne.
  destruct (Hok sql) as [_ Hv]; [apply in_elt|].
  split.
  - intros i Hi. unfold set_value in Hv. rewrite Hi in Hv. simpl in Hv.
    unfold list_index in Hv.
    destruct (query_params q !! i) as [v|] eqn:Ev; [|done].
    exists v. split; [done|].
    apply (set_fold_last _ _ _ _ _ _ _ _ Hdoc Hc); [|done].
    unfold set_value. rewrite Hi. simpl. unfold list_index. by rewrite Ev.
  - intros Hn. apply (set_fold_last _ _ _ _ _ _ _ _ Hdoc Hc); [|done].
    unfold set_value. by rewrite Hn.
Qed.

(** ** Joins *)

(** C2. An inner join is three stages, in this order: a [$match] that asks
    the local join field to be neither null nor absent, the [$lookup] from
    the joined table on that same local field and the joined table's column,
    stored under the joined table's name, and the [$unwind] of that name. The
    local field is the bare column when its table is the primary table of the
    query, and [table.column] otherwise. *)
Theorem InnerJoinConverter_to_mongo_stages (q : Query) (self : JoinConverter) :
  let field :=
    if is_left_table q (join_left_table self) then join_left_column self
    else join_left_table self ++ "." ++ join_left_column self in
  InnerJoinConverter_to_mongo q self
  = [ VDict [("$match",
              VDict [(field, VDict [("$ne", VNone); ("$exists", VBool true)])])];
      VDict [("$lookup",
              VDict [("from", VStr (join_right_table self));
                     ("localField", VStr field);
                     ("foreignField", VStr (join_right_column self));
                     ("as", VStr (join_right_table self))])];
      VDict [("$unwind", VStr ("$" ++ join_right_table self))] ]
  /\ List.length (InnerJoinConverter_to_mongo q self) = 3%nat.
Proof. split; reflexivity. Qed.

(** The guard of an inner join keeps the rows whose join field is present
    and not null, and drops the others. *)
Lemma inner_join_guard (q : Query) (self : JoinConverter)
  (found : option Value) :
  exists guard rest,
    InnerJoinConverter_to_mongo q self = guard :: rest
    /\ match_stage_keeps guard (join_local_field q self) found
       = Some (negb (is_null found)).
Proof.
  eexists _, _. split; [reflexivity|].
  unfold match_stage_keeps. rewrite String.eqb_refl.
  by destruct found as [[]|].
Qed.

Lemma null_fields_step_inv (ta : TokenAlias) (rt : string) (acc acc' : Dict)
  (sel : Selected) :
  null_fields_step ta rt acc sel = Ok acc' ->
  exists t, selected_table ta sel = Ok t
    /\ ((t = rt /\ exists c, selected_column sel = Ok c
                             /\ acc' = dict_set c VNone acc)
        \/ (t <> rt /\ acc' = acc)).
Proof.
  unfold null_fields_step.
  destruct (selected_table ta sel) as [t|]; [|done]. cbn.
  destruct (String.eqb t rt) eqn:E.
  - apply String.eqb_eq in E.
    destruct (selected_column sel) as [c|]; [|done].
    intros [= <-]. exists t. split; [done|]. left. eauto.
  - apply String.eqb_neq in E. intros [= <-]. exists t. split; [done|].
    by right.
Qed.

Lemma null_fold_ok (ta : TokenAlias) (rt : string) (sels : list Selected)
  (acc : Dict) :
  (forall sel, In sel sels ->
     exists t, selected_table ta sel = Ok t
               /\ (t = rt -> is_ok (selected_column sel) = true)) ->
  exists nf, foldM (null_fields_step ta rt) sels acc = Ok nf.
Proof.
  revert acc. induction sels as [|sel sels IH]; intros acc H.
  - by exists acc.
  - destruct (H sel) as (t & Ht & Hc); [by left|].
    rewrite foldM_cons.
    assert (exists acc', null_fields_step ta rt acc sel = Ok acc') as [acc' E].
    { unfold null_fields_step. rewrite Ht. cbn.
      destruct (String.eqb t rt) eqn:E; [|by eexists].
      apply String.eqb_eq in E. specialize (Hc E).
      destruct (selected_column sel); [by eexists | done]. }
    rewrite E. apply IH. intros s' Hin. apply H. by right.
Qed.

Lemma null_fold_spec (ta : TokenAlias) (rt : string) (sels : list Selected)
  (acc nf : Dict) :
  foldM (null_fields_step ta rt) sels acc = Ok nf ->
  (forall c, dict_get c nf = Some VNone <->
     dict_get c acc = Some VNone
     \/ exists sel, In sel sels /\ selected_table ta sel = Ok rt
                    /\ selected_column sel = Ok c)
  /\ ((forall c v, dict_get c acc = Some v -> v = VNone) ->
      forall c v, dict_get c nf = Some v -> v = VNone).
Proof.
  revert acc. induction sels as [|sel sels IH]; intros acc Hf.
  - injection Hf as <-. split; [|done]. intros c. split; [by left|].
    intros [H|(sel & [] & _)]. done.
  - rewrite foldM_cons in Hf.
    destruct (null_fields_step ta rt acc sel) as [acc'|] eqn:E; [|done].
    destruct (IH _ Hf) as [IH1 IH2]. clear IH.
    apply null_fields_step_inv in E
      as (t & Ht & [(-> & c0 & Hc0 & ->)|(Hne & ->)]).
    + split.
      * intros c. rewrite IH1, dict_get_set. split.
        -- intros [H|(s' & Hin & Hs')].
           ++ destruct (String.eqb c0 c) eqn:Ec; [|by left].
              apply String.eqb_eq in Ec. subst c0. right. exists sel.
              split; [by left | done].
           ++ right. exists s'. split; [by right | done].
        -- intros [H|(s' & [<-|Hin] & Hs1 & Hs2)].
           ++ left. destruct (String.eqb c0 c); [done | exact H].
           ++ left. rewrite Hc0 in Hs2. injection Hs2 as ->.
              by rewrite String.eqb_refl.
           ++ right. eauto.
      * intros Hacc. apply IH2. intros c v. rewrite dict_get_set.
        destruct (String.eqb c0 c); [by intros [= <-] | apply Hacc].
    + split; [|exact IH2].
      intros c. rewrite IH1. split.
      * intros [H|(s' & Hin & Hs')]; [by left|].
        right. exists s'. split; [by right | done].
      * intros [H|(s' & [<-|Hin] & Hs1 & Hs2)]; [by left | congruence |].
        right. eauto.
Qed.

(** C3. When every entry of the SELECT list has a table, and a column if the
    table is the joined one, an outer join is three stages, in this order:
    the [$lookup] from the joined table, on the column of the other table
    ([table.column] when that table is not the primary one) and the column
    of the joined table, into the field named as the joined table; the
    [$unwind] of that field that keeps rows with nothing to unwind; and an
    [$addFields] that puts, by [$ifNull], a placeholder in the place of a
    missing joined document. The placeholder
    maps to null the columns of the entries of the SELECT list whose table is
    the joined table, and holds nothing else. *)
Theorem OuterJoinConverter_to_mongo_stages (q : Query) (self : JoinConverter) :
  (forall sel, In sel (query_selected_columns q) ->
     exists t, selected_table (query_token_alias q) sel = Ok t
               /\ (t = join_right_table self ->
                   is_ok (selected_column sel) = true)) ->
  exists null_fields,
    OuterJoinConverter_to_mongo q self
    = Ok [ VDict [("$lookup",
                   VDict [("from", VStr (join_right_table self));
                          ("localField",
                           VStr (if is_left_table q (join_left_table self)
                                 then join_left_column self
                                 else join_left_table self ++ "."
                                      ++ join_left_column self));
                          ("foreignField", VStr (join_right_column self));
                          ("as", VStr (join_right_table self))])];
           VDict [("$unwind",
                   VDict [("path", VStr ("$" ++ join_right_table self));
                          ("preserveNullAndEmptyArrays", VBool true)])];
           VDict [("$addFields",
                   VDict [(join_right_table self,
                           VDict [("$ifNull",
                                   VList [VStr ("$" ++ join_right_table self);
                                          VDict null_fields])])])] ]
    /\ (forall c, dict_get c null_fields = Some VNone <->
          exists sel, In sel (query_selected_columns q)
            /\ selected_table (query_token_alias q) sel
               = Ok (join_right_table self)
            /\ selected_column sel = Ok c)
    /\ (forall c v, dict_get c null_fields = Some v -> v = VNone).
Proof.
  intros Hok.
  destruct (null_fold_ok _ _ _ [] Hok) as [nf Hnf].
  exists nf. split.
  { unfold OuterJoinConverter_to_mongo, OuterJoinConverter__null_fields.
    by rewrite Hnf. }
  destruct (null_fold_spec _ _ _ _ _ Hnf) as [H1 H2]. split.
  - intros c. rewrite H1. split; [by intros [H|H] | by right].
  - by apply H2.
Qed.

(** ** GROUP BY *)

Lemma to_id_step_resolved (q : Query) (_id : Dict) (iden : SQLToken)
  (t c : string) :
  resolves q iden t c ->
  to_id_step q _id iden
  = if is_left_table q t then Ok (dict_set c (VStr ("$" ++ c)) _id)
    else match dict_get t _id with
         | Some (VDict sub) =>
             Ok (dict_set t
                   (VDict (dict_set c (VStr ("$" ++ t ++ "." ++ c)) sub)) _id)
         | Some _ => Err TypeError
         | None => Ok (dict_set t (VDict [(c, VStr ("$" ++ t ++ "." ++ c))]) _id)
         end.
Proof.
  intros [Ht Hc]. unfold to_id_step. rewrite Ht. cbn.
  destruct (is_left_table q t); rewrite Hc; reflexivity.
Qed.

Lemma to_id_step_ok (q : Query) (all : list SQLToken) (_id : Dict)
  (iden : SQLToken) (t c : string) :
  no_clash q all -> In iden all -> resolves q iden t c ->
  id_values q all _id ->
  exists _id', to_id_step q _id iden = Ok _id' /\ id_values q all _id'.
Proof.
  intros Hclash Hin Hres Hinv. rewrite (to_id_step_resolved _ _ _ _ _ Hres).
  destruct (is_left_table q t) eqn:El.
  - eexists. split; [done|]. intros k v. rewrite dict_get_set.
    destruct (String.eqb c k) eqn:E; [|apply Hinv].
    apply String.eqb_eq in E. subst k. intros [= <-]. right.
    by exists iden, t.
  - destruct (dict_get t _id) as [v|] eqn:Eg.
    + destruct (Hinv _ _ Eg) as [[sub ->]|(i1 & t1 & Hi1 & Hr1 & Hl1 & _)].
      * eexists. split; [done|]. intros k v. rewrite dict_get_set.
        destruct (String.eqb t k); [|apply Hinv]. intros [= <-]. left. eauto.
      * by destruct (Hclash i1 iden t1 t t c Hi1 Hin Hr1 Hres Hl1 El).
    + eexists. split; [done|]. intros k v. rewrite dict_get_set.
      destruct (String.eqb t k); [|apply Hinv]. intros [= <-]. left. eauto.
Qed.

Lemma to_id_fold_ok (q : Query) (all sqls : list SQLToken) (acc : Dict) :
  no_clash q all ->
  (forall iden, In iden sqls ->
     In iden all /\ exists t c, resolves q iden t c) ->
  id_values q all acc ->
  exists _id, foldM (to_id_step q) sqls acc = Ok _id /\ id_values q all _id.
Proof.
  intros Hclash. revert acc.
  induction sqls as [|iden sqls IH]; intros acc Hres Hinv.
  - by exists acc.
  - destruct (Hres iden) as (Hin & t & c & Hr); [by left|].
    destruct (to_id_step_ok _ _ _ _ _ _ Hclash Hin Hr Hinv) as (acc' & E & Hinv').
    rewrite foldM_cons, E. apply IH; [|done].
    intros i Hi. apply Hres. by right.
Qed.

Lemma to_id_keeps_primary (q : Query) (sqls : list SQLToken) (acc _id : Dict)
  (c : string) :
  foldM (to_id_step q) sqls acc = Ok _id ->
  (forall iden, In iden sqls -> exists t' c', resolves q iden t' c') ->
  (forall iden t' c', In iden sqls -> resolves q iden t' c' ->
     is_left_table q t' = false -> t' <> c) ->
  dict_get c acc = Some (VStr ("$" ++ c)) ->
  dict_get c _id = Some (VStr ("$" ++ c)).
Proof.
  revert acc. induction sqls as [|iden sqls IH]; intros acc Hf Hres Hne Hacc.
  - by injection Hf as <-.
  - rewrite foldM_cons in Hf.
    destruct (Hres iden) as (t' & c' & Hr); [by left|].
    rewrite (to_id_step_resolved _ _ _ _ _ Hr) in Hf.
    assert (forall acc', foldM (to_id_step q) sqls acc' = Ok _id ->
              dict_get c acc' = Some (VStr ("$" ++ c)) ->
              dict_get c _id = Some (VStr ("$" ++ c))) as Hnext.
    { intros acc' Hf' Hacc'. apply (IH acc'); [done | | | done].
      - intros i Hi. apply Hres. by right.
      - intros i ti ci Hi. apply Hne. by right. }
    destruct (is_left_table q t') eqn:El.
    + apply (Hnext _ Hf). rewrite dict_get_set.
      destruct (String.eqb c' c) eqn:E; [|done].
      apply String.eqb_eq in E. by subst c'.
    + assert (t' <> c) as Htc by (apply (Hne iden t' c'); [by left|done..]).
      destruct (dict_get t' acc) as [[| | | | |sub]|]; try done;
        apply (Hnext _ Hf); by rewrite dict_get_set_ne.
Qed.

Lemma to_id_keeps_nested (q : Query) (sqls : list SQLToken) (acc _id : Dict)
  (t c : string) :
  foldM (to_id_step q) sqls acc = Ok _id ->
  (forall iden, In iden sqls -> exists t' c', resolves q iden t' c') ->
  (forall iden t' c', In iden sqls -> resolves q iden t' c' ->
     is_left_table q t' = true -> c' <> t) ->
  (exists sub, dict_get t acc = Some (VDict sub)
               /\ dict_get c sub = Some (VStr ("$" ++ t ++ "." ++ c))) ->
  exists sub, dict_get t _id = Some (VDict sub)
              /\ dict_get c sub = Some (VStr ("$" ++ t ++ "." ++ c)).
Proof.
  revert acc. induction sqls as [|iden sqls IH]; intros acc Hf Hres Hne Hacc.
  - by injection Hf as <-.
  - rewrite foldM_cons in Hf.
    destruct (Hres iden) as (t' & c' & Hr); [by left|].
    rewrite (to_id_step_resolved _ _ _ _ _ Hr) in Hf.
    assert (forall acc', foldM (to_id_step q) sqls acc' = Ok _id ->
              (exists sub, dict_get t acc' = Some (VDict sub)
                 /\ dict_get c sub = Some (VStr ("$" ++ t ++ "." ++ c))) ->
              exists sub, dict_get t _id = Some (VDict sub)
                 /\ dict_get c sub = Some (VStr ("$" ++ t ++ "." ++ c)))
      as Hnext.
    { intros acc' Hf' Hacc'. apply (IH acc'); [done | | | done].
      - intros i Hi. apply Hres. by right.
      - intros i ti ci Hi. apply Hne. by right. }
    destruct Hacc as (sub & Hsub & Hc).
    destruct (is_left_table q t') eqn:El.
    + assert (c' <> t) as Hct by (apply (Hne iden t' c'); [by left|done..]).
      apply (Hnext _ Hf). exists sub. by rewrite dict_get_set_ne.
    + destruct (String.eqb t' t) eqn:Et.
      * apply String.eqb_eq in Et. subst t'. rewrite Hsub in Hf.
        apply (Hnext _ Hf). eexists. rewrite dict_get_set_eq. split; [done|].
        rewrite dict_get_set. destruct (String.eqb c' c) eqn:Ec; [|done].
        apply String.eqb_eq in Ec. by subst c'.
      * apply String.eqb_neq in Et.
        destruct (dict_get t' acc) as [[| | | | |sub']|]; try done;
          apply (Hnext _ Hf); exists sub; by rewrite dict_get_set_ne.
Qed.

(** What [to_id] returns for grouped columns that resolve. *)
Lemma to_id_lookup (q : Query) (sqls : list SQLToken) :
  (forall iden, In iden sqls -> exists t c, resolves q iden t c) ->
  no_clash q sqls ->
  exists _id,
    to_id q sqls = Ok _id
    /\ (forall iden t c, In iden sqls -> resolves q iden t c ->
          is_left_table q t = true ->
          dict_get c _id = Some (VStr ("$" ++ c)))
    /\ (forall iden t c, In iden sqls -> resolves q iden t c ->
          is_left_table q t = false ->
          exists sub, dict_get t _id = Some (VDict sub)
                      /\ dict_get c sub = Some (VStr ("$" ++ t ++ "." ++ c))).
Proof.
  intros Hres Hclash.
  destruct (to_id_fold_ok q sqls sqls [] Hclash) as (_id & Hid & _);
    [by intros i Hi; split; [|apply Hres] | by intros k v |].
  exists _id. split; [done|]. unfold to_id in Hid.
  assert (forall iden, In iden sqls ->
            exists pre post acc1 acc2,
              sqls = (pre ++ iden :: post)%list
              /\ foldM (to_id_step q) pre [] = Ok acc1
              /\ to_id_step q acc1 iden = Ok acc2
              /\ foldM (to_id_step q) post acc2 = Ok _id) as Hsplit.
  { intros iden Hin. apply in_split in Hin as (pre & post & Heq).
    exists pre, post. pose proof Hid as Hf. rewrite Heq, foldM_app in Hf.
    destruct (foldM (to_id_step q) pre []) as [acc1|] eqn:E1; [|done].
    change (foldM (to_id_step q) (iden :: post) acc1 = Ok _id) in Hf.
    rewrite foldM_cons in Hf.
    destruct (to_id_step q acc1 iden) as [acc2|] eqn:E2; [|done].
    by exists acc1, acc2. }
  split.
  - intros iden t c Hin Hr Hl.
    destruct (Hsplit _ Hin) as (pre & post & acc1 & acc2 & Heq & _ & H2 & H3).
    rewrite (to_id_step_resolved _ _ _ _ _ Hr), Hl in H2. injection H2 as <-.
    apply (to_id_keeps_primary _ _ _ _ _ H3).
    + intros i Hi. apply Hres. rewrite Heq. apply in_or_app. right. by right.
    + intros i t' c' Hi Hr' Hl' ->.
      apply (Hclash iden i t c c c'); try done.
      rewrite Heq. apply in_or_app. right. by right.
    + apply dict_get_set_eq.
  - intros iden t c Hin Hr Hl.
    destruct (Hsplit _ Hin) as (pre & post & acc1 & acc2 & Heq & _ & H2 & H3).
    rewrite (to_id_step_resolved _ _ _ _ _ Hr), Hl in H2.
    apply (to_id_keeps_nested _ _ _ _ _ _ H3).
    + intros i Hi. apply Hres. rewrite Heq. apply in_or_app. right. by right.
    + intros i t' c' Hi Hr' Hl'.
      apply (Hclash i iden t' c' t c); try done.
      rewrite Heq. apply in_or_app. right. by right.
    + destruct (dict_get t acc1) as [[| | | | |sub]|]; try done;
        injection H2 as <-; eexists; rewrite dict_get_set_eq;
        (split; [done|]).
      * apply dict_get_set_eq.
      * simpl. by rewrite String.eqb_refl.
Qed.

Lemma groupby_step_inv (q : Query) (g p g' p' : Dict) (sel : Selected) :
  groupby_step q (g, p) sel = Ok (g', p') ->
  exists k, project_key q sel = Ok k /\
    match sel with
    | SelToken s =>
        exists t c, resolves q s t c /\ g' = g
          /\ p' = dict_set k
                    (VStr (if is_left_table q t then "$_id." ++ c
                           else "_id." ++ t ++ "." ++ c)) p
    | SelFunc f =>
        exists acc, func_to_mongo f = Ok acc
          /\ g' = dict_set (func_alias f) acc g
          /\ p' = dict_set k (VBool true) p
    end.
Proof.
  unfold groupby_step, project_key, resolves. destruct sel as [s|f].
  - destruct (table (query_token_alias q) s) as [t|]; [|done]. cbn.
    destruct (is_left_table q t) eqn:El;
      (destruct (column s) as [c|]; [|done]); cbn; intros [= <- <-];
      eexists; (split; [done|]); exists t, c; by rewrite El.
  - cbn. destruct (func_to_mongo f) as [acc|]; [|done]. cbn.
    intros [= <- <-]. eexists. split; [done|]. by exists acc.
Qed.

Lemma groupby_fold_ok (q : Query) (sels : list Selected) (gp : Dict * Dict) :
  (forall sel, In sel sels ->
     is_ok (project_key q sel) = true
     /\ (forall f, sel = SelFunc f -> is_ok (func_to_mongo f) = true)) ->
  exists gp', foldM (groupby_step q) sels gp = Ok gp'.
Proof.
  revert gp. induction sels as [|sel sels IH]; intros gp H.
  - by exists gp.
  - rewrite foldM_cons.
    assert (exists gp1, groupby_step q gp sel = Ok gp1) as [gp1 E].
    { destruct (H sel) as [Hk Hf]; [by left|]. destruct gp as [g p].
      unfold groupby_step, project_key in *. destruct sel as [s|f].
      - destruct (table (query_token_alias q) s) as [t|]; [|done]. cbn in *.
        destruct (column s) as [c|]; [|done].
        destruct (is_left_table q t); by eexists.
      - specialize (Hf f eq_refl).
        destruct (func_to_mongo f); [by eexists | done]. }
    rewrite E. apply IH. intros s' Hin. apply H. by right.
Qed.

Lemma groupby_keeps_project (q : Query) (sels : list Selected)
  (g1 p1 g p : Dict) (k : string) :
  foldM (groupby_step q) sels (g1, p1) = Ok (g, p) ->
  (forall sel, In sel sels -> project_key q sel <> Ok k) ->
  dict_get k p = dict_get k p1.
Proof.
  revert g1 p1. induction sels as [|sel sels IH]; intros g1 p1 Hf Hne.
  - by injection Hf as <- <-.
  - rewrite foldM_cons in Hf.
    destruct (groupby_step q (g1, p1) sel) as [[g2 p2]|] eqn:E; [|done].
    rewrite (IH _ _ Hf); [|intros s' Hin; apply Hne; by right].
    apply groupby_step_inv in E as (k' & Hk' & E).
    assert (k' <> k) as Hkk by (intros ->; by apply (Hne sel); [left|]).
    destruct sel as [s|f].
    + destruct E as (t & c & _ & _ & ->). by apply dict_get_set_ne.
    + destruct E as (acc & _ & _ & ->). by apply dict_get_set_ne.
Qed.

Lemma groupby_keeps_group (q : Query) (sels : list Selected)
  (g1 p1 g p : Dict) (k : string) :
  foldM (groupby_step q) sels (g1, p1) = Ok (g, p) ->
  (forall f, In (SelFunc f) sels -> func_alias f <> k) ->
  dict_get k g = dict_get k g1.
Proof.
  revert g1 p1. induction sels as [|sel sels IH]; intros g1 p1 Hf Hne.
  - by injection Hf as <- <-.
  - rewrite foldM_cons in Hf.
    destruct (groupby_step q (g1, p1) sel) as [[g2 p2]|] eqn:E; [|done].
    rewrite (IH _ _ Hf); [|intros s' Hin; apply Hne; by right].
    apply groupby_step_inv in E as (k' & Hk' & E).
    destruct sel as [s|f].
    + by destruct E as (t & c & _ & -> & _).
    + destruct E as (acc & _ & -> & _). apply dict_get_set_ne.
      apply Hne. by left.
Qed.

(** C1, as amended. When the grouped and the selected columns resolve and
    the functions have their accumulators, [GroupbyConverter.to_mongo]
    returns two stages, [$group] then [$project]. The [_id] of [$group] maps
    a grouped column of the primary table to [$column] and holds a column of
    another table under the name of that table, as [$table.column]; [$group]
    holds the accumulator of each selected function under its alias. In
    [$project], [_id] is [False], a selected column of the primary table is
    [$_id.column] and the alias of a selected function is [True]. What is
    written later under a key replaces what was written under it before. The
    table of a column is its qualifying prefix or, without one, its own
    name. *)
Theorem GroupbyConverter_to_mongo_stages (q : Query) (sqls : list SQLToken) :
  (forall iden, In iden sqls -> exists t c, resolves q iden t c) ->
  no_clash q sqls ->
  (forall sel, In sel (query_selected_columns q) ->
     is_ok (project_key q sel) = true
     /\ (forall f, sel = SelFunc f -> is_ok (func_to_mongo f) = true)) ->
  exists _id group project,
    GroupbyConverter_to_mongo q sqls
    = Ok [ VDict [("$group", VDict group)];
           VDict [("$project", VDict project)] ]
    /\ ((forall f, In (SelFunc f) (query_selected_columns q) ->
           func_alias f <> "_id") ->
        dict_get "_id" group = Some (VDict _id))
    /\ (forall iden t c, In iden sqls -> resolves q iden t c ->
          is_left_table q t = true ->
          dict_get c _id = Some (VStr ("$" ++ c)))
    /\ (forall iden t c, In iden sqls -> resolves q iden t c ->
          is_left_table q t = false ->
          exists sub, dict_get t _id = Some (VDict sub)
                      /\ dict_get c sub = Some (VStr ("$" ++ t ++ "." ++ c)))
    /\ (forall (pre : list Selected) (f : SQLFunc) (post : list Selected)
               (acc : Value),
          query_selected_columns q = (pre ++ SelFunc f :: post)%list ->
          func_to_mongo f = Ok acc ->
          (forall f', In (SelFunc f') post -> func_alias f' <> func_alias f) ->
          dict_get (func_alias f) group = Some acc)
    /\ ((forall sel, In sel (query_selected_columns q) ->
           project_key q sel <> Ok "_id") ->
        dict_get "_id" project = Some (VBool false))
    /\ (forall (pre : list Selected) (sel : Selected) (post : list Selected)
               (k : string),
          query_selected_columns q = (pre ++ sel :: post)%list ->
          project_key q sel = Ok k ->
          (forall sel', In sel' post -> project_key q sel' <> Ok k) ->
          (forall s t c, sel = SelToken s -> resolves q s t c ->
             is_left_table q t = true ->
             k = c /\ dict_get c project = Some (VStr ("$_id." ++ c)))
          /\ (forall f, sel = SelFunc f ->
                k = func_alias f
                /\ dict_get (func_alias f) project = Some (VBool true))).
Proof.
  intros Hres Hclash Hsel.
  destruct (to_id_lookup q sqls Hres Hclash) as (_id & Hid & G1 & G2).
  destruct (groupby_fold_ok q (query_selected_columns q)
              ([("_id", VDict _id)], [("_id", VBool false)]) Hsel)
    as ([group project] & Hfold).
  exists _id, group, project.
  split. { unfold GroupbyConverter_to_mongo. rewrite Hid. cbn. by rewrite Hfold. }
  split.
  { intros Hno. by rewrite (groupby_keeps_group _ _ _ _ _ _ _ Hfold Hno). }
  split; [exact G1|]. split; [exact G2|].
  assert (forall pre sel post,
            query_selected_columns q = (pre ++ sel :: post)%list ->
            exists g1 p1 g2 p2,
              groupby_step q (g1, p1) sel = Ok (g2, p2)
              /\ foldM (groupby_step q) post (g2, p2) = Ok (group, project))
    as Hsplit.
  { intros pre sel post Heq. pose proof Hfold as Hf.
    rewrite Heq, foldM_app in Hf.
    destruct (foldM (groupby_step q) pre _) as [[g1 p1]|] eqn:E1; [|done].
    change (foldM (groupby_step q) (sel :: post) (g1, p1)
            = Ok (group, project)) in Hf.
    rewrite foldM_cons in Hf.
    destruct (groupby_step q (g1, p1) sel) as [[g2 p2]|] eqn:E2; [|done].
    by exists g1, p1, g2, p2. }
  split.
  { intros pre f post acc Heq Hacc Hne.
    destruct (Hsplit _ _ _ Heq) as (g1 & p1 & g2 & p2 & Hstep & Hrest).
    rewrite (groupby_keeps_group _ _ _ _ _ _ _ Hrest Hne).
    apply groupby_step_inv in Hstep as (k & _ & acc' & Hacc' & -> & _).
    rewrite Hacc in Hacc'. injection Hacc' as <-. apply dict_get_set_eq. }
  split.
  { intros Hno. by rewrite (groupby_keeps_project _ _ _ _ _ _ _ Hfold Hno). }
  intros pre sel post k Heq Hk Hne.
  destruct (Hsplit _ _ _ Heq) as (g1 & p1 & g2 & p2 & Hstep & Hrest).
  apply groupby_step_inv in Hstep as (k' & Hk' & Hstep).
  rewrite Hk in Hk'. injection Hk' as <-.
  pose proof (groupby_keeps_project _ _ _ _ _ _ _ Hrest Hne) as Hkeep.
  split.
  - intros s t c -> [Ht Hc] Hl.
    destruct Hstep as (t' & c' & [Ht' Hc'] & _ & ->).
    rewrite Ht in Ht'. injection Ht' as <-.
    rewrite Hc in Hc'. injection Hc' as <-.
    unfold project_key in Hk. rewrite Ht in Hk. cbn in Hk.
    rewrite Hc in Hk. cbn in Hk. rewrite Hl in Hk. injection Hk as <-.
    split; [done|]. rewrite Hkeep, Hl. apply dict_get_set_eq.
  - intros f ->. destruct Hstep as (acc & _ & _ & ->).
    cbn in Hk. injection Hk as <-. split; [done|].
    rewrite Hkeep. apply dict_get_set_eq.
Qed.

(** ** Value lists *)

(** The loop over a value list ends without an exception exactly when every
    element is a placeholder with the pattern or NULL. *)
Lemma iter_identifiers_raised (aids : list Token) :
  raised (iter_identifiers aids) = None <->
  Forall (fun aid =>
            (is_placeholder aid = true /\ is_ok (placeholder_index aid) = true)
            \/ (is_placeholder aid = false
                /\ token_match aid T_Keyword "NULL" = true)) aids.
Proof.
  induction aids as [|aid aids IH]; [by split; [constructor|]|].
  rewrite Forall_cons, <- IH. simpl.
  destruct (is_placeholder aid) eqn:Ep.
  - destruct (placeholder_index aid) as [i|e] eqn:Ei; simpl.
    + split; [intros H; split; [by left | done] | by intros [_ H]].
    + split; [done | by intros [[[_ H]|[H _]] _]].
  - destruct (token_match aid T_Keyword "NULL") eqn:Em; simpl.
    + split; [intros H; split; [by right | done] | by intros [_ H]].
    + split; [done | by intros [[[H _]|[_ H]] _]].
Qed.

(** An element that is neither a placeholder nor NULL, after elements that
    are, ends the loop with a decode error. *)
Lemma iter_identifiers_decode_error (pre post : list Token) (bad : Token) :
  raised (iter_identifiers pre) = None ->
  is_placeholder bad = false ->
  token_match bad T_Keyword "NULL" = false ->
  raised (iter_identifiers (pre ++ bad :: post)) = Some SQLDecodeError.
Proof.
  intros Hpre Hp Hm. induction pre as [|aid pre IH]; simpl in *.
  - by rewrite Hp, Hm.
  - destruct (is_placeholder aid).
    + destruct (placeholder_index aid); [|done]. simpl in *. by apply IH.
    + destruct (token_match aid T_Keyword "NULL"); [|done]. simpl in *.
      by apply IH.
Qed.

(** [SQLToken.__iter__] on a parenthesised list of identifiers with an element
    that is neither a placeholder nor NULL ends with an exception. *)
Lemma SQLToken_iter_rejects (s : SQLToken) (inner bad : Token)
  (aids : list Token) :
  isinstance (_token s) Parenthesis = true ->
  list_index (py_slice (token_children (_token s)) (Some 1) (Some (-1))) 0
  = Ok inner ->
  isinstance inner IdentifierList = true ->
  get_identifiers inner = Ok aids ->
  In bad aids ->
  is_placeholder bad = false ->
  token_match bad T_Keyword "NULL" = false ->
  raised (SQLToken_iter s) <> None.
Proof.
  intros Hp Hinner Hl Hids Hin Hb1 Hb2. unfold SQLToken_iter.
  rewrite Hp, Hinner. simpl.
  assert (is_placeholder inner = false) as -> by (by destruct inner).
  assert (token_match inner T_Keyword "NULL" = false) as ->
    by (by destruct inner).
  rewrite Hl, Hids.
  intros H. apply iter_identifiers_raised in H.
  rewrite List.Forall_forall in H.
  destruct (H bad Hin) as [[H1 _]|[_ H1]]; congruence.
Qed.

(** ** More on the statement cursor *)

Lemma token_matching_Some (toks : list Token) (i j : nat) (t : Token) :
  token_matching toks i = Some (j, t) ->
  exists k, j = (i + k)%nat /\ toks !! k = Some t /\ is_whitespace t = false
    /\ (forall k' t', (k' < k)%nat -> toks !! k' = Some t' ->
          is_whitespace t' = true)
    /\ filter (fun x => is_whitespace x = false) toks
       = t :: filter (fun x => is_whitespace x = false) (drop (S k) toks).
Proof.
  revert i. induction toks as [|x toks IH]; intros i H; simpl in H; [done|].
  destruct (is_whitespace x) eqn:E.
  - destruct (IH _ H) as (k & -> & Hk & Ht & Hws & Hf).
    exists (S k). split; [lia|]. split; [done|]. split; [done|]. split.
    + intros [|k'] t' Hlt Hl; simpl in Hl; [by injection Hl as <-|].
      apply (Hws k'); [lia | done].
    + rewrite filter_cons_False by (by rewrite E). exact Hf.
  - injection H as <- <-. exists 0%nat. split; [lia|]. split; [done|].
    split; [done|]. split; [intros k' t' Hlt; lia|].
    by rewrite filter_cons_True.
Qed.

Lemma token_matching_None (toks : list Token) (i : nat) :
  token_matching toks i = None ->
  (forall k t, toks !! k = Some t -> is_whitespace t = true)
  /\ filter (fun x => is_whitespace x = false) toks = [].
Proof.
  revert i. induction toks as [|x toks IH]; intros i H; simpl in H; [done|].
  destruct (is_whitespace x) eqn:E; [|done].
  destruct (IH _ H) as [Hws Hf]. split.
  - intros [|k] t Hl; simpl in Hl; [by injection Hl as <- | by apply (Hws k)].
  - by rewrite filter_cons_False by (by rewrite E).
Qed.

(** X1. [next] moves the cursor forward to the first later token that is not
    whitespace and returns it; when only whitespace is left it returns [None]
    and the cursor has no position any more. The tokens are not changed. *)
Theorem SQLStatement_next_skips_whitespace (c : SQLStatement)
  (cls : GroupClass) (names : Names) (toks : list Token) (i : nat) :
  _statement c = Group cls names toks ->
  _tok_id c = Some i ->
  exists r c',
    SQLStatement_next c = Ok (r, c')
    /\ _statement c' = _statement c
    /\ match r with
       | Some tok =>
           exists j, _tok_id c' = Some j /\ (i < j)%nat
             /\ toks !! j = Some tok /\ is_whitespace tok = false
             /\ (forall k t, (i < k < j)%nat -> toks !! k = Some t ->
                   is_whitespace t = true)
       | None =>
           _tok_id c' = None
           /\ (forall k t, (i < k)%nat -> toks !! k = Some t ->
                 is_whitespace t = true)
       end.
Proof.
  intros Hs Hi. unfold SQLStatement_next, token_next. rewrite Hs, Hi. simpl.
  eexists _, _. split; [done|]. split; [done|].
  destruct (token_matching (drop (S i) toks) (S i)) as [[j t]|] eqn:E; simpl.
  - apply token_matching_Some in E as (k & -> & Hk & Ht & Hws & _).
    rewrite lookup_drop in Hk.
    exists (S i + k)%nat. split; [done|]. split; [lia|]. split; [done|].
    split; [done|]. intros k' t' Hlt Hl.
    apply (Hws (k' - S i)%nat t'); [lia|]. rewrite lookup_drop.
    by replace (S i + (k' - S i))%nat with k' by lia.
  - apply token_matching_None in E as [Hws _]. split; [done|].
    intros k t Hlt Hl. apply (Hws (k - S i)%nat t). rewrite lookup_drop.
    by replace (S i + (k - S i))%nat with k by lia.
Qed.

Lemma SQLStatement_next_inv (c c' : SQLStatement) (r : option Token) :
  SQLStatement_next c = Ok (r, c') ->
  exists cls names toks,
    _statement c = Group cls names toks /\ _statement c' = _statement c
    /\ (r = None -> _tok_id c' = None).
Proof.
  unfold SQLStatement_next, token_next.
  destruct (_statement c) as [|cls names toks] eqn:Hs; [done|].
  intros H. exists cls, names, toks. split; [done|].
  destruct (_tok_id c) as [i|]; simpl in H.
  - destruct (token_matching (drop (S i) toks) (S i)) as [[j t]|];
      simpl in H; injection H as <- <-; by split.
  - injection H as <- <-. by split.
Qed.

(** X2. Once [next] has returned [None] the cursor is spent: [next] returns
    [None] again and again and leaves the cursor as it is, and [skip], a
    slice and [current_token] raise [TypeError]. *)
Theorem next_after_end (c c' : SQLStatement) :
  SQLStatement_next c = Ok (None, c') ->
  SQLStatement_next c' = Ok (None, c')
  /\ (forall num, SQLStatement_skip num c' = Err TypeError)
  /\ (forall item_start item_stop,
        SQLStatement_getitem c' item_start item_stop = Err TypeError)
  /\ current_token c' = Err TypeError.
Proof.
  intros H. apply SQLStatement_next_inv in H
    as (cls & names & toks & Hs & Hs' & Hid).
  specialize (Hid eq_refl). rewrite Hs in Hs'.
  destruct c' as [stmt id]. simpl in *. subst stmt id.
  repeat split.
Qed.

Lemma token_matching_down_skips (toks : list Token) (i d : nat) (t0 : Token) :
  toks !! i = Some t0 -> is_whitespace t0 = false ->
  (forall k t, (i < k < i + S d)%nat -> toks !! k = Some t ->
     is_whitespace t = true) ->
  (i + S d <= List.length toks)%nat ->
  token_matching_down toks (i + S d) = Ok (Some (i, t0)).
Proof.
  intros Hi Ht0. induction d as [|d IH]; intros Hws Hlen.
  - replace (i + 1)%nat with (S i) by lia. simpl. by rewrite Hi, Ht0.
  - replace (i + S (S d))%nat with (S (i + S d)) by lia. simpl.
    destruct (toks !! (i + S d)%nat) as [t|] eqn:E.
    + rewrite (Hws (i + S d)%nat t) by (done || lia).
      apply IH; [|lia]. intros k t' Hk. apply Hws. lia.
    + apply lookup_ge_None in E. lia.
Qed.

Lemma SQLStatement_next_Some (c c' : SQLStatement) (cls : GroupClass)
  (names : Names) (toks : list Token) (i : nat) (tok : Token) :
  _statement c = Group cls names toks ->
  _tok_id c = Some i ->
  SQLStatement_next c = Ok (Some tok, c') ->
  _statement c' = _statement c
  /\ exists j, _tok_id c' = Some j /\ (i < j)%nat /\ toks !! j = Some tok
       /\ (forall k t, (i < k < j)%nat -> toks !! k = Some t ->
             is_whitespace t = true).
Proof.
  intros Hs Hi. unfold SQLStatement_next, token_next. rewrite Hs, Hi. simpl.
  destruct (token_matching (drop (S i) toks) (S i)) as [[j t]|] eqn:E;
    simpl; [|done].
  intros [= -> <-]. split; [done|].
  apply token_matching_Some in E as (k & -> & Hk & _ & Hws & _).
  rewrite lookup_drop in Hk.
  exists (S i + k)%nat. split; [done|]. split; [lia|]. split; [done|].
  intros k' t' Hlt Hl.
  apply (Hws (k' - S i)%nat t'); [lia|]. rewrite lookup_drop.
  by replace (S i + (k' - S i))%nat with k' by lia.
Qed.

(** X3. Looking ahead and back. [next_token] is the token [next] returns,
    and it leaves the cursor where it is. When the cursor stood on a token
    that is not whitespace and [next] has moved it to a later token,
    [prev_token] is the token the cursor stood on. *)
Theorem prev_token_after_next (c c' : SQLStatement) (cls : GroupClass)
  (names : Names) (toks : list Token) (i : nat) (t0 tok : Token) :
  _statement c = Group cls names toks ->
  _tok_id c = Some i ->
  toks !! i = Some t0 ->
  is_whitespace t0 = false ->
  SQLStatement_next c = Ok (Some tok, c') ->
  next_token c = Ok (Some tok) /\ prev_token c' = Ok (Some t0).
Proof.
  intros Hs Hid Hi Ht0 Hnext. split.
  { unfold SQLStatement_next in Hnext. unfold next_token.
    destruct (token_next (_statement c) (_tok_id c)) as [r|]; [|done].
    simpl in Hnext. by injection Hnext as -> _. }
  destruct (SQLStatement_next_Some c c' cls names toks i tok Hs Hid Hnext)
    as (Hs2 & j & Hj & Hlt & Hjt & Hws).
  unfold prev_token, token_prev. rewrite Hs2, Hs, Hj.
  replace j with (i + S (j - S i))%nat by lia.
  rewrite (token_matching_down_skips toks i (j - S i) t0); [done..| |].
  - intros k t Hk. apply Hws. lia.
  - apply lookup_lt_Some in Hjt. lia.
Qed.

Lemma iter_loop_yields (cls : GroupClass) (names : Names) (toks : list Token)
  (fuel i : nat) (t : Token) :
  (i < List.length toks)%nat ->
  (List.length toks - i <= fuel)%nat ->
  iter_loop fuel (mkSQLStatement (Group cls names toks) (Some i)) t
  = Some (mkGenerated
            (t :: filter (fun x => is_whitespace x = false) (drop (S i) toks))
            None,
          mkSQLStatement (Group cls names toks) None).
Proof.
  revert i t. induction fuel as [|fuel IH]; intros i t Hi Hfuel; [lia|].
  simpl. unfold SQLStatement_next. simpl.
  destruct (token_matching (drop (S i) toks) (S i)) as [[j t']|] eqn:E; simpl.
  - apply token_matching_Some in E as (k & -> & Hk & _ & _ & Hf).
    rewrite lookup_drop in Hk. pose proof (lookup_lt_Some _ _ _ Hk) as Hlt.
    rewrite (IH (S i + k)%nat t' Hlt) by lia.
    unfold yield_first. simpl. rewrite Hf, drop_drop.
    by replace (S i + S k)%nat with (S (S i + k)) by lia.
  - apply token_matching_None in E as [_ Hf]. by rewrite Hf.
Qed.

(** X4. Iterating a cursor that stands on a token yields that token and then
    every later token that is not whitespace, in order, without an
    exception, and leaves the cursor without a position. As many turns as
    there are tokens from the cursor on are enough. *)
Theorem SQLStatement_iter_yields (c : SQLStatement) (cls : GroupClass)
  (names : Names) (toks : list Token) (fuel i : nat) (t : Token) :
  _statement c = Group cls names toks ->
  _tok_id c = Some i ->
  toks !! i = Some t ->
  (List.length toks - i <= fuel)%nat ->
  SQLStatement_iter fuel c
  = Some (mkGenerated
            (t :: filter (fun x => is_whitespace x = false) (drop (S i) toks))
            None,
          mkSQLStatement (Group cls names toks) None).
Proof.
  intros Hs Hid Hi Hfuel. destruct c as [stmt id]. simpl in *. subst stmt id.
  unfold SQLStatement_iter, current_token, token_getitem, list_index. simpl.
  rewrite Hi. apply iter_loop_yields; [|done].
  by apply lookup_lt_Some in Hi.
Qed.

(** ** More on the resolution of tables *)

(** X5. A resolution that ends within the recursion limit ends the same way
    under any larger limit: the limit only decides whether it ends. *)
Theorem table_rec_more_depth (d d' : nat) (ta : TokenAlias) (s : SQLToken) :
  table_rec d ta s <> Err RecursionError ->
  (d <= d')%nat ->
  table_rec d' ta s = table_rec d ta s.
Proof.
  revert d' s. induction d as [|d IH]; intros d' s Hne Hle; [done|].
  destruct d' as [|d']; [lia|]. simpl in *.
  destruct (negb (isinstance (_token s) Identifier)); [done|].
  destruct (table_name (_token s)) as [name|]; [|done].
  destruct (token_alias s); [|done].
  destruct (alias2token ta !! name) as [bound|]; [|done].
  apply IH; [done | lia].
Qed.

(** X6. An alias bound to an identifier whose own name is that alias, as
    [FROM x AS x] binds it, cannot be resolved: [table] on the bound token,
    and on every reference through the alias, ends in [RecursionError]
    whatever the recursion limit. *)
Theorem alias_cycle_recursion_error (ta : TokenAlias) (bound : SQLToken)
  (a : string) :
  isinstance (_token bound) Identifier = true ->
  table_name (_token bound) = Some a ->
  token_alias bound = true ->
  alias2token ta !! a = Some bound ->
  forall depth ref,
    isinstance (_token ref) Identifier = true ->
    table_name (_token ref) = Some a ->
    token_alias ref = true ->
    table_rec depth ta ref = Err RecursionError.
Proof.
  intros Hi Hn Ht Hl depth. induction depth as [|depth IH]; [done|].
  intros ref Hri Hrn Hrt. rewrite (table_rec_unfold _ _ _ a) by done.
  rewrite Hrt, Hl. by apply IH.
Qed.

(** X7. In a registry whose bound accessors all have the registry attached,
    the table an attached accessor resolves to is never itself an alias of
    the registry. *)
Theorem resolved_table_is_no_alias (depth : nat) (ta : TokenAlias)
  (s : SQLToken) (t : string) :
  registry_ok ta ->
  token_alias s = true ->
  table_rec depth ta s = Ok t ->
  alias2token ta !! t = None.
Proof.
  intros Hok. revert s. induction depth as [|depth IH]; intros s Hs H; [done|].
  simpl in H.
  destruct (negb (isinstance (_token s) Identifier)); [done|].
  destruct (table_name (_token s)) as [name|]; [|done].
  rewrite Hs in H.
  destruct (alias2token ta !! name) as [bound|] eqn:E.
  - apply (IH bound); [|done]. by destruct (Hok _ _ E).
  - by injection H as <-.
Qed.

(** *** The registry under the parsers *)

(** One step of a computation on the compile state: the first action of a
    sequence returned, with a value and a state. *)
Ltac bind_inv H :=
  unfold mbind at 1, M_bind at 1 in H; cbv beta in H;
  match type of H with
  | match ?x with _ => _ end = _ =>
      let E := fresh "E" in
      destruct x as [[? ?]|] eqn:E; [|discriminate H]
  end.

Lemma statement_next_inv (st st' : CompileState) (tok : option Token) :
  statement_next st = Ok (tok, st') ->
  exists c, SQLStatement_next (cs_statement st) = Ok (tok, c)
    /\ st' = mkCompileState (cs_query st) c (cs_next_id st).
Proof.
  unfold statement_next.
  destruct (SQLStatement_next (cs_statement st)) as [[t c]|]; [|done].
  intros [= <- <-]. by exists c.
Qed.

Lemma new_SQLToken_inv (tok : Token) (st st' : CompileState) (s : SQLToken) :
  new_SQLToken tok st = Ok (s, st') ->
  s = mkSQLToken (cs_next_id st) tok true
  /\ st' = mkCompileState (cs_query st) (cs_statement st) (S (cs_next_id st)).
Proof. by intros [= <- <-]. Qed.

Lemma lift_inv {A : Type} (r : result A) (st st' : CompileState) (a : A) :
  lift r st = Ok (a, st') -> r = Ok a /\ st' = st.
Proof. unfold lift. destruct r; by intros [= <- <-]. Qed.

Lemma attribute_of_inv (tok : option Token) (st st' : CompileState)
  (t : Token) :
  attribute_of tok st = Ok (t, st') -> tok = Some t /\ st' = st.
Proof. destruct tok; [by intros [= <- <-] | done]. Qed.

Lemma registry_ok_register (a : string) (sql : SQLToken) (ta : TokenAlias) :
  registry_ok ta -> token_alias sql = true -> alias sql = Ok (Some a) ->
  registry_ok (register a sql ta).
Proof.
  intros Hok Ht Ha b s. unfold register. simpl.
  rewrite lookup_insert. case_decide as E.
  - intros [= <-]. by subst b.
  - apply Hok.
Qed.

Lemma with_registry_same (st : CompileState) :
  with_registry st (query_token_alias (cs_query st)) = st.
Proof. by destruct st as [[] ? ?]. Qed.

(** [register_alias] returns when the token is an identifier, and what it
    does to the state is [registry_after]. *)
Lemma register_alias_run (sql : SQLToken) (st : CompileState) :
  is_ok (alias sql) = true ->
  register_alias sql st
  = Ok (tt, with_registry st
              (registry_after (query_token_alias (cs_query st)) sql)).
Proof.
  unfold register_alias, registry_after, mbind, M_bind, lift. intros H.
  destruct (alias sql) as [a|]; [|done].
  destruct (truthy a); [done|]. by rewrite with_registry_same.
Qed.

Lemma register_alias_inv (sql : SQLToken) (st st' : CompileState) (u : unit) :
  register_alias sql st = Ok (u, st') ->
  st' = with_registry st
          (registry_after (query_token_alias (cs_query st)) sql).
Proof.
  intros H. destruct (alias sql) as [a|] eqn:Ea.
  - rewrite register_alias_run in H by (by rewrite Ea). by injection H as _ <-.
  - unfold register_alias, mbind, M_bind, lift in H. by rewrite Ea in H.
Qed.

Lemma registry_after_ok (ta : TokenAlias) (sql : SQLToken) :
  registry_ok ta -> token_alias sql = true ->
  registry_ok (registry_after ta sql).
Proof.
  intros Hok Ht. unfold registry_after.
  destruct (alias sql) as [[a|]|] eqn:Ea; try done.
  destruct a as [|c a]; [done|]. by apply registry_ok_register.
Qed.

(** What one step of a parser leaves of the state. *)
Ltac step H :=
  bind_inv H;
  match goal with
  | E : statement_next _ = Ok _ |- _ =>
      apply statement_next_inv in E as (? & ? & ->)
  | E : new_SQLToken _ _ = Ok _ |- _ =>
      apply new_SQLToken_inv in E as [-> ->]
  | E : lift _ _ = Ok _ |- _ => apply lift_inv in E as [? ->]
  | E : attribute_of _ _ = Ok _ |- _ =>
      apply attribute_of_inv in E as [-> ->]
  | E : get_query _ = Ok _ |- _ => injection E as <- <-
  | E : set_query _ _ = Ok _ |- _ => injection E as <- <-
  | E : register_alias _ _ = Ok _ |- _ =>
      apply register_alias_inv in E as ->
  | E : mret _ _ = Ok _ |- _ => injection E as <- <-
  end.

Lemma FromConverter_parse_keeps (st st' : CompileState) (u : unit) :
  state_registry_ok st -> FromConverter_parse st = Ok (u, st') ->
  state_registry_ok st'.
Proof.
  intros Hok H. unfold FromConverter_parse in H.
  step H. destruct o as [tok|]; [|done].
  do 4 step H. apply register_alias_inv in H as ->.
  unfold state_registry_ok. simpl. by apply registry_after_ok.
Qed.

Lemma JoinConverter_parse_keeps (st st' : CompileState)
  (self : JoinConverter) :
  state_registry_ok st -> JoinConverter_parse st = Ok (self, st') ->
  state_registry_ok st'.
Proof.
  intros Hok H. unfold JoinConverter_parse in H.
  step H. destruct o as [tok|]; [|done].
  do 6 step H.
  destruct (negb (token_match t T_Keyword "ON")); [done|].
  step H. destruct o as [tok2|]; [|done].
  bind_inv H.
  assert (c = mkCompileState
                (cs_query (with_registry
                   (mkCompileState (cs_query st) x (S (cs_next_id st)))
                   (registry_after (query_token_alias (cs_query st))
                      (mkSQLToken (cs_next_id st) tok true))))
                x1 (S (cs_next_id st))) as ->.
  { destruct (isinstance tok2 Parenthesis).
    - by apply lift_inv in E as [_ ->].
    - by injection E as _ <-. }
  do 3 step H.
  assert (state_registry_ok
            (mkCompileState
               (cs_query (with_registry
                  (mkCompileState (cs_query st) x (S (cs_next_id st)))
                  (registry_after (query_token_alias (cs_query st))
                     (mkSQLToken (cs_next_id st) tok true))))
               x1 (S (S (cs_next_id st))))) as Hfin.
  { unfold state_registry_ok. simpl. by apply registry_after_ok. }
  destruct (String.eqb s s0); do 3 step H; by injection H as _ <-.
Qed.

Lemma ColumnSelectConverter__identifier_keeps (self self' : ColumnSelectConverter)
  (tok : Token) (st st' : CompileState) :
  state_registry_ok st ->
  ColumnSelectConverter__identifier self tok st = Ok (self', st') ->
  state_registry_ok st'.
Proof.
  intros Hok H. unfold ColumnSelectConverter__identifier in H.
  step H. destruct (isinstance t Parenthesis).
  { do 2 step H. by injection H as _ <-. }
  destruct (isinstance t Function).
  { step H. by injection H as _ <-. }
  do 2 step H. injection H as _ <-.
  unfold state_registry_ok. simpl. by apply registry_after_ok.
Qed.

(** X8. The parsers that register aliases keep the registry well formed: if
    every alias is bound to an attached accessor on an identifier with that
    alias before [FromConverter.parse], [JoinConverter.parse] or
    [ColumnSelectConverter._identifier], it is so after. *)
Theorem parsers_keep_registry_ok (st st' : CompileState) :
  state_registry_ok st ->
  (forall u, FromConverter_parse st = Ok (u, st') -> state_registry_ok st')
  /\ (forall self, JoinConverter_parse st = Ok (self, st') ->
        state_registry_ok st')
  /\ (forall self tok self',
        ColumnSelectConverter__identifier self tok st = Ok (self', st') ->
        state_registry_ok st').
Proof.
  intros Hok. split; [|split].
  - intros u. by apply FromConverter_parse_keeps.
  - intros self. by apply JoinConverter_parse_keeps.
  - intros self tok self'. by apply ColumnSelectConverter__identifier_keeps.
Qed.

(** X9. A registration never takes an entry out of the mapping from tokens
    to aliases, nor changes the entry of another token: after an alias is
    bound again, the token it was bound to before still maps to it. *)
Theorem register_keeps_token2alias (a : string) (sql k : SQLToken)
  (v : string) (ta : TokenAlias) :
  sql_id k <> sql_id sql ->
  token2alias_get k (token2alias ta) = Some v ->
  token2alias_get k (token2alias (register a sql ta)) = Some v
  /\ (List.length (token2alias ta)
      <= List.length (token2alias (register a sql ta)))%nat.
Proof.
  intros Hne Hk. unfold register. simpl. split.
  - by rewrite token2alias_get_set_ne.
  - generalize (token2alias ta). intros d.
    induction d as [|[k' v'] d IH]; simpl; [lia|].
    destruct (key_match k' sql); simpl; lia.
Qed.

(** ** More on joins *)

Lemma M_bind_ok {A B : Type} (m : M A) (f : A -> M B) (st st1 : CompileState)
  (a : A) :
  m st = Ok (a, st1) -> (m ≫= f) st = f a st1.
Proof. intros H. unfold mbind, M_bind. by rewrite H. Qed.

Lemma statement_next_run (st : CompileState) (tok : option Token)
  (c : SQLStatement) :
  SQLStatement_next (cs_statement st) = Ok (tok, c) ->
  statement_next st = Ok (tok, mkCompileState (cs_query st) c (cs_next_id st)).
Proof. intros H. unfold statement_next. by rewrite H. Qed.

(** The first action of a sequence returns: go on with the rest. *)
Ltac run_step tac :=
  erewrite M_bind_ok by tac;
  cbn [cs_query cs_statement cs_next_id query_token_alias with_registry].

Lemma table_is_identifier (ta : TokenAlias) (s : SQLToken) (t : string) :
  table ta s = Ok t -> isinstance (_token s) Identifier = true.
Proof.
  unfold table. destruct recursion_limit; [done|]. simpl.
  by destruct (isinstance (_token s) Identifier).
Qed.

(** [JoinConverter.parse] on the tokens of a join whose parts resolve: the
    side of the comparison that is read as the joined table's is the right
    one when its table is the joined table, and the left one otherwise. *)
Lemma JoinConverter_parse_run (st : CompileState) (tj cmp : Token)
  (c : SQLStatement) (rt tl cl tr cr : string) :
  reads_join st tj cmp c ->
  let sql1 := mkSQLToken (cs_next_id st) tj true in
  let ta2 := registry_after (query_token_alias (cs_query st)) sql1 in
  let sql2 := mkSQLToken (S (cs_next_id st)) cmp true in
  table (query_token_alias (cs_query st)) sql1 = Ok rt ->
  right_table ta2 sql2 = Ok tr ->
  right_column sql2 = Ok cr ->
  left_column sql2 = Ok cl ->
  (String.eqb rt tr = true -> left_table ta2 sql2 = Ok tl) ->
  JoinConverter_parse st
  = Ok (if String.eqb rt tr then mkJoinConverter tl rt cl cr
        else mkJoinConverter tr rt cr cl,
        mkCompileState (cs_query (with_registry st ta2)) c
                       (S (S (cs_next_id st)))).
Proof.
  intros (c1 & on & c2 & cmp0 & H1 & H2 & Hon & H3 & Hcmp) sql1 ta2 sql2
         Hrt Htr Hcr Hcl Htl.
  unfold JoinConverter_parse.
  run_step ltac:(apply statement_next_run; exact H1).
  run_step ltac:(reflexivity).
  run_step ltac:(reflexivity).
  fold sql1. rewrite Hrt.
  run_step ltac:(reflexivity).
  pose proof (table_is_identifier _ _ _ Hrt) as Hid.
  run_step ltac:(apply register_alias_run; unfold alias; by rewrite Hid).
  fold ta2.
  run_step ltac:(apply statement_next_run; exact H2).
  run_step ltac:(reflexivity).
  rewrite Hon. cbn [negb].
  run_step ltac:(apply statement_next_run; exact H3).
  erewrite M_bind_ok.
  2: { destruct (isinstance cmp0 Parenthesis).
       - unfold lift. rewrite Hcmp. reflexivity.
       - injection Hcmp as <-. reflexivity. }
  run_step ltac:(reflexivity).
  run_step ltac:(reflexivity).
  fold sql2. rewrite Htr.
  run_step ltac:(reflexivity).
  destruct (String.eqb rt tr) eqn:E.
  - rewrite (Htl eq_refl), Hcl, Hcr. reflexivity.
  - rewrite Hcr, Hcl. reflexivity.
Qed.

Lemma comparison_sides (names : Names) (l r : Token) (mid : list Token) :
  comparison_left (Group Comparison names (l :: mid ++ [r])%list) = Ok l
  /\ comparison_right (Group Comparison names (l :: mid ++ [r])%list) = Ok r.
Proof.
  split; [reflexivity|]. unfold comparison_right, list_last. simpl.
  by rewrite app_comm_cons, last_snoc.
Qed.

(** X10. The joined table may stand on either side of the ON comparison.
    When one side of the comparison is a column of the joined table and the
    other side a column of another table, [JoinConverter.parse] returns the
    same join for [other = joined] and for [joined = other]: the local field
    is the other table's column and the foreign field the joined table's. *)
Theorem join_on_either_side (st st' : CompileState) (tj l r : Token)
  (n1 n2 : Names) (mid1 mid2 : list Token) (c c' : SQLStatement)
  (rt tl cl cr : string) :
  cs_query st' = cs_query st ->
  cs_next_id st' = cs_next_id st ->
  reads_join st tj (Group Comparison n1 (l :: mid1 ++ [r])%list) c ->
  reads_join st' tj (Group Comparison n2 (r :: mid2 ++ [l])%list) c' ->
  let sql1 := mkSQLToken (cs_next_id st) tj true in
  let ta2 := registry_after (query_token_alias (cs_query st)) sql1 in
  table (query_token_alias (cs_query st)) sql1 = Ok rt ->
  table ta2 (mkSQLToken (S (cs_next_id st)) l true) = Ok tl ->
  column (mkSQLToken (S (cs_next_id st)) l true) = Ok cl ->
  table ta2 (mkSQLToken (S (cs_next_id st)) r true) = Ok rt ->
  column (mkSQLToken (S (cs_next_id st)) r true) = Ok cr ->
  tl <> rt ->
  exists s1 s2,
    JoinConverter_parse st = Ok (mkJoinConverter tl rt cl cr, s1)
    /\ JoinConverter_parse st' = Ok (mkJoinConverter tl rt cl cr, s2).
Proof.
  intros Hq Hn Hr1 Hr2 sql1 ta2 Hrt Htl Hcl Htr Hcr Hne.
  destruct (comparison_sides n1 l r mid1) as [Hl1 Hright1].
  destruct (comparison_sides n2 r l mid2) as [Hl2 Hright2].
  eexists _, _. split.
  - rewrite (JoinConverter_parse_run st tj _ c rt tl cl rt cr Hr1 Hrt).
    + by rewrite String.eqb_refl.
    + unfold right_table. simpl. by rewrite Hright1.
    + unfold right_column. simpl. by rewrite Hright1.
    + unfold left_column. simpl. exact Hcl.
    + intros _. unfold left_table. simpl. exact Htl.
  - rewrite (JoinConverter_parse_run st' tj _ c' rt tl cr tl cl Hr2);
      rewrite ?Hq, ?Hn.
    + assert (String.eqb rt tl = false) as ->; [|done].
      apply String.eqb_neq. congruence.
    + exact Hrt.
    + unfold right_table. simpl. by rewrite Hright2.
    + unfold right_column. simpl. by rewrite Hright2.
    + unfold left_column. simpl. exact Hcr.
    + intros E. apply String.eqb_eq in E. congruence.
Qed.

(** ** More on GROUP BY and UPDATE SET *)

Lemma to_id_fold_TypeError (q : Query) (sqls : list SQLToken) (acc : Dict) :
  (forall iden, In iden sqls -> exists t c, resolves q iden t c) ->
  foldM (to_id_step q) sqls acc = Err TypeError
  \/ exists _id, foldM (to_id_step q) sqls acc = Ok _id
       /\ forall c, dict_get c acc = Some (VStr ("$" ++ c)) ->
            dict_get c _id = Some (VStr ("$" ++ c)).
Proof.
  revert acc. induction sqls as [|iden sqls IH]; intros acc Hres.
  - right. by exists acc.
  - rewrite foldM_cons.
    destruct (Hres iden) as (t & c & Hr); [by left|].
    rewrite (to_id_step_resolved _ _ _ _ _ Hr).
    assert (forall acc',
              (forall k, dict_get k acc = Some (VStr ("$" ++ k)) ->
                 dict_get k acc' = Some (VStr ("$" ++ k))) ->
              (Ok acc' ≫= foldM (to_id_step q) sqls) = Err TypeError
              \/ exists _id, (Ok acc' ≫= foldM (to_id_step q) sqls) = Ok _id
                   /\ forall k, dict_get k acc = Some (VStr ("$" ++ k)) ->
                        dict_get k _id = Some (VStr ("$" ++ k))) as Hnext.
    { intros acc' Hacc'.
      destruct (IH acc') as [E|(_id & E & H)];
        [intros i Hi; apply Hres; by right | by left |].
      right. exists _id. split; [done|]. intros k Hk. by apply H, Hacc'. }
    destruct (is_left_table q t).
    + apply Hnext. intros k Hk. rewrite dict_get_set.
      destruct (String.eqb c k) eqn:E; [|done].
      apply String.eqb_eq in E. by subst k.
    + destruct (dict_get t acc) as [[| | |s| |sub]|] eqn:Eg;
        try (by left); apply Hnext; intros k Hk; rewrite dict_get_set;
        (destruct (String.eqb t k) eqn:E; [|done]);
        apply String.eqb_eq in E; subst k; congruence.
Qed.

(** X11. [to_id] raises [TypeError] when a grouped column of the primary
    table has the name of the table of a column grouped after it: the string
    stored under that name does not take an item, and only [KeyError] is
    caught. *)
Theorem to_id_name_clash_TypeError (q : Query)
  (pre mid post : list SQLToken) (i1 i2 : SQLToken) (t1 c c2 : string) :
  (forall iden, In iden (pre ++ i1 :: mid)%list ->
     exists t c, resolves q iden t c) ->
  resolves q i1 t1 c -> is_left_table q t1 = true ->
  resolves q i2 c c2 -> is_left_table q c = false ->
  to_id q (pre ++ i1 :: mid ++ i2 :: post)%list = Err TypeError.
Proof.
  intros Hres Hr1 Hl1 Hr2 Hl2. unfold to_id. rewrite foldM_app.
  destruct (to_id_fold_TypeError q pre []) as [E|(acc1 & E & _)];
    [intros i Hi; apply Hres, in_or_app; by left | by rewrite E |].
  rewrite E.
  change (foldM (to_id_step q) (i1 :: mid ++ i2 :: post)%list acc1
          = Err TypeError).
  rewrite foldM_cons, (to_id_step_resolved _ _ _ _ _ Hr1), Hl1.
  change (foldM (to_id_step q) (mid ++ i2 :: post)%list
                (dict_set c (VStr ("$" ++ c)) acc1) = Err TypeError).
  rewrite foldM_app.
  destruct (to_id_fold_TypeError q mid (dict_set c (VStr ("$" ++ c)) acc1))
    as [E2|(acc2 & E2 & H2)];
    [intros i Hi; apply Hres, in_or_app; right; by right | by rewrite E2 |].
  rewrite E2.
  change (foldM (to_id_step q) (i2 :: post) acc2 = Err TypeError).
  rewrite foldM_cons, (to_id_step_resolved _ _ _ _ _ Hr2), Hl2.
  by rewrite (H2 c (dict_get_set_eq _ _ _)).
Qed.

Lemma set_fold_Err (params : list Value) (pre post : list SQLToken)
  (sql : SQLToken) (e : Error) :
  (forall s, In s pre ->
     is_ok (lhs_column s) = true /\ is_ok (set_value params s) = true) ->
  (forall doc, set_step params doc sql = Err e) ->
  foldM (set_step params) (pre ++ sql :: post)%list [] = Err e.
Proof.
  intros Hpre Hstep. rewrite foldM_app.
  destruct (set_fold_ok params pre [] Hpre) as [doc ->].
  change (foldM (set_step params) (sql :: post) doc = Err e).
  by rewrite foldM_cons, Hstep.
Qed.

(** X12. [SetConverter.to_mongo] raises [IndexError] when the placeholder of
    an assignment has an index that is not below the number of parameters,
    the assignments before it being in order. *)
Theorem SetConverter_to_mongo_IndexError (q : Query)
  (pre post : list SQLToken) (sql : SQLToken) (c : string) (i : nat) :
  (forall s, In s pre ->
     is_ok (lhs_column s) = true
     /\ is_ok (set_value (query_params q) s) = true) ->
  lhs_column sql = Ok c ->
  rhs_indexes sql = Ok (Some i) ->
  (List.length (query_params q) <= i)%nat ->
  SetConverter_to_mongo q (pre ++ sql :: post)%list = Err IndexError.
Proof.
  intros Hpre Hc Hi Hlen. unfold SetConverter_to_mongo, set_document.
  rewrite (set_fold_Err _ _ _ _ IndexError Hpre); [done|].
  intros doc. unfold set_step, set_value, list_index.
  rewrite Hc, Hi. simpl. by rewrite (lookup_ge_None_2 _ _ Hlen).
Qed.

(** ** More on ORDER BY, GROUP BY and value lists *)

(** X13. [OrderConverter.parse] has no branch for a token after BY that is
    neither an identifier nor a list of identifiers, nor for the end of the
    statement: it returns without an error, with no column, having moved the
    cursor over BY and that token. *)
Theorem OrderConverter_parse_other_token (st : CompileState) (by_ : Token)
  (c1 c2 : SQLStatement) (tok : option Token) :
  SQLStatement_next (cs_statement st) = Ok (Some by_, c1) ->
  token_match by_ T_Keyword "BY" = true ->
  SQLStatement_next c1 = Ok (tok, c2) ->
  (forall t, tok = Some t ->
     isinstance t Identifier = false /\ isinstance t IdentifierList = false) ->
  OrderConverter_parse st
  = Ok ([], mkCompileState (cs_query st) c2 (cs_next_id st)).
Proof.
  intros H1 Hby H2 Hother. unfold OrderConverter_parse.
  run_step ltac:(apply statement_next_run; exact H1).
  run_step ltac:(reflexivity).
  rewrite Hby. cbn [negb].
  run_step ltac:(apply statement_next_run; exact H2).
  destruct tok as [t|]; [|done].
  destruct (Hother t eq_refl) as [-> ->]. done.
Qed.

(** X14. [GroupbyConverter.parse] asks the token after BY for its
    identifiers unless it is an identifier: on a token that is neither an
    identifier nor a list of identifiers, and at the end of the statement,
    it raises [AttributeError]. *)
Theorem GroupbyConverter_parse_other_token (st : CompileState) (by_ : Token)
  (c1 c2 : SQLStatement) (tok : option Token) :
  SQLStatement_next (cs_statement st) = Ok (Some by_, c1) ->
  token_match by_ T_Keyword "BY" = true ->
  SQLStatement_next c1 = Ok (tok, c2) ->
  (forall t, tok = Some t ->
     isinstance t Identifier = false /\ isinstance t IdentifierList = false) ->
  GroupbyConverter_parse st = Err AttributeError.
Proof.
  intros H1 Hby H2 Hother. unfold GroupbyConverter_parse.
  run_step ltac:(apply statement_next_run; exact H1).
  run_step ltac:(reflexivity).
  rewrite Hby. cbn [negb].
  run_step ltac:(apply statement_next_run; exact H2).
  destruct tok as [t|]; [|done].
  destruct (Hother t eq_refl) as [Hi Hl].
  run_step ltac:(reflexivity). rewrite Hi.
  assert (get_identifiers t = Err AttributeError) as E.
  { destruct t as [|[] names toks]; done. }
  unfold mbind, M_bind, lift. by rewrite E.
Qed.

Lemma order_Ok (s : SQLToken) (o : Z) :
  order s = Ok o <->
  isinstance (_token s) Identifier = true
  /\ ((ordering (token_names (_token s)) = Some "ASC" /\ o = ASCENDING)
      \/ (ordering (token_names (_token s)) = Some "DESC" /\ o = DESCENDING)).
Proof.
  unfold order.
  destruct (isinstance (_token s) Identifier); cbn [negb];
    [|by split; [|intros []]].
  destruct (ordering (token_names (_token s))) as [_ord|];
    [|split; [done | by intros [_ [[? _]|[? _]]]]].
  change (dict_get _ord ORDER_BY_MAP)
    with (if String.eqb "ASC" _ord then Some ASCENDING
          else if String.eqb "DESC" _ord then Some DESCENDING else None).
  destruct (String.eqb "ASC" _ord) eqn:E1.
  { apply String.eqb_eq in E1. subst _ord. split.
    - intros [= <-]. split; [done|]. by left.
    - by intros [_ [[_ ->]|[[=] _]]]. }
  destruct (String.eqb "DESC" _ord) eqn:E2.
  { apply String.eqb_eq in E2. subst _ord. split.
    - intros [= <-]. split; [done|]. by right.
    - by intros [_ [[[=] _]|[_ ->]]]. }
  apply String.eqb_neq in E1, E2. split; [done|].
  intros [_ [[[= ->] _]|[[= ->] _]]]; done.
Qed.

(** X15. [OrderConverter.to_mongo] returns a sort exactly when every column
    has a name and an explicit ASC or DESC: the sort then lists the columns
    in their order, with 1 for ASC and -1 for DESC. A column without a
    direction makes it raise. *)
Theorem OrderConverter_to_mongo_Ok (columns : list (SQLToken * SQLToken))
  (sort : list (string * Z)) :
  OrderConverter_to_mongo columns = Ok sort <->
  Forall2 (fun col fo =>
             column col.1 = Ok fo.1
             /\ isinstance (_token col.2) Identifier = true
             /\ ((ordering (token_names (_token col.2)) = Some "ASC"
                  /\ fo.2 = 1)
                 \/ (ordering (token_names (_token col.2)) = Some "DESC"
                     /\ fo.2 = -1)))
          columns sort.
Proof.
  unfold OrderConverter_to_mongo. revert sort.
  induction columns as [|[tok tok_ord] columns IH]; intros sort; simpl.
  - split; [intros [= <-]; constructor | by inversion 1].
  - split.
    + destruct (column tok) as [c|] eqn:Ec; [|done]. simpl.
      destruct (order tok_ord) as [o|] eqn:Eo; [|done]. simpl.
      destruct (mapM _ columns) as [ys|] eqn:Ey; [|done]. simpl.
      intros [= <-]. constructor; [|by apply IH].
      simpl. split; [done|]. by apply order_Ok.
    + inversion 1 as [|? [c o] ? ys [Hc Ho] Hrest]; subst. simpl in *.
      apply order_Ok in Ho. rewrite Hc, Ho. simpl.
      apply IH in Hrest. by rewrite Hrest.
Qed.

Lemma py_slice_inner_short (A : Type) (l : list A) :
  (List.length l <= 2)%nat -> py_slice l (Some 1) (Some (-1)) = [].
Proof.
  intros H. destruct l as [|a [|b [|c l]]]; try done. simpl in H. lia.
Qed.

(** X16. [SQLToken.__iter__] on parentheses with nothing between them, as in
    [()], raises [IndexError] before it yields anything. *)
Theorem SQLToken_iter_empty_parenthesis (s : SQLToken) :
  isinstance (_token s) Parenthesis = true ->
  (List.length (token_children (_token s)) <= 2)%nat ->
  SQLToken_iter s = mkGenerated [] (Some IndexError).
Proof.
  intros Hp Hlen. unfold SQLToken_iter. rewrite Hp. simpl.
  by rewrite py_slice_inner_short.
Qed.

Lemma iter_identifiers_entry (aid : Token) (y : option nat)
  (rest : list Token) :
  value_entry aid y ->
  iter_identifiers (aid :: rest) = yield_first y (iter_identifiers rest).
Proof.
  intros [(Hp & ds & Hds & ->)|(Hp & Hm & ->)]; cbn [iter_identifiers];
    rewrite Hp.
  - by rewrite (placeholder_index_matches _ _ Hds).
  - by rewrite Hm.
Qed.

(** X17. The loop of [SQLToken.__iter__] over a list whose elements are
    placeholders and NULLs yields, in the order of the list, the number of
    each placeholder and [None] for each NULL, and ends without an
    exception. When such elements are followed by one that is out of order,
    the loop yields the same entries for them and then raises:
    [SQLDecodeError] on an element that is neither a placeholder nor NULL,
    [AttributeError] on a placeholder whose text has not the pattern. What
    comes after that element is not read. *)
Theorem iter_identifiers_yields (good : list Token) (ys : list (option nat)) :
  Forall2 value_entry good ys ->
  iter_identifiers good = mkGenerated ys None
  /\ (forall bad rest,
        is_placeholder bad = false ->
        token_match bad T_Keyword "NULL" = false ->
        iter_identifiers (good ++ bad :: rest)%list
        = mkGenerated ys (Some SQLDecodeError))
  /\ (forall bad rest,
        is_placeholder bad = true ->
        (forall ds, ~ is_placeholder_text (token_value bad) ds) ->
        iter_identifiers (good ++ bad :: rest)%list
        = mkGenerated ys (Some AttributeError)).
Proof.
  induction 1 as [|aid y good ys Hy _ (IH1 & IH2 & IH3)].
  - split; [done|]. split; intros bad rest Hp H; cbn [app iter_identifiers];
      rewrite Hp.
    + by rewrite H.
    + unfold placeholder_index.
      destruct (re_match_placeholder (token_value bad)) as [ds|] eqn:E;
        [|done].
      apply re_match_placeholder_spec in E. by destruct (H ds).
  - split; [|split].
    + by rewrite (iter_identifiers_entry _ _ _ Hy), IH1.
    + intros bad rest Hp H. rewrite <- app_comm_cons.
      by rewrite (iter_identifiers_entry _ _ _ Hy), (IH2 bad rest Hp H).
    + intros bad rest Hp H. rewrite <- app_comm_cons.
      by rewrite (iter_identifiers_entry _ _ _ Hy), (IH3 bad rest Hp H).
Qed.

(** ** [print_warn] *)

Lemma print_warn_counts (feature message : option string) (w : WarnState) :
  _printed_features (print_warn feature message w)
  = {[feature]} ∪ _printed_features w
  /\ (List.length (printed_lines (print_warn feature message w))
      + size (_printed_features w)
      = List.length (printed_lines w)
        + size (_printed_features (print_warn feature message w)))%nat.
Proof.
  unfold print_warn. case_decide as Hin; simpl.
  - split; [|done]. symmetry. apply subseteq_union_1_L.
    by apply singleton_subseteq_l.
  - split; [done|]. rewrite length_app. simpl.
    rewrite size_union by (by apply disjoint_singleton_l).
    rewrite size_singleton. lia.
Qed.

(** X18. A feature is warned about once. After any run of calls of
    [print_warn] the set of printed features is the set before with the
    features of the calls, and as many lines were printed as features were
    added to the set. *)
Theorem print_warn_once (calls : list (option string * option string))
  (w : WarnState) :
  _printed_features (print_warns calls w)
  = list_to_set (map fst calls) ∪ _printed_features w
  /\ (List.length (printed_lines (print_warns calls w))
      + size (_printed_features w)
      = List.length (printed_lines w)
        + size (_printed_features (print_warns calls w)))%nat.
Proof.
  revert w. induction calls as [|[feature message] calls IH]; intros w.
  - unfold print_warns. simpl. split; [|done].
    by rewrite (left_id_L ∅ (∪)).
  - unfold print_warns. simpl.
    change (fold_left _ calls ?x) with (print_warns calls x).
    destruct (IH (print_warn feature message w)) as [H1 H2].
    destruct (print_warn_counts feature message w) as [H3 H4].
    split; [|lia]. rewrite H1, H3.
    by rewrite (assoc_L _), (comm_L _ (list_to_set _)).
Qed.

(** ** Loops that write one key each turn *)

Lemma foldM_ext {A S : Type} (f g : S -> A -> result S) (l : list A) (s : S) :
  (forall s x, f s x = g s x) -> foldM f l s = foldM g l s.
Proof.
  intros H. revert s. induction l as [|x l IH]; intros s; [done|].
  rewrite !foldM_cons, H. destruct (g s x); [apply IH | done].
Qed.

Section KeyedFold.

Context {A V : Type} (kv : A -> result (string * V)).

Lemma keyed_step_inv (acc acc' : list (string * V)) (x : A) :
  keyed_step kv acc x = Ok acc' ->
  exists k v, kv x = Ok (k, v) /\ acc' = dict_set k v acc.
Proof.
  unfold keyed_step. destruct (kv x) as [[k v]|]; [|done].
  intros [= <-]. by exists k, v.
Qed.

Lemma keyed_step_run (acc : list (string * V)) (x : A) (p : string * V) :
  kv x = Ok p -> keyed_step kv acc x = Ok (dict_set p.1 p.2 acc).
Proof. unfold keyed_step. by intros ->. Qed.

Lemma keyed_fold_ok (l : list A) (acc : list (string * V)) :
  (forall x, In x l -> is_ok (kv x) = true) ->
  exists r, foldM (keyed_step kv) l acc = Ok r.
Proof.
  revert acc. induction l as [|x l IH]; intros acc H; [by exists acc|].
  rewrite foldM_cons.
  pose proof (H x (or_introl eq_refl)) as Hx.
  destruct (kv x) as [p|] eqn:E; [|done].
  rewrite (keyed_step_run _ _ _ E). cbn.
  apply IH. intros y Hy. apply H. by right.
Qed.

Lemma keyed_fold_keeps (l : list A) (acc r : list (string * V)) (k : string) :
  foldM (keyed_step kv) l acc = Ok r ->
  (forall y v, In y l -> kv y <> Ok (k, v)) ->
  dict_get k r = dict_get k acc.
Proof.
  revert acc. induction l as [|x l IH]; intros acc Hf Hne.
  - by injection Hf as <-.
  - rewrite foldM_cons in Hf.
    destruct (keyed_step kv acc x) as [acc1|] eqn:E; [|done].
    apply keyed_step_inv in E as (k' & v' & Hx & ->).
    rewrite (IH _ Hf); [|intros y v Hy; apply Hne; by right].
    apply dict_get_set_ne. intros ->. by apply (Hne x v'); [left|].
Qed.

Lemma keyed_fold_last (pre post : list A) (x : A)
  (acc r : list (string * V)) (k : string) (v : V) :
  foldM (keyed_step kv) (pre ++ x :: post)%list acc = Ok r ->
  kv x = Ok (k, v) ->
  (forall y v', In y post -> kv y <> Ok (k, v')) ->
  dict_get k r = Some v.
Proof.
  intros Hf Hx Hne. rewrite foldM_app in Hf.
  destruct (foldM (keyed_step kv) pre acc) as [acc1|]; [|done].
  change (foldM (keyed_step kv) (x :: post) acc1 = Ok r) in Hf.
  rewrite foldM_cons, (keyed_step_run _ _ _ Hx) in Hf. cbn in Hf.
  rewrite (keyed_fold_keeps _ _ _ _ Hf Hne). apply dict_get_set_eq.
Qed.

Lemma keyed_fold_from (l : list A) (acc r : list (string * V)) (k : string)
  (v : V) :
  foldM (keyed_step kv) l acc = Ok r ->
  dict_get k r = Some v ->
  dict_get k acc = Some v \/ exists x, In x l /\ kv x = Ok (k, v).
Proof.
  revert acc. induction l as [|x l IH]; intros acc Hf Hr.
  - injection Hf as <-. by left.
  - rewrite foldM_cons in Hf.
    destruct (keyed_step kv acc x) as [acc1|] eqn:E; [|done].
    apply keyed_step_inv in E as (k' & v' & Hx & ->).
    destruct (IH _ Hf Hr) as [H|(y & Hy & Hky)].
    + rewrite dict_get_set in H. destruct (String.eqb k' k) eqn:Ek.
      * apply String.eqb_eq in Ek. subst k'. injection H as ->.
        right. exists x. split; [by left | done].
      * by left.
    + right. exists y. split; [by right | done].
Qed.

Lemma keyed_fold_const (c : V) (l : list A) (acc r : list (string * V))
  (k : string) :
  (forall x k' v, In x l -> kv x = Ok (k', v) -> v = c) ->
  foldM (keyed_step kv) l acc = Ok r ->
  dict_get k acc = Some c \/ (exists x, In x l /\ kv x = Ok (k, c)) ->
  dict_get k r = Some c.
Proof.
  revert acc. induction l as [|x l IH]; intros acc Hc Hf H.
  - injection Hf as <-. by destruct H as [H|(x & [] & _)].
  - rewrite foldM_cons in Hf.
    destruct (keyed_step kv acc x) as [acc1|] eqn:E; [|done].
    apply keyed_step_inv in E as (k' & v' & Hx & ->).
    assert (v' = c) as -> by (apply (Hc x k'); [by left | done]).
    apply (IH _ (fun y k2 v Hy => Hc y k2 v (or_intror Hy)) Hf).
    destruct H as [H|(y & [<-|Hy] & Hky)].
    + left. rewrite dict_get_set. by destruct (String.eqb k' k).
    + left. rewrite Hx in Hky. injection Hky as ->. apply dict_get_set_eq.
    + right. by exists y.
Qed.

End KeyedFold.

(** ** [AggColumnSelectConverter] *)

Lemma agg_project_step_keyed (q : Query) (project : Dict) (sel : Selected) :
  agg_project_step q project sel
  = keyed_step (agg_project_entry q) project sel.
Proof.
  unfold agg_project_step, keyed_step, agg_project_entry.
  by destruct (select_key q sel).
Qed.

Lemma agg_project_entry_inv (q : Query) (sel : Selected) (k : string)
  (v : Value) :
  agg_project_entry q sel = Ok (k, v) <->
  select_key q sel = Ok k /\ v = VBool true.
Proof.
  unfold agg_project_entry. destruct (select_key q sel) as [k'|]; simpl.
  - split; [by intros [= -> <-] | by intros [[= ->] ->]].
  - split; [done | by intros [? _]].
Qed.

(** X19. The [$project] of a SELECT of plain columns. When no constant and no
    function is selected and every entry has a table and a column,
    [AggColumnSelectConverter.to_mongo] is one [$project] stage; its keys are
    the keys of the entries, a column of the primary table by its name and
    any other as [table.column], and every key is set to [True]. *)
Theorem AggColumnSelectConverter_to_mongo_project (q : Query)
  (self : ColumnSelectConverter) :
  return_const self = None ->
  has_func self = false ->
  (forall sel, In sel (sql_tokens self) -> is_ok (select_key q sel) = true) ->
  exists project,
    AggColumnSelectConverter_to_mongo q self
    = Ok [ VDict [("$project", VDict project)] ]
    /\ forall k v,
         dict_get k project = Some v <->
         v = VBool true
         /\ exists sel, In sel (sql_tokens self) /\ select_key q sel = Ok k.
Proof.
  intros Hc Hf Hok. unfold AggColumnSelectConverter_to_mongo.
  rewrite Hc, Hf.
  rewrite (foldM_ext _ _ _ _ (agg_project_step_keyed q)).
  destruct (keyed_fold_ok (agg_project_entry q) (sql_tokens self) [])
    as [project Hp].
  { intros sel Hin. specialize (Hok sel Hin). unfold agg_project_entry.
    by destruct (select_key q sel). }
  rewrite Hp. exists project. split; [done|]. intros k v. split.
  - intros Hk.
    destruct (keyed_fold_from _ _ _ _ _ _ Hp Hk) as [H|(sel & Hin & He)];
      [done|].
    apply agg_project_entry_inv in He as [He ->]. split; [done|].
    by exists sel.
  - intros [-> (sel & Hin & He)].
    apply (keyed_fold_const (agg_project_entry q) (VBool true) _ _ _ k)
      with (2 := Hp).
    { intros x k' v _ Hx. by apply agg_project_entry_inv in Hx as [_ ->]. }
    right. exists sel. split; [done|]. by apply agg_project_entry_inv.
Qed.

Lemma using_group_by_step_inv (q : Query) (g p g' p' : Dict) (sel : Selected) :
  using_group_by_step q (g, p) sel = Ok (g', p') ->
  exists k, group_by_project_key q sel = Ok k
    /\ p' = dict_set k (VBool true) p
    /\ match sel with
       | SelFunc f =>
           exists acc, func_to_mongo f = Ok acc /\ g' = dict_set k acc g
       | SelToken _ => g' = g
       end.
Proof.
  unfold using_group_by_step, agg_project_step, group_by_project_key.
  destruct sel as [s|f].
  - destruct (select_key q (SelToken s)) as [k|]; [|done].
    intros [= <- <-]. by exists k.
  - destruct (func_to_mongo f) as [acc|]; [|done].
    intros [= <- <-]. exists (func_alias f). repeat split. by exists acc.
Qed.

Lemma using_group_by_fold_ok (q : Query) (l : list Selected) (gp : Dict * Dict) :
  (forall sel, In sel l -> group_by_entry_ok q sel = true) ->
  exists gp', foldM (using_group_by_step q) l gp = Ok gp'.
Proof.
  revert gp. induction l as [|sel l IH]; intros gp Hok; [by exists gp|].
  rewrite foldM_cons.
  assert (exists gp1, using_group_by_step q gp sel = Ok gp1) as [gp1 ->].
  { pose proof (Hok sel (or_introl eq_refl)) as H.
    destruct gp as [g p]. unfold using_group_by_step, agg_project_step.
    destruct sel as [s|f]; simpl in H.
    - destruct (select_key q (SelToken s)); [by eexists | done].
    - destruct (func_to_mongo f); [by eexists | done]. }
  apply IH. intros y Hy. apply Hok. by right.
Qed.

Lemma using_group_by_fold (q : Query) (l : list Selected) (g p g' p' : Dict) :
  foldM (using_group_by_step q) l (g, p) = Ok (g', p') ->
  (forall k v, dict_get k g' = Some v ->
     dict_get k g = Some v
     \/ exists f, In (SelFunc f) l /\ func_alias f = k
                  /\ func_to_mongo f = Ok v)
  /\ (forall k v, dict_get k p' = Some v ->
        dict_get k p = Some v
        \/ v = VBool true
           /\ exists sel, In sel l /\ group_by_project_key q sel = Ok k)
  /\ (forall k,
        dict_get k p = Some (VBool true)
        \/ (exists sel, In sel l /\ group_by_project_key q sel = Ok k) ->
        dict_get k p' = Some (VBool true)).
Proof.
  revert g p. induction l as [|sel l IH]; intros g p Hf.
  - injection Hf as <- <-. repeat split; try by left.
    by intros k [H|(sel & [] & _)].
  - rewrite foldM_cons in Hf.
    destruct (using_group_by_step q (g, p) sel) as [[g1 p1]|] eqn:E; [|done].
    apply using_group_by_step_inv in E as (k1 & Hk1 & -> & Hg).
    destruct (IH _ _ Hf) as (IHg & IHp & IHt). repeat split.
    + intros k v Hk. destruct (IHg k v Hk) as [H|(f & Hin & Ha & Hv)].
      * destruct sel as [s|f]; [subst g1; by left|].
        destruct Hg as (acc & Hacc & ->). injection Hk1 as Hk1.
        rewrite dict_get_set in H. destruct (String.eqb k1 k) eqn:Ek.
        -- apply String.eqb_eq in Ek. subst k1. injection H as ->.
           right. exists f. split; [by left | done].
        -- by left.
      * right. exists f. split; [by right | done].
    + intros k v Hk. destruct (IHp k v Hk) as [H|[-> (y & Hin & Hy)]].
      * rewrite dict_get_set in H. destruct (String.eqb k1 k) eqn:Ek.
        -- apply String.eqb_eq in Ek. subst k1. injection H as <-.
           right. split; [done|]. exists sel. split; [by left | done].
        -- by left.
      * right. split; [done|]. exists y. split; [by right | done].
    + intros k H. apply IHt. destruct H as [H|(y & [<-|Hin] & Hy)].
      * left. rewrite dict_get_set. by destruct (String.eqb k1 k).
      * left. rewrite Hk1 in Hy. injection Hy as ->. apply dict_get_set_eq.
      * right. by exists y.
Qed.

Lemma using_group_by_fold_keeps (q : Query) (l : list Selected)
  (g p g' p' : Dict) (k : string) :
  foldM (using_group_by_step q) l (g, p) = Ok (g', p') ->
  ((forall f, In (SelFunc f) l -> func_alias f <> k) ->
   dict_get k g' = dict_get k g)
  /\ ((forall sel, In sel l -> group_by_project_key q sel <> Ok k) ->
      dict_get k p' = dict_get k p).
Proof.
  revert g p. induction l as [|sel l IH]; intros g p Hfold.
  - by injection Hfold as <- <-.
  - rewrite foldM_cons in Hfold.
    destruct (using_group_by_step q (g, p) sel) as [[g1 p1]|] eqn:E; [|done].
    apply using_group_by_step_inv in E as (k1 & Hk1 & -> & Hg1).
    destruct (IH _ _ Hfold) as [IHg IHp]. split.
    + intros Hne. rewrite IHg by (intros f Hin; apply Hne; by right).
      destruct sel as [s|f]; [by subst g1|].
      destruct Hg1 as (acc & _ & ->). injection Hk1 as Hk1.
      apply dict_get_set_ne. rewrite <- Hk1. apply Hne. by left.
    + intros Hne. rewrite IHp by (intros y Hin; apply Hne; by right).
      apply dict_get_set_ne. intros ->. by apply (Hne sel); [left|].
Qed.

Lemma using_group_by_fold_last (q : Query) (pre post : list Selected)
  (f : SQLFunc) (g p g' p' : Dict) (acc : Value) :
  foldM (using_group_by_step q) (pre ++ SelFunc f :: post)%list (g, p)
  = Ok (g', p') ->
  func_to_mongo f = Ok acc ->
  (forall f', In (SelFunc f') post -> func_alias f' <> func_alias f) ->
  dict_get (func_alias f) g' = Some acc.
Proof.
  intros Hfold Hacc Hne. rewrite foldM_app in Hfold.
  destruct (foldM (using_group_by_step q) pre (g, p)) as [[g1 p1]|]; [|done].
  change (foldM (using_group_by_step q) (SelFunc f :: post) (g1, p1)
          = Ok (g', p')) in Hfold.
  rewrite foldM_cons in Hfold.
  destruct (using_group_by_step q (g1, p1) (SelFunc f)) as [[g2 p2]|] eqn:E;
    [|done].
  apply using_group_by_step_inv in E as (k & Hk & -> & acc' & Hacc' & ->).
  injection Hk as <-. rewrite Hacc in Hacc'. injection Hacc' as <-.
  rewrite (proj1 (using_group_by_fold_keeps _ _ _ _ _ _ _ Hfold) Hne).
  apply dict_get_set_eq.
Qed.

(** X20. A SELECT with an aggregate function and no constant is compiled by
    [_using_group_by] to a [$group] stage followed by a [$project] stage.
    [$group] holds [_id], [None] unless a function has the alias [_id], and
    under the alias of each function its accumulator, the one of the last
    function with that alias, and never a plain column. [$project] shows the
    alias of every function and the key of every plain column, and hides
    [_id] unless an entry has that key. *)
Theorem AggColumnSelectConverter_to_mongo_group (q : Query)
  (self : ColumnSelectConverter) :
  return_const self = None ->
  has_func self = true ->
  (forall sel, In sel (sql_tokens self) -> group_by_entry_ok q sel = true) ->
  exists group project,
    AggColumnSelectConverter_to_mongo q self
    = Ok [ VDict [("$group", VDict group)];
           VDict [("$project", VDict project)] ]
    /\ (forall pre f post acc,
          sql_tokens self = (pre ++ SelFunc f :: post)%list ->
          func_to_mongo f = Ok acc ->
          (forall f', In (SelFunc f') post -> func_alias f' <> func_alias f) ->
          dict_get (func_alias f) group = Some acc)
    /\ (forall k v, dict_get k group = Some v ->
          k = "_id" /\ v = VNone
          \/ exists f, In (SelFunc f) (sql_tokens self) /\ func_alias f = k
                       /\ func_to_mongo f = Ok v)
    /\ ((forall f, In (SelFunc f) (sql_tokens self) -> func_alias f <> "_id") ->
        dict_get "_id" group = Some VNone)
    /\ (forall k v, dict_get k project = Some v ->
          k = "_id" /\ v = VBool false
          \/ v = VBool true
             /\ exists sel, In sel (sql_tokens self)
                            /\ group_by_project_key q sel = Ok k)
    /\ (forall sel k, In sel (sql_tokens self) ->
          group_by_project_key q sel = Ok k ->
          dict_get k project = Some (VBool true))
    /\ ((forall sel, In sel (sql_tokens self) ->
           group_by_project_key q sel <> Ok "_id") ->
        dict_get "_id" project = Some (VBool false)).
Proof.
  intros Hc Hf Hok.
  unfold AggColumnSelectConverter_to_mongo,
    AggColumnSelectConverter__using_group_by.
  rewrite Hc, Hf.
  destruct (using_group_by_fold_ok q (sql_tokens self)
              ([("_id", VNone)], [("_id", VBool false)]) Hok)
    as [[group project] Hgp].
  rewrite Hgp. exists group, project. split; [done|].
  pose proof Hgp as Hinit.
  apply using_group_by_fold in Hgp as (Hg & Hp & Ht).
  assert (forall (V : Type) (k : string) (v0 v : V),
            dict_get k [("_id", v0)] = Some v -> k = "_id" /\ v = v0) as Hone.
  { intros V k v0 v. change [("_id", v0)] with (dict_set "_id" v0 []).
    rewrite dict_get_set. destruct (String.eqb "_id" k) eqn:Ek; [|done].
    apply String.eqb_eq in Ek. by intros [= ->]. }
  split; [|repeat split].
  - intros pre f post acc Hl Hacc Hne. rewrite Hl in Hinit.
    by apply (using_group_by_fold_last _ _ _ _ _ _ _ _ _ Hinit).
  - intros k v Hk. destruct (Hg k v Hk) as [H|H]; [|by right].
    left. by apply Hone.
  - intros Hne.
    by rewrite (proj1 (using_group_by_fold_keeps _ _ _ _ _ _ "_id" Hinit) Hne).
  - intros k v Hk. destruct (Hp k v Hk) as [H|H]; [|by right].
    left. by apply Hone.
  - intros sel k Hin Hk. apply Ht. right. by exists sel.
  - intros Hne.
    by rewrite (proj2 (using_group_by_fold_keeps _ _ _ _ _ _ "_id" Hinit) Hne).
Qed.

(** ** [AggOrderConverter] *)

Lemma agg_order_step_keyed (q : Query) (sort : list (string * Z))
  (col : SQLToken * SQLToken) :
  agg_order_step q sort col = keyed_step (agg_order_entry q) sort col.
Proof.
  destruct col as [tok tok_ord].
  unfold agg_order_step, keyed_step, agg_order_entry. simpl.
  destruct (agg_order_field q tok); [|done]. simpl.
  by destruct (order tok_ord).
Qed.

Lemma agg_order_entry_inv (q : Query) (col : SQLToken * SQLToken)
  (field : string) (o : Z) :
  agg_order_entry q col = Ok (field, o) ->
  order col.2 = Ok o
  /\ exists cls names toks t,
       _token col.1 = Group cls names toks
       /\ table (query_token_alias q) col.1 = Ok t
       /\ match parent_name names with
          | Some p =>
              if decide (p = "") then field = t
              else exists c, column col.1 = Ok c
                     /\ field = if is_left_table q t then c
                                else t ++ "." ++ c
          | None => field = t
          end.
Proof.
  unfold agg_order_entry, agg_order_field, has_parent.
  destruct (_token col.1) as [|cls names toks] eqn:Etok; [done|]. cbn.
  destruct (parent_name names) as [p|] eqn:Ep; cbn.
  - destruct p as [|a p]; cbn.
    + destruct (table (query_token_alias q) col.1) as [t|] eqn:Et; [|done].
      cbn. destruct (order col.2) as [o'|]; [|done]. intros [= <- <-].
      split; [done|]. exists cls, names, toks, t. rewrite Ep.
      by repeat split.
    + destruct (table (query_token_alias q) col.1) as [t|] eqn:Et; [|done].
      cbn. destruct (is_left_table q t) eqn:El.
      * destruct (column col.1) as [c|] eqn:Ec; [|done]. cbn.
        destruct (order col.2) as [o'|]; [|done]. intros [= <- <-].
        split; [done|]. exists cls, names, toks, t. rewrite Ep.
        repeat split; [done..|]. rewrite decide_False by done.
        exists c. by rewrite El.
      * destruct (column col.1) as [c|] eqn:Ec; [|done]. cbn.
        destruct (order col.2) as [o'|]; [|done]. intros [= <- <-].
        split; [done|]. exists cls, names, toks, t. rewrite Ep.
        repeat split; [done..|]. rewrite decide_False by done.
        exists c. by rewrite El.
  - destruct (table (query_token_alias q) col.1) as [t|] eqn:Et; [|done].
    cbn. destruct (order col.2) as [o'|]; [|done]. intros [= <- <-].
    split; [done|]. exists cls, names, toks, t. rewrite Ep.
    by repeat split.
Qed.

(** X21. The [$sort] of [AggOrderConverter.to_mongo]. When every turn of
    its loop returns, on every column, the result is a dictionary whose
    entries come from the columns. The field of a column that is qualified
    is its name when its table is the primary table and [table.column]
    otherwise; the field of a column that is not qualified is its table,
    which for such a column is its own name. The value is 1 for ASC and -1
    for DESC, and a field ordered more than once keeps the direction of its
    last column. *)
Theorem AggOrderConverter_to_mongo_sort (q : Query)
  (columns : list (SQLToken * SQLToken)) :
  (forall col, In col columns -> is_ok (agg_order_entry q col) = true) ->
  exists sort,
    AggOrderConverter_to_mongo q columns = Ok sort
    /\ (forall field o, dict_get field sort = Some o ->
          (o = 1 \/ o = -1)
          /\ exists col, In col columns
                         /\ agg_order_entry q col = Ok (field, o))
    /\ (forall pre col post field o,
          columns = (pre ++ col :: post)%list ->
          agg_order_entry q col = Ok (field, o) ->
          (forall col' o', In col' post ->
             agg_order_entry q col' <> Ok (field, o')) ->
          dict_get field sort = Some o)
    /\ (forall col, In col columns ->
          exists field o cls names toks t,
            agg_order_entry q col = Ok (field, o)
            /\ order col.2 = Ok o
            /\ _token col.1 = Group cls names toks
            /\ table (query_token_alias q) col.1 = Ok t
            /\ match parent_name names with
               | Some p =>
                   if decide (p = "") then field = t
                   else exists c, column col.1 = Ok c
                          /\ field = if is_left_table q t then c
                                     else t ++ "." ++ c
               | None => field = t
               end).
Proof.
  intros Hok. unfold AggOrderConverter_to_mongo.
  rewrite (foldM_ext _ _ _ _ (agg_order_step_keyed q)).
  destruct (keyed_fold_ok (agg_order_entry q) columns [] Hok) as [sort Hs].
  exists sort. split; [done|]. split; [|split].
  - intros field o Hk.
    destruct (keyed_fold_from _ _ _ _ _ _ Hs Hk) as [H|(col & Hin & He)];
      [done|].
    split; [|by exists col].
    apply agg_order_entry_inv in He as [Eo _].
    apply order_Ok in Eo as [_ [[_ ->]|[_ ->]]]; [by left | by right].
  - intros pre col post field o -> He Hne.
    by apply (keyed_fold_last _ _ _ _ _ _ _ _ Hs He).
  - intros col Hin. specialize (Hok col Hin).
    destruct (agg_order_entry q col) as [[field o]|] eqn:He; [|done].
    destruct (agg_order_entry_inv _ _ _ _ He)
      as (Ho & cls & names & toks & t & Htok & Ht & Hf).
    by exists field, o, cls, names, toks, t.
Qed.

(** ** [SetConverter.parse] *)

Lemma forM_new_SQLToken (ids : list Token) (st : CompileState) :
  forM new_SQLToken ids st
  = Ok (imap (fun i t => mkSQLToken (cs_next_id st + i) t true) ids,
        mkCompileState (cs_query st) (cs_statement st)
                       (cs_next_id st + List.length ids)).
Proof.
  revert st. induction ids as [|t ids IH]; intros st.
  - simpl. unfold mret, M_ret. destruct st. simpl. do 3 f_equal. lia.
  - cbn [forM]. unfold mbind at 1, M_bind at 1. unfold new_SQLToken at 1.
    unfold mbind at 1, M_bind at 1. rewrite IH. simpl.
    unfold mret, M_ret. do 2 f_equal.
    + f_equal; [f_equal; lia|]. apply imap_ext. intros i x _. simpl.
      f_equal. lia.
    + f_equal. lia.
Qed.

(** X22. [SetConverter.parse] on a list of assignments reads one token of
    the statement and makes one new accessor for each assignment, in the
    order of the list, commas and whitespace left out. The accessors have the
    registry attached, and the query is not changed: no alias is
    registered. *)
Theorem SetConverter_parse_assignments (st : CompileState) (tok : Token)
  (c : SQLStatement) (ids : list Token) :
  SQLStatement_next (cs_statement st) = Ok (Some tok, c) ->
  get_identifiers tok = Ok ids ->
  SetConverter_parse st
  = Ok (imap (fun i t => mkSQLToken (cs_next_id st + i) t true) ids,
        mkCompileState (cs_query st) c (cs_next_id st + List.length ids)).
Proof.
  intros Hn Hids. unfold SetConverter_parse.
  unfold mbind at 1, M_bind at 1. unfold statement_next. rewrite Hn.
  destruct tok as [|cls names toks]; [done|]. destruct cls; try done.
  simpl. unfold mbind at 1, M_bind at 1. unfold lift.
  simpl in Hids. injection Hids as Hids. rewrite Hids.
  by rewrite forM_new_SQLToken.
Qed.

End Sql2Mongo.

(** * The properties on the sample statements *)

(** ** GROUP BY *)

(** C1, counterexample. For [SELECT a, COUNT(b) AS cnt FROM x GROUP BY a] the
    table of the unqualified [a] is [a], not the primary table [x]: the
    column is nested under [a] in [_id] and [$project] has no key [a]. *)
Lemma groupby_unqualified_counterexample :
  GroupbyConverter_to_mongo 10 counted_query counted_groupby
  = Ok [ VDict [("$group",
                 VDict [("_id", VDict [("a", VDict [("a", VStr "$a.a")])]);
                        ("cnt", VDict [("$sum", VInt 1)])])];
         VDict [("$project",
                 VDict [("_id", VBool false); ("a.a", VStr "_id.a.a");
                        ("cnt", VBool true)])] ]
  /\ GroupbyConverter_to_mongo 10 counted_query counted_groupby
     <> Ok [ VDict [("$group",
                     VDict [("_id", VDict [("a", VStr "$a")]);
                            ("cnt", VDict [("$sum", VInt 1)])])];
             VDict [("$project",
                     VDict [("_id", VBool false); ("a", VStr "$_id.a");
                            ("cnt", VBool true)])] ].
Proof. split; [by vm_compute | vm_compute; discriminate]. Qed.

(** With the columns qualified by the primary table the pipeline is the one
    of the specification. *)
Example groupby_qualified :
  GroupbyConverter_to_mongo 10 qualified_counted_query qualified_counted_groupby
  = Ok [ VDict [("$group",
                 VDict [("_id", VDict [("a", VStr "$a")]);
                        ("cnt", VDict [("$sum", VInt 1)])])];
         VDict [("$project",
                 VDict [("_id", VBool false); ("a", VStr "$_id.a");
                        ("cnt", VBool true)])] ].
Proof. by vm_compute. Qed.

(** A selected column of a joined table: what [$project] holds under
    [y.b] is the string [_id.y.b], which names no field of [_id]. *)
Example groupby_joined_column :
  GroupbyConverter_to_mongo 10 joined_query joined_groupby
  = Ok [ VDict [("$group",
                 VDict [("_id", VDict [("a", VStr "$a");
                                       ("y", VDict [("b", VStr "$y.b")])])])];
         VDict [("$project",
                 VDict [("_id", VBool false); ("a", VStr "$_id.a");
                        ("y.b", VStr "_id.y.b")])] ].
Proof. by vm_compute. Qed.

Lemma GroupbyConverter_to_mongo_stages_witness :
  exists _id group project,
    GroupbyConverter_to_mongo 10 qualified_counted_query
                              qualified_counted_groupby
    = Ok [ VDict [("$group", VDict group)];
           VDict [("$project", VDict project)] ]
    /\ dict_get "_id" group = Some (VDict _id)
    /\ dict_get "a" _id = Some (VStr "$a")
    /\ dict_get "_id" project = Some (VBool false).
Proof.
  destruct (GroupbyConverter_to_mongo_stages 10 qualified_counted_query
              qualified_counted_groupby)
    as (_id & group & project & H & Hid & G1 & _ & _ & P0 & _).
  - intros iden [<-|[]]. exists "x", "a". by split.
  - intros i1 i2 t1 c1 t2 c2 [<-|[]] [<-|[]] _ [H2 _] _ Hl.
    vm_compute in H2. injection H2 as <-. discriminate Hl.
  - intros sel [<-|[<-|[]]]; (split; [reflexivity|]).
    + intros f [=].
    + intros f [= <-]. reflexivity.
  - exists _id, group, project. split; [exact H|]. split.
    + apply Hid. intros f [[=]|[[= <-]|[]]]. discriminate.
    + split.
      * apply (G1 (mkSQLToken 1 (qualified "x" "a") true) "x" "a");
          [by left | by split | reflexivity].
      * apply P0. intros sel [<-|[<-|[]]]; vm_compute; discriminate.
Defined.

(** ** Joins *)

(** The example of the specification, from the clause to the stages:
    [SELECT x.a FROM x JOIN y ON x.id = y.x_id]. *)
Example inner_join_parsed :
  exists self st,
    JoinConverter_parse sample_hash 10 join_clause = Ok (self, st)
    /\ InnerJoinConverter_to_mongo (cs_query st) self
       = [ VDict [("$match",
                   VDict [("id", VDict [("$ne", VNone);
                                        ("$exists", VBool true)])])];
           VDict [("$lookup",
                   VDict [("from", VStr "y"); ("localField", VStr "id");
                          ("foreignField", VStr "x_id"); ("as", VStr "y")])];
           VDict [("$unwind", VStr "$y")] ].
Proof. eexists _, _. split; by vm_compute. Qed.

Lemma OuterJoinConverter_to_mongo_stages_witness :
  (exists null_fields,
     OuterJoinConverter_to_mongo 10 joined_query join_y
     = Ok [ VDict [("$lookup",
                    VDict [("from", VStr "y"); ("localField", VStr "id");
                           ("foreignField", VStr "x_id"); ("as", VStr "y")])];
            VDict [("$unwind",
                    VDict [("path", VStr "$y");
                           ("preserveNullAndEmptyArrays", VBool true)])];
            VDict [("$addFields",
                    VDict [("y",
                            VDict [("$ifNull",
                                    VList [VStr "$y"; VDict null_fields])])])] ]
     /\ dict_get "b" null_fields = Some VNone)
  /\ (exists null_fields,
        OuterJoinConverter_to_mongo 10 joined_query
          (mkJoinConverter "y" "z" "id" "y_id")
        = Ok [ VDict [("$lookup",
                       VDict [("from", VStr "z"); ("localField", VStr "y.id");
                              ("foreignField", VStr "y_id");
                              ("as", VStr "z")])];
               VDict [("$unwind",
                       VDict [("path", VStr "$z");
                              ("preserveNullAndEmptyArrays", VBool true)])];
               VDict [("$addFields",
                       VDict [("z",
                               VDict [("$ifNull",
                                       VList [VStr "$z";
                                              VDict null_fields])])])] ]
        /\ dict_get "b" null_fields = None).
Proof.
  split.
  - destruct (OuterJoinConverter_to_mongo_stages 10 joined_query join_y)
      as (nf & H & Hnf & _).
    + intros sel [<-|[<-|[]]]; eexists; (split; [by vm_compute|]); done.
    + exists nf. split; [exact H|]. apply Hnf.
      exists (SelToken (mkSQLToken 1 (qualified "y" "b") true)).
      split; [right; by left | by split].
  - destruct (OuterJoinConverter_to_mongo_stages 10 joined_query
                (mkJoinConverter "y" "z" "id" "y_id"))
      as (nf & H & Hnf & Hnull).
    + intros sel [<-|[<-|[]]]; eexists; (split; [by vm_compute|]); done.
    + exists nf. split; [exact H|].
      destruct (dict_get "b" nf) as [v|] eqn:E; [|done].
      pose proof (Hnull _ _ E) as ->.
      apply Hnf in E as (sel & [<-|[<-|[]]] & Ht & _); vm_compute in Ht;
        discriminate.
Defined.

(** ** UPDATE SET *)

Lemma SetConverter_to_mongo_assigns_witness :
  exists doc,
    SetConverter_to_mongo update_query set_tokens
    = Ok (VDict [("update", VDict [("$set", VDict doc)])])
    /\ dict_get "y" doc = Some (VInt 7)
    /\ dict_get "z" doc = Some VNone.
Proof.
  destruct (SetConverter_to_mongo_assigns update_query set_tokens)
    as (_ & _ & doc & H & Hdoc).
  - intros sql [<-|[<-|[]]]; by split.
  - exists doc. split; [exact H|]. split.
    + destruct (Hdoc [] (mkSQLToken 0 (comparison (ident "y")
                                          (placeholder "%(0)s")) true)
                  [mkSQLToken 1 (comparison (ident "z") (keyword "NULL")) true]
                  "y" eq_refl eq_refl) as [Hi _].
      { intros s' [<-|[]]. discriminate. }
      destruct (Hi 0%nat eq_refl) as (v & Hv & Hget).
      injection Hv as <-. exact Hget.
    + destruct (Hdoc [mkSQLToken 0 (comparison (ident "y")
                                       (placeholder "%(0)s")) true]
                  (mkSQLToken 1 (comparison (ident "z") (keyword "NULL")) true)
                  [] "z" eq_refl eq_refl) as [_ Hn].
      { intros s' []. }
      by apply Hn.
Defined.

(** ** Placeholders *)

(** C6, counterexample. The placeholder [%s] does not have the pattern, and
    [placeholder_index] raises [AttributeError] on it, not a decode error. *)
Lemma placeholder_index_counterexample :
  (forall ds, ~ is_placeholder_text "%s" ds)
  /\ placeholder_index (placeholder "%s") = Err AttributeError
  /\ placeholder_index (placeholder "%s") <> Err SQLDecodeError.
Proof.
  split; [|split; [reflexivity | discriminate]].
  intros ds H. apply re_match_placeholder_spec in H. discriminate H.
Qed.

Lemma placeholder_index_pattern_witness :
  is_placeholder_text "%(12)s" ["1"; "2"]%char
  /\ placeholder_index (placeholder "%(12)s") = Ok 12%nat.
Proof.
  assert (is_placeholder_text "%(12)s" ["1"; "2"]%char) as H.
  { split; [discriminate|]. split; [reflexivity|].
    exists "s", "". split; [by left | reflexivity]. }
  split; [exact H|].
  exact (proj1 (placeholder_index_pattern (placeholder "%(12)s")) _ H).
Defined.

(** ** Aliases *)

(** C5, counterexample. In [SELECT y.c AS x FROM x AS t] the SELECT list
    binds [x] to the column [y.c] before FROM binds [t] to [x AS t]. The
    table of [x AS t] is then resolved through the alias [x]: a reference
    through [t] resolves to [y], not to [x]. *)
Lemma alias_of_alias_counterexample :
  exists conv st,
    parse_select_from sample_hash 10 sample_int sample_SQLFunc
                      select_alias_from = Ok (conv, st)
    /\ alias2token (query_token_alias (cs_query st)) !! "t"
       = Some (mkSQLToken 1 (ident_as "x" "t") true)
    /\ table 10 (query_token_alias (cs_query st))
             (mkSQLToken 2 (qualified "t" "a") true) = Ok "y"
    /\ table 10 (query_token_alias (cs_query st))
             (mkSQLToken 2 (qualified "t" "a") true) <> Ok "x".
Proof.
  eexists _, _. split; [by vm_compute|].
  split; [by vm_compute|]. split; [by vm_compute | vm_compute; discriminate].
Qed.

(** [FROM x AS t], then a reference through [t]. *)
Lemma table_resolution_witness :
  let ta := register sample_hash "t" (mkSQLToken 1 (ident_as "x" "t") true)
                     empty_TokenAlias in
  table_rec 10 ta (mkSQLToken 2 (qualified "t" "a") true) = Ok "x"
  /\ table_rec 10 ta (mkSQLToken 3 (qualified "u" "a") true) = Ok "u".
Proof.
  intros ta. split.
  - destruct (table_resolution 8 ta (mkSQLToken 2 (qualified "t" "a") true)
                "t" eq_refl eq_refl) as (_ & _ & _ & H).
    apply (H (mkSQLToken 1 (ident_as "x" "t") true) "x"); by vm_compute.
  - destruct (table_resolution 9 ta (mkSQLToken 3 (qualified "u" "a") true)
                "u" eq_refl eq_refl) as (_ & H & _).
    apply H. by vm_compute.
Defined.

Lemma register_alias_overwrites_witness :
  alias2token (query_token_alias (cs_query bound_twice)) !! "t"
  = Some (mkSQLToken 0 (ident_as "w" "t") true)
  /\ exists st',
       register_alias sample_hash (mkSQLToken 1 (ident_as "x" "t") true)
                      bound_twice = Ok (tt, st')
       /\ alias2token (query_token_alias (cs_query st')) !! "t"
          = Some (mkSQLToken 1 (ident_as "x" "t") true).
Proof.
  assert (alias2token (query_token_alias (cs_query bound_twice)) !! "t"
          = Some (mkSQLToken 0 (ident_as "w" "t") true)) as Hold
    by (by vm_compute).
  split; [exact Hold|].
  destruct (register_alias_overwrites sample_hash
              (mkSQLToken 1 (ident_as "x" "t") true)
              (mkSQLToken 0 (ident_as "w" "t") true) "t" bound_twice
              eq_refl ltac:(discriminate) Hold)
    as (st' & H1 & H2 & _).
  exists st'. by split.
Defined.

(** C10, counterexample. Two accessors on the text [a], two objects: each
    has its own entry in the mapping from tokens to aliases. *)
Lemma equal_text_counterexample :
  let s1 := mkSQLToken 0 (ident "a") true in
  let s2 := mkSQLToken 1 (ident "a") true in
  let d := token2alias_set sample_hash s2 "q"
             (token2alias_set sample_hash s1 "p" []) in
  token_value (_token s1) = token_value (_token s2)
  /\ SQLToken_hash sample_hash s1 = SQLToken_hash sample_hash s2
  /\ List.length d = 2%nat
  /\ token2alias_get sample_hash s1 d = Some "p"
  /\ token2alias_get sample_hash s2 d = Some "q"
  /\ token2alias_get sample_hash s1 d <> token2alias_get sample_hash s2 d.
Proof. repeat split; try reflexivity. vm_compute. discriminate. Qed.

Lemma equal_text_equal_hash_witness :
  let s1 := mkSQLToken 0 (ident "a") true in
  let s2 := mkSQLToken 1 (ident "a") true in
  SQLToken_hash sample_hash s1 = SQLToken_hash sample_hash s2
  /\ token2alias_get sample_hash s1
       (token2alias_set sample_hash s2 "q"
          (token2alias_set sample_hash s1 "p" [])) = Some "p".
Proof.
  intros s1 s2.
  destruct (equal_text_equal_hash sample_hash s1 s2 eq_refl) as [Hh Hd].
  split; [exact Hh|].
  destruct (Hd ltac:(discriminate) "p" "q" []) as [H _]. exact H.
Defined.

(** ** ORDER BY and value lists *)

(** C7. In [ORDER BY 1] the token after BY is a number, neither an
    identifier nor a list of identifiers. [OrderConverter.parse] returns
    without an error and records no column, and [to_mongo] then gives an
    empty sort. *)
Theorem OrderConverter_parse_number :
  exists st,
    OrderConverter_parse order_by_number = Ok ([], st)
    /\ _tok_id (cs_statement st) = Some 4%nat
    /\ OrderConverter_to_mongo [] = Ok [].
Proof. eexists. split; [by vm_compute|]. by split. Qed.

(** [(%(0)s, a, NULL)] yields the index 0 and then fails on [a] with a decode
    error. *)
Example value_list_decode_error :
  SQLToken_iter value_list = mkGenerated [Some 0%nat] (Some SQLDecodeError).
Proof. reflexivity. Qed.

(** ** The statement cursor *)

Lemma getitem_new_cursor_witness :
  (exists child h',
     getitem_at sample_sqlparse 0 None (Some 3) one_cursor = Ok (child, h')
     /\ child = 1%nat
     /\ objects h' child
        = mkSQLStatement
            (Group Statement no_names [Leaf T_Other "HAVING a = %(0)s"])
            (Some 0%nat)
     /\ objects h' 0%nat = objects one_cursor 0%nat)
  /\ (exists child h',
        getitem_at sample_sqlparse 0 (Some 2) None one_cursor = Ok (child, h')
        /\ objects h' child
           = mkSQLStatement
               (Group Statement no_names [Leaf T_Other "a = %(0)s ORDER"])
               (Some 0%nat)
        /\ _tok_id (objects h' 0%nat) = Some 6%nat).
Proof.
  split.
  - destruct (getitem_new_cursor sample_sqlparse one_cursor 0 None (Some 3%nat)
                6 Statement no_names
                [keyword "GROUP"; ws; keyword "BY"; ws; ident "a"; ws;
                 keyword "HAVING"; ws;
                 comparison (ident "a") (placeholder "%(0)s");
                 ws; keyword "ORDER"]
                (Group Statement no_names [Leaf T_Other "HAVING a = %(0)s"])
                [])
      as (child & h' & H & _ & Hc & Hp & _).
    + simpl. lia.
    + reflexivity.
    + reflexivity.
    + exists child, h'. split; [exact H|].
      split; [|by split].
      vm_compute in H. by injection H as <- _.
  - destruct (getitem_new_cursor sample_sqlparse one_cursor 0 (Some 2%nat) None
                6 Statement no_names
                [keyword "GROUP"; ws; keyword "BY"; ws; ident "a"; ws;
                 keyword "HAVING"; ws;
                 comparison (ident "a") (placeholder "%(0)s");
                 ws; keyword "ORDER"]
                (Group Statement no_names [Leaf T_Other "a = %(0)s ORDER"])
                [])
      as (child & h' & H & _ & Hc & Hp & _).
    + simpl. lia.
    + reflexivity.
    + reflexivity.
    + exists child, h'. split; [exact H|]. split; [exact Hc|].
      by rewrite Hp.
Defined.

(** ** The cursor, the registry and the clauses of the aggregation mode *)

Lemma SQLStatement_next_skips_whitespace_witness :
  exists c',
    SQLStatement_next (cs_statement join_clause) = Ok (Some (ident "y"), c')
    /\ _tok_id c' = Some 2%nat.
Proof.
  destruct (SQLStatement_next_skips_whitespace (cs_statement join_clause)
              Statement no_names
              [keyword "JOIN"; ws; ident "y"; ws; keyword "ON"; ws;
               comparison (qualified "x" "id") (qualified "y" "x_id")]
              0 eq_refl eq_refl) as (r & c' & H & _ & _).
  exists c'. vm_compute in H. injection H as <- <-. by split.
Defined.

Lemma next_after_end_witness :
  let c := mkSQLStatement
             (Group Statement no_names [keyword "ORDER"; ws; keyword "BY"])
             None in
  SQLStatement_next c = Ok (None, c)
  /\ current_token c = Err TypeError.
Proof.
  intros c.
  destruct (next_after_end sample_sqlparse
              (mkSQLStatement
                 (Group Statement no_names [keyword "ORDER"; ws; keyword "BY"])
                 (Some 2%nat)) c eq_refl) as (H & _ & _ & Hc).
  by split.
Defined.

Lemma prev_token_after_next_witness :
  next_token (cs_statement join_clause) = Ok (Some (ident "y"))
  /\ prev_token
       (mkSQLStatement (_statement (cs_statement join_clause)) (Some 2%nat))
     = Ok (Some (keyword "JOIN")).
Proof.
  apply (prev_token_after_next (cs_statement join_clause) _ Statement no_names
           [keyword "JOIN"; ws; ident "y"; ws; keyword "ON"; ws;
            comparison (qualified "x" "id") (qualified "y" "x_id")]
           0 (keyword "JOIN") (ident "y")); reflexivity.
Defined.

Lemma SQLStatement_iter_yields_witness :
  SQLStatement_iter 5 (cs_statement order_by_number)
  = Some (mkGenerated
            [keyword "ORDER"; keyword "BY"; Leaf T_Number_Integer "1"] None,
          mkSQLStatement (_statement (cs_statement order_by_number)) None).
Proof.
  apply (SQLStatement_iter_yields (cs_statement order_by_number) Statement
           no_names
           [keyword "ORDER"; ws; keyword "BY"; ws; Leaf T_Number_Integer "1"]
           5 0 (keyword "ORDER")); [reflexivity.. | simpl; lia].
Defined.

Lemma table_rec_more_depth_witness :
  let ta := register sample_hash "t" (mkSQLToken 1 (ident_as "x" "t") true)
                     empty_TokenAlias in
  table_rec 10 ta (mkSQLToken 2 (qualified "t" "a") true)
  = table_rec 2 ta (mkSQLToken 2 (qualified "t" "a") true).
Proof.
  intros ta. apply table_rec_more_depth; [vm_compute; discriminate | lia].
Defined.

Lemma alias_cycle_recursion_error_witness :
  table_rec 10 self_alias (mkSQLToken 1 (qualified "x" "a") true)
  = Err RecursionError.
Proof.
  apply (alias_cycle_recursion_error self_alias
           (mkSQLToken 0 (ident_as "x" "x") true) "x");
    reflexivity.
Defined.

Lemma resolved_table_is_no_alias_witness :
  let ta := register sample_hash "t" (mkSQLToken 1 (ident_as "x" "t") true)
                     empty_TokenAlias in
  table_rec 10 ta (mkSQLToken 2 (qualified "t" "a") true) = Ok "x"
  /\ alias2token ta !! "x" = None.
Proof.
  intros ta.
  assert (table_rec 10 ta (mkSQLToken 2 (qualified "t" "a") true) = Ok "x")
    as H by (by vm_compute).
  split; [exact H|].
  apply (resolved_table_is_no_alias 10 ta
           (mkSQLToken 2 (qualified "t" "a") true) "x"); [|reflexivity|exact H].
  apply registry_ok_register; [|reflexivity..].
  intros a b Hab. cbn [empty_TokenAlias alias2token] in Hab.
  by rewrite lookup_empty in Hab.
Defined.

Lemma parsers_keep_registry_ok_witness :
  exists st',
    FromConverter_parse sample_hash 10 bound_twice = Ok (tt, st')
    /\ state_registry_ok st'.
Proof.
  eexists. split; [by vm_compute|].
  eapply (proj1 (parsers_keep_registry_ok sample_hash 10 sample_int
                   sample_SQLFunc bound_twice _ _) tt).
  by vm_compute.
  Unshelve.
  intros a b Hab.
  cbn [bound_twice cs_query query_token_alias alias2token] in Hab.
  apply lookup_singleton_Some in Hab as [<- <-]. by split.
Defined.

Lemma register_keeps_token2alias_witness :
  token2alias_get sample_hash (mkSQLToken 0 (ident_as "w" "t") true)
    (token2alias
       (register sample_hash "t" (mkSQLToken 1 (ident_as "x" "t") true)
                 (query_token_alias (cs_query bound_twice))))
  = Some "t".
Proof.
  apply (register_keeps_token2alias sample_hash "t"
           (mkSQLToken 1 (ident_as "x" "t") true)
           (mkSQLToken 0 (ident_as "w" "t") true) "t"
           (query_token_alias (cs_query bound_twice)));
    [simpl; lia | reflexivity].
Defined.

Lemma join_on_either_side_witness :
  exists s1 s2,
    JoinConverter_parse sample_hash 10 join_clause
    = Ok (mkJoinConverter "x" "y" "id" "x_id", s1)
    /\ JoinConverter_parse sample_hash 10 join_clause_reversed
       = Ok (mkJoinConverter "x" "y" "id" "x_id", s2).
Proof.
  apply (join_on_either_side sample_hash 10 join_clause join_clause_reversed
           (ident "y") (qualified "x" "id") (qualified "y" "x_id")
           no_names no_names
           [ws; Leaf T_Operator_Comparison "="; ws]
           [ws; Leaf T_Operator_Comparison "="; ws]
           (mkSQLStatement (_statement (cs_statement join_clause))
                           (Some 6%nat))
           (mkSQLStatement (_statement (cs_statement join_clause_reversed))
                           (Some 6%nat))
           "y" "x" "id" "x_id");
    try reflexivity; try discriminate.
  - eexists _, _, _, _. repeat split; reflexivity.
  - eexists _, _, _, _. repeat split; reflexivity.
Defined.

Lemma to_id_name_clash_TypeError_witness :
  to_id 10 joined_query
        [ mkSQLToken 2 (qualified "x" "y") true;
          mkSQLToken 3 (qualified "y" "b") true ]
  = Err TypeError.
Proof.
  apply (to_id_name_clash_TypeError 10 joined_query [] [] []
           (mkSQLToken 2 (qualified "x" "y") true)
           (mkSQLToken 3 (qualified "y" "b") true) "x" "y" "b");
    try (by split); try reflexivity.
  intros iden [<-|[]]. exists "x", "y". by split.
Defined.

Lemma SetConverter_to_mongo_IndexError_witness :
  SetConverter_to_mongo update_query
    [ mkSQLToken 0 (comparison (ident "y") (placeholder "%(0)s")) true;
      mkSQLToken 1 (comparison (ident "z") (placeholder "%(2)s")) true ]
  = Err IndexError.
Proof.
  apply (SetConverter_to_mongo_IndexError update_query
           [mkSQLToken 0 (comparison (ident "y") (placeholder "%(0)s")) true]
           [] (mkSQLToken 1 (comparison (ident "z") (placeholder "%(2)s")) true)
           "z" 2); try reflexivity; try (simpl; lia).
  intros s [<-|[]]. by split.
Defined.

Lemma OrderConverter_parse_other_token_witness :
  OrderConverter_parse order_by_nothing
  = Ok ([], mkCompileState
              (empty_query [])
              (mkSQLStatement (_statement (cs_statement order_by_nothing))
                              None)
              0).
Proof.
  apply (OrderConverter_parse_other_token order_by_nothing (keyword "BY")
           (mkSQLStatement (_statement (cs_statement order_by_nothing))
                           (Some 2%nat))
           _ None); try reflexivity.
  intros t [=].
Defined.

Lemma GroupbyConverter_parse_other_token_witness :
  GroupbyConverter_parse group_by_number = Err AttributeError.
Proof.
  apply (GroupbyConverter_parse_other_token group_by_number (keyword "BY")
           (mkSQLStatement (_statement (cs_statement group_by_number))
                           (Some 2%nat))
           (mkSQLStatement (_statement (cs_statement group_by_number))
                           (Some 4%nat))
           (Some (Leaf T_Number_Integer "1"))); try reflexivity.
  intros t [= <-]. by split.
Defined.

Lemma SQLToken_iter_empty_parenthesis_witness :
  SQLToken_iter empty_value_list = mkGenerated [] (Some IndexError).
Proof.
  apply SQLToken_iter_empty_parenthesis; [reflexivity | simpl; lia].
Defined.

Lemma AggColumnSelectConverter_to_mongo_project_witness :
  exists project,
    AggColumnSelectConverter_to_mongo 10 joined_query
      (mkColumnSelectConverter false None false
         (query_selected_columns joined_query))
    = Ok [ VDict [("$project", VDict project)] ]
    /\ dict_get "a" project = Some (VBool true)
    /\ dict_get "y.b" project = Some (VBool true).
Proof.
  destruct (AggColumnSelectConverter_to_mongo_project 10 joined_query
              (mkColumnSelectConverter false None false
                 (query_selected_columns joined_query)) eq_refl eq_refl)
    as (project & H & Hp).
  - intros sel [<-|[<-|[]]]; reflexivity.
  - exists project. split; [exact H|]. split; apply Hp; (split; [done|]).
    + exists (SelToken (mkSQLToken 0 (qualified "x" "a") true)).
      split; [by left | reflexivity].
    + exists (SelToken (mkSQLToken 1 (qualified "y" "b") true)).
      split; [right; by left | reflexivity].
Defined.

Lemma AggColumnSelectConverter_to_mongo_group_witness :
  exists group project,
    AggColumnSelectConverter_to_mongo 10 joined_query
      (mkColumnSelectConverter false None true
         [ SelToken (mkSQLToken 0 (qualified "x" "a") true);
           SelToken (mkSQLToken 1 (qualified "y" "b") true);
           SelFunc count_b ])
    = Ok [ VDict [("$group", VDict group)];
           VDict [("$project", VDict project)] ]
    /\ dict_get "_id" group = Some VNone
    /\ dict_get "cnt" group = Some (VDict [("$sum", VInt 1)])
    /\ dict_get "a" group = None
    /\ dict_get "_id" project = Some (VBool false)
    /\ dict_get "cnt" project = Some (VBool true)
    /\ dict_get "a" project = Some (VBool true)
    /\ dict_get "y.b" project = Some (VBool true).
Proof.
  destruct (AggColumnSelectConverter_to_mongo_group 10 joined_query
              (mkColumnSelectConverter false None true
                 [ SelToken (mkSQLToken 0 (qualified "x" "a") true);
                   SelToken (mkSQLToken 1 (qualified "y" "b") true);
                   SelFunc count_b ])
              eq_refl eq_refl)
    as (group & project & H & Hacc & Hg & Hid & _ & Hp & Hpid).
  - intros sel [<-|[<-|[<-|[]]]]; reflexivity.
  - exists group, project. split; [exact H|]. repeat split.
    + apply Hid. intros f [[=]|[[=]|[[= <-]|[]]]]. discriminate.
    + apply (Hacc [ SelToken (mkSQLToken 0 (qualified "x" "a") true);
                    SelToken (mkSQLToken 1 (qualified "y" "b") true) ]
                  count_b []); [reflexivity.. |]. intros f' [].
    + destruct (dict_get "a" group) as [v|] eqn:E; [|done].
      destruct (Hg _ _ E) as [[[=] _]|(f & [[=]|[[=]|[[= <-]|[]]]] & [=] & _)].
    + apply Hpid. intros sel [<-|[<-|[<-|[]]]]; vm_compute; discriminate.
    + apply (Hp (SelFunc count_b)); [right; right; by left | reflexivity].
    + apply (Hp (SelToken (mkSQLToken 0 (qualified "x" "a") true)));
        [by left | reflexivity].
    + apply (Hp (SelToken (mkSQLToken 1 (qualified "y" "b") true)));
        [right; by left | reflexivity].
Defined.

Lemma AggOrderConverter_to_mongo_sort_witness :
  let a := mkSQLToken 0 (qualified "x" "a") true in
  let a_desc := mkSQLToken 1 (ordered (qualified "x" "a") "DESC") true in
  let b := mkSQLToken 2 (qualified "y" "b") true in
  let b_asc := mkSQLToken 3 (ordered (qualified "y" "b") "ASC") true in
  let c := mkSQLToken 4 (ident "c") true in
  let c_asc := mkSQLToken 5 (ordered (ident "c") "ASC") true in
  exists sort,
    AggOrderConverter_to_mongo 10 joined_query
      [(a, a_desc); (b, b_asc); (c, c_asc)]
    = Ok sort
    /\ dict_get "a" sort = Some (-1)
    /\ dict_get "y.b" sort = Some 1
    /\ dict_get "c" sort = Some 1.
Proof.
  intros a a_desc b b_asc c c_asc.
  destruct (AggOrderConverter_to_mongo_sort 10 joined_query
              [(a, a_desc); (b, b_asc); (c, c_asc)])
    as (sort & H & _ & Hs & _).
  - intros col [<-|[<-|[<-|[]]]]; reflexivity.
  - exists sort. split; [exact H|]. split; [|split].
    + apply (Hs [] (a, a_desc) [(b, b_asc); (c, c_asc)]);
        [reflexivity.. |].
      intros col' o' [<-|[<-|[]]]; vm_compute; discriminate.
    + apply (Hs [(a, a_desc)] (b, b_asc) [(c, c_asc)]);
        [reflexivity.. |].
      intros col' o' [<-|[]]; vm_compute; discriminate.
    + apply (Hs [(a, a_desc); (b, b_asc)] (c, c_asc) []);
        [reflexivity.. |].
      intros col' o' [].
Defined.

Lemma SetConverter_parse_assignments_witness :
  SetConverter_parse set_clause
  = Ok (set_tokens,
        mkCompileState update_query
          (mkSQLStatement (_statement (cs_statement set_clause)) (Some 2%nat))
          2).
Proof.
  apply (SetConverter_parse_assignments set_clause
           (Group IdentifierList no_names
              [comparison (ident "y") (placeholder "%(0)s");
               Leaf T_Punctuation ","; ws;
               comparison (ident "z") (keyword "NULL")])
           (mkSQLStatement (_statement (cs_statement set_clause))
                           (Some 2%nat))
           [comparison (ident "y") (placeholder "%(0)s");
            comparison (ident "z") (keyword "NULL")]); reflexivity.
Defined.

Lemma iter_identifiers_yields_witness :
  iter_identifiers [placeholder "%(3)s"; keyword "NULL"]
  = mkGenerated [Some 3%nat; None] None
  /\ iter_identifiers [placeholder "%(3)s"; keyword "NULL"; ident "a";
                       placeholder "%(1)s"]
     = mkGenerated [Some 3%nat; None] (Some SQLDecodeError)
  /\ iter_identifiers [placeholder "%(3)s"; keyword "NULL"; placeholder "%s";
                       placeholder "%(1)s"]
     = mkGenerated [Some 3%nat; None] (Some AttributeError).
Proof.
  assert (Forall2 value_entry [placeholder "%(3)s"; keyword "NULL"]
                  [Some 3%nat; None]) as H.
  { constructor; [|constructor; [|constructor]].
    - left. split; [reflexivity|]. exists ["3"%char].
      split; [|reflexivity].
      split; [discriminate|]. split; [reflexivity|].
      exists "s", "". split; [by left | reflexivity].
    - right. by repeat split. }
  destruct (iter_identifiers_yields _ _ H) as (H1 & H2 & H3).
  split; [exact H1|]. split.
  - apply (H2 (ident "a") [placeholder "%(1)s"]); reflexivity.
  - apply (H3 (placeholder "%s") [placeholder "%(1)s"]); [reflexivity|].
    intros ds Hds. apply re_match_placeholder_spec in Hds. discriminate Hds.
Defined.
